(** * Deployer: a signed deployment webhook (app/main.py)

    A shallow embedding of the request pipeline of [app/main.py]: the
    rate-limiting middleware, signature verification, stack resolution, the
    command runner with output redaction, the four-step deployment sequence
    and the response envelope, followed by the properties the design
    document states about them.

    Conventions.
    - A Python [str] is a list of Unicode code points ([N]); [bytes] is a
      list of [byte].
    - [time.time()] returns a float; timestamps are modelled as rationals.
    - Everything outside the process (clock, file system, child processes,
      JSON and UTF-8 decoding) is reached through the interface [Env]; the
      functions of the module are written in an error-and-state monad over
      the application state. *)

From Stdlib Require Import ZArith NArith QArith Lia String Ascii DecimalString Sorted.
From Stdlib.Strings Require Import Byte.
From stdpp Require Import base list gmap.

Set Warnings "-register-all".
Close Scope Q_scope.
Open Scope N_scope.

(** ** Python strings *)

Definition str := list N.
Definition bytes := list byte.

(** The code points of an ASCII literal. *)
Definition py (s : string) : str :=
  map (fun a => N_of_ascii a) (list_ascii_of_string s).

Definition in_range (lo hi c : N) : bool := (lo <=? c) && (c <=? hi).

(** [str.isspace] on one code point, which is also what [\s] matches in a
    [str] pattern. *)
Definition isspace (c : N) : bool :=
  in_range 9 13 c || in_range 28 32 c || (c =? 133) || (c =? 160)
  || (c =? 5760) || in_range 8192 8202 c || (c =? 8232) || (c =? 8233)
  || (c =? 8239) || (c =? 8287) || (c =? 12288).

Fixpoint lstrip (s : str) : str :=
  match s with
  | c :: s' => if isspace c then lstrip s' else s
  | [] => []
  end.

Definition rstrip (s : str) : str := rev (lstrip (rev s)).

(** [str.strip()] *)
Definition strip (s : str) : str := rstrip (lstrip s).

(** The line boundaries of [str.splitlines()]. *)
Definition is_linebreak (c : N) : bool :=
  in_range 10 13 c || in_range 28 30 c || (c =? 133) || (c =? 8232) || (c =? 8233).

(** [cur] is the line being read; [after_cr] tells that the previous
    character was a carriage return, whose following line feed belongs to
    the same boundary. *)
Fixpoint splitlines_from (after_cr : bool) (cur : str) (s : str) : list str :=
  match s with
  | [] => match cur with [] => [] | _ => [cur] end
  | c :: s' =>
      if (c =? 10) && after_cr then splitlines_from false cur s'
      else if is_linebreak c then cur :: splitlines_from (c =? 13) [] s'
      else splitlines_from false (cur ++ [c]) s'
  end.

(** [str.splitlines()] *)
Definition splitlines (s : str) : list str := splitlines_from false [] s.

(** [s[-n:]] for a positive [n]. *)
Definition last_chars (n : nat) (s : str) : str := drop (length s - n) s.

(** [str(z)] and [f"{z}"] for an integer. *)
Definition str_of_Z (z : Z) : str := py (NilZero.string_of_int (Z.to_int z)).

(** [all(c < 128)]: what [str.isascii()] tests. *)
Definition isascii (s : str) : bool := forallb (fun c => c <? 128) s.

(** ** Regular expressions

    A backtracking matcher for the constructs the two patterns of the module
    use.  Alternatives are tried in order, a greedy repetition tries the
    longest run first and a lazy one the shortest, as [re] does. *)

Inductive regex :=
| Bos                         (* ^ without re.MULTILINE *)
| Bol                         (* ^ under re.MULTILINE *)
| Eos                         (* $ without re.MULTILINE *)
| Cls (p : N -> bool)         (* one character of a class *)
| Star (p : N -> bool)        (* class*  *)
| LazyStar (p : N -> bool)    (* class*? *)
| Lit (s : str)               (* literal under re.IGNORECASE *)
| Alt (r1 r2 : regex)
| Seq (r1 r2 : regex)
| Group (i : nat) (r : regex).

(** Matcher state: the character before the current position (none at the
    start of the subject), the rest of the subject and the groups closed so
    far, most recent first. *)
Record mstate := MState {
  m_prev : option N;
  m_rest : str;
  m_groups : list (nat * str)
}.

Definition cont := mstate -> option mstate.

(** Case folding of [re.IGNORECASE] on the subject side, for patterns made
    of lowercase ASCII letters: beside A-Z, the Kelvin sign folds to [k] and
    the long s to [s]. *)
Definition lower_fold (c : N) : N :=
  if in_range 65 90 c then c + 32
  else if c =? 8490 then 107
  else if c =? 383 then 115
  else c.

Fixpoint star_greedy (p : N -> bool) (k : cont) (prev : option N)
    (g : list (nat * str)) (s : str) : option mstate :=
  match s with
  | c :: s' =>
      if p c then
        match star_greedy p k (Some c) g s' with
        | Some m => Some m
        | None => k (MState prev s g)
        end
      else k (MState prev s g)
  | [] => k (MState prev s g)
  end.

Fixpoint star_lazy (p : N -> bool) (k : cont) (prev : option N)
    (g : list (nat * str)) (s : str) : option mstate :=
  match k (MState prev s g) with
  | Some m => Some m
  | None =>
      match s with
      | c :: s' => if p c then star_lazy p k (Some c) g s' else None
      | [] => None
      end
  end.

Fixpoint lit_ci (pat : str) (prev : option N) (s : str) : option (option N * str) :=
  match pat with
  | [] => Some (prev, s)
  | a :: pat' =>
      match s with
      | c :: s' => if lower_fold c =? a then lit_ci pat' (Some c) s' else None
      | [] => None
      end
  end.

Definition at_bol (prev : option N) : bool :=
  match prev with None => true | Some c => c =? 10 end.

Definition at_bos (prev : option N) : bool :=
  match prev with None => true | Some _ => false end.

Definition at_eos (s : str) : bool :=
  match s with [] => true | [c] => c =? 10 | _ => false end.

Fixpoint rmatch (r : regex) (k : cont) (st : mstate) : option mstate :=
  match r with
  | Bos => if at_bos (m_prev st) then k st else None
  | Bol => if at_bol (m_prev st) then k st else None
  | Eos => if at_eos (m_rest st) then k st else None
  | Cls p =>
      match m_rest st with
      | c :: s' => if p c then k (MState (Some c) s' (m_groups st)) else None
      | [] => None
      end
  | Star p => star_greedy p k (m_prev st) (m_groups st) (m_rest st)
  | LazyStar p => star_lazy p k (m_prev st) (m_groups st) (m_rest st)
  | Lit pat =>
      match lit_ci pat (m_prev st) (m_rest st) with
      | Some (prev', s') => k (MState prev' s' (m_groups st))
      | None => None
      end
  | Alt r1 r2 =>
      match rmatch r1 k st with
      | Some m => Some m
      | None => rmatch r2 k st
      end
  | Seq r1 r2 => rmatch r1 (rmatch r2 k) st
  | Group i r =>
      rmatch r (fun st' =>
        let n := (length (m_rest st) - length (m_rest st'))%nat in
        k (MState (m_prev st') (m_rest st')
                  ((i, take n (m_rest st)) :: m_groups st'))) st
  end.

(** A match attempt at the current position; [prev] is the character before
    it. *)
Definition match_at (r : regex) (prev : option N) (s : str) : option mstate :=
  rmatch r Some (MState prev s []).

(** [m.group(i)] *)
Fixpoint group (i : nat) (g : list (nat * str)) : str :=
  match g with
  | [] => []
  | (j, t) :: g' => if Nat.eqb i j then t else group i g'
  end.

(** [pattern.sub(repl, text)] for a pattern that matches no empty string:
    scan left to right, replace the leftmost match and resume after it.
    [skip] counts the characters of the current match still to pass over. *)
Fixpoint sub_loop (r : regex) (repl : mstate -> str) (skip : nat)
    (prev : option N) (s : str) : str :=
  match s with
  | [] => []
  | c :: s' =>
      match skip with
      | S n => sub_loop r repl n (Some c) s'
      | O =>
          match match_at r prev s with
          | Some m =>
              repl m ++ sub_loop r repl (length s' - length (m_rest m)) (Some c) s'
          | None => c :: sub_loop r repl 0 (Some c) s'
          end
      end
  end.

(** ** Configuration defaults and patterns *)

Definition RATE_LIMIT_WINDOW_SECONDS : Q := 60%Q.
Definition TAIL_LIMIT : nat := 2000.

Definition stack_name_char (c : N) : bool :=
  in_range 65 90 c || in_range 97 122 c || in_range 48 57 c || (c =? 95) || (c =? 45).

(** [^[A-Za-z0-9_-]+$] *)
Definition STACK_NAME_RE : regex :=
  Seq Bos (Seq (Cls stack_name_char) (Seq (Star stack_name_char) Eos)).

Definition is_sep (c : N) : bool := (c =? 58) || (c =? 61).
Definition is_nl (c : N) : bool := (c =? 10) || (c =? 13).

(** [(?:secret|token|password|passwd|pwd|key)] *)
Definition keywords : regex :=
  Alt (Lit (py "secret")) (Alt (Lit (py "token")) (Alt (Lit (py "password"))
  (Alt (Lit (py "passwd")) (Alt (Lit (py "pwd")) (Lit (py "key")))))).

(** [(?im)^\s*([^\s:=]*(?:secret|token|password|passwd|pwd|key)[^:=]*?)\s*[:=]\s*([^\n\r]+)] *)
Definition SENSITIVE_RE : regex :=
  Seq Bol (Seq (Star isspace)
  (Seq (Group 1 (Seq (Star (fun c => negb (isspace c || is_sep c)))
                (Seq keywords (LazyStar (fun c => negb (is_sep c))))))
  (Seq (Star isspace) (Seq (Cls is_sep) (Seq (Star isspace)
  (Group 2 (Seq (Cls (fun c => negb (is_nl c))) (Star (fun c => negb (is_nl c)))))))))).

(** [SENSITIVE_RE.sub(lambda m: f"{m.group(1)}: ***", text)], resumed at a
    position whose preceding character is [prev]. *)
Definition sanitize_from (prev : option N) (text : str) : str :=
  sub_loop SENSITIVE_RE (fun m => group 1 (m_groups m) ++ py ": ***") 0 prev text.

Definition sanitize_output (text : str) : str := sanitize_from None text.

(** ** [hashlib.sha256] and [hmac]

    SHA-256 (FIPS 180-4) on 32-bit words held in [N], and HMAC (RFC 2104)
    over it. *)

Module Sha256.
Definition w32 (x : N) : N := x mod 4294967296.
Definition add32 (a b : N) : N := w32 (a + b).
Definition rotr (n x : N) : N := N.lor (N.shiftr x n) (w32 (N.shiftl x (32 - n))).
Definition shr (n x : N) : N := N.shiftr x n.
Definition Ch (x y z : N) : N := N.lxor (N.land x y) (N.land (N.lxor x 4294967295) z).
Definition Maj (x y z : N) : N := N.lxor (N.lxor (N.land x y) (N.land x z)) (N.land y z).
Definition Sigma0 (x : N) : N := N.lxor (N.lxor (rotr 2 x) (rotr 13 x)) (rotr 22 x).
Definition Sigma1 (x : N) : N := N.lxor (N.lxor (rotr 6 x) (rotr 11 x)) (rotr 25 x).
Definition sigma0 (x : N) : N := N.lxor (N.lxor (rotr 7 x) (rotr 18 x)) (shr 3 x).
Definition sigma1 (x : N) : N := N.lxor (N.lxor (rotr 17 x) (rotr 19 x)) (shr 10 x).

Definition K : list N :=
[
 1116352408; 1899447441; 3049323471; 3921009573; 961987163; 1508970993; 2453635748; 2870763221;
 3624381080; 310598401; 607225278; 1426881987; 1925078388; 2162078206; 2614888103; 3248222580;
 3835390401; 4022224774; 264347078; 604807628; 770255983; 1249150122; 1555081692; 1996064986;
 2554220882; 2821834349; 2952996808; 3210313671; 3336571891; 3584528711; 113926993; 338241895;
 666307205; 773529912; 1294757372; 1396182291; 1695183700; 1986661051; 2177026350; 2456956037;
 2730485921; 2820302411; 3259730800; 3345764771; 3516065817; 3600352804; 4094571909; 275423344;
 430227734; 506948616; 659060556; 883997877; 958139571; 1322822218; 1537002063; 1747873779;
 1955562222; 2024104815; 2227730452; 2361852424; 2428436474; 2756734187; 3204031479; 3329325298
].
Definition H0 : list N :=
[
 1779033703; 3144134277; 1013904242; 2773480762; 1359893119; 2600822924; 528734635; 1541459225
].

Definition be_bytes (n : nat) (x : N) : list N :=
  map (fun i => (N.shiftr x (8 * N.of_nat i)) mod 256) (rev (seq 0 n)).

Definition pad (msg : list N) : list N :=
  let l := length msg in
  let zeros := ((64 - (l + 9) mod 64) mod 64)%nat in
  msg ++ [128] ++ replicate zeros 0 ++ be_bytes 8 (8 * N.of_nat l).

Fixpoint words (bs : list N) : list N :=
  match bs with
  | a :: b :: c :: d :: bs' => (a * 16777216 + b * 65536 + c * 256 + d) :: words bs'
  | _ => []
  end.

Fixpoint blocks (n : nat) (ws : list N) : list (list N) :=
  match n with
  | O => []
  | S n' => take 16 ws :: blocks n' (drop 16 ws)
  end.

(** [w] holds the schedule so far, most recent word first. *)
Fixpoint schedule (n : nat) (w : list N) : list N :=
  match n with
  | O => w
  | S n' =>
      let nw := add32 (add32 (sigma1 (nth 1 w 0)) (nth 6 w 0))
                      (add32 (sigma0 (nth 14 w 0)) (nth 15 w 0)) in
      schedule n' (nw :: w)
  end.

Definition round (s : list N) (kw : N * N) : list N :=
  match s with
  | [a; b; c; d; e; f; g; h] =>
      let t1 := add32 (add32 (add32 h (Sigma1 e)) (add32 (Ch e f g) (fst kw))) (snd kw) in
      let t2 := add32 (Sigma0 a) (Maj a b c) in
      [add32 t1 t2; a; b; c; add32 d t1; e; f; g]
  | _ => s
  end.

Definition compress (h : list N) (block : list N) : list N :=
  let w := rev (schedule 48 (rev block)) in
  let s := fold_left round (combine K w) h in
  map (fun p => add32 (fst p) (snd p)) (combine h s).

Definition digest (msg : list N) : list N :=
  let ws := words (pad msg) in
  let h := fold_left compress (blocks (length ws / 16) ws) H0 in
  flat_map (be_bytes 4) h.
End Sha256.

Definition sha256 (data : bytes) : bytes :=
  map (fun n => default x00 (Byte.of_N n)) (Sha256.digest (map Byte.to_N data)).

Definition xor_byte (k : N) (b : byte) : byte :=
  default x00 (Byte.of_N (N.lxor k (Byte.to_N b))).

Definition hmac_sha256 (key msg : bytes) : bytes :=
  let key' := if (64 <? length key)%nat then sha256 key else key in
  let block := key' ++ replicate (64 - length key') x00 in
  sha256 (map (xor_byte 92) block ++ sha256 (map (xor_byte 54) block ++ msg)).

Definition hex_digit (n : N) : N := if n <? 10 then 48 + n else 87 + n.
Definition hexdigest (d : bytes) : str :=
  flat_map (fun b => let n := Byte.to_N b in [hex_digit (n / 16); hex_digit (n mod 16)]) d.


(** ** JSON values, responses and exceptions *)

Inductive JSON :=
| JNull
| JBool (b : bool)
| JInt (z : Z)
| JFloat (q : Q)
| JStr (s : str)
| JArr (items : list JSON)
| JObj (fields : list (str * JSON)).

(** Truth value of a parsed JSON value ([if not stack]). *)
Definition truthy (v : JSON) : bool :=
  match v with
  | JNull => false
  | JBool b => b
  | JInt z => negb (z =? 0)%Z
  | JFloat q => negb (Qeq_bool q 0)
  | JStr s => negb (bool_decide (s = []))
  | JArr l => match l with [] => false | _ => true end
  | JObj l => match l with [] => false | _ => true end
  end.

(** [d.get(key)] on the fields of an object. *)
Fixpoint dict_get (fields : list (str * JSON)) (key : str) : JSON :=
  match fields with
  | [] => JNull
  | (k, v) :: rest => if bool_decide (k = key) then v else dict_get rest key
  end.

Record Response := JSONResponse {
  status_code : Z;
  content : JSON
}.

Inductive exn :=
| HTTPException (status : Z) (detail : str)
| TimeoutExpired (msg : str)
| FileNotFoundError (msg : str)
| JSONDecodeError (msg : str)
| UnicodeError (msg : str)
| TypeError (msg : str)
| AttributeError (msg : str)
| OtherError (msg : str).

(** [str(exc)] *)
Definition exn_str (e : exn) : str :=
  match e with
  | HTTPException _ d => d
  | TimeoutExpired m | FileNotFoundError m | JSONDecodeError m | UnicodeError m
  | TypeError m | AttributeError m | OtherError m => m
  end.

Inductive result (A : Type) :=
| Return (a : A)
| Raise (e : exn).
Arguments Return {A} a.
Arguments Raise {A} e.

Definition HTTP_200_OK : Z := 200.
Definition HTTP_400_BAD_REQUEST : Z := 400.
Definition HTTP_401_UNAUTHORIZED : Z := 401.
Definition HTTP_404_NOT_FOUND : Z := 404.
Definition HTTP_429_TOO_MANY_REQUESTS : Z := 429.
Definition HTTP_500_INTERNAL_SERVER_ERROR : Z := 500.

(** ** Paths

    A path is the tuple of its [pathlib] parts; an absolute path starts with
    the root part ["/"]. *)

Definition Path := list str.

Fixpoint split_on (sep : N) (cur : str) (s : str) : list str :=
  match s with
  | [] => [cur]
  | c :: s' => if c =? sep then cur :: split_on sep [] s' else split_on sep (cur ++ [c]) s'
  end.

Definition path_components (seg : str) : list str :=
  filter (fun x => x <> [] /\ x <> py ".") (split_on 47 [] seg).

Definition path_root (seg : str) : option str :=
  match seg with
  | 47 :: 47 :: 47 :: _ => Some (py "/")
  | 47 :: 47 :: _ => Some (py "//")
  | 47 :: _ => Some (py "/")
  | _ => None
  end.

(** [p / seg] *)
Definition joinpath (p : Path) (seg : str) : Path :=
  match path_root seg with
  | Some r => r :: path_components seg
  | None => p ++ path_components seg
  end.

Definition is_absolute (p : Path) : bool :=
  match p with
  | (47 :: _) :: _ => true
  | _ => false
  end.

(** [p.parents]: the proper ancestors, nearest first. *)
Definition parents (p : Path) : list Path :=
  let lo := if is_absolute p then 1%nat else 0%nat in
  map (fun k => take k p) (rev (seq lo (length p - lo))).

(** [p.name] *)
Definition path_name (p : Path) : str :=
  match p with
  | [_] => if is_absolute p then [] else default [] (last p)
  | _ => default [] (last p)
  end.

Fixpoint join_with (sep : str) (l : list str) : str :=
  match l with
  | [] => []
  | [x] => x
  | x :: l' => x ++ sep ++ join_with sep l'
  end.

(** [str(p)] *)
Definition path_str (p : Path) : str :=
  match p with
  | [] => py "."
  | r :: rest => if is_absolute p then r ++ join_with (py "/") rest else join_with (py "/") p
  end.

(** ** The process and its surroundings *)

Record Settings := {
  deploy_secret : bytes;
  stacks_root : Path;
  rate_limit_per_min : Z;
  status_timeout : Z;
  config_timeout : Z;
  pull_timeout : Z;
  up_timeout : Z
}.

Record CompletedProcess := {
  returncode : Z;
  stdout : str;
  stderr : str
}.

(** What the module asks of the outside world.  [World] is the state of
    everything outside the process. *)
Class Env := {
  World : Type;
  settings : Settings;
  (* time.time() *)
  time_time : World -> Q * World;
  (* datetime.now(timezone.utc).isoformat() *)
  datetime_now : World -> str * World;
  (* os.environ.copy() *)
  os_environ : World -> gmap str str;
  (* subprocess.run(args, cwd=, timeout=, env=, capture_output=True, text=True) *)
  subprocess_run : list str -> Path -> Z -> gmap str str -> World -> result CompletedProcess * World;
  (* Path.resolve(), Path.resolve(strict=True), Path.exists(), Path.is_dir() *)
  path_resolve : World -> Path -> result Path;
  path_resolve_strict : World -> Path -> result Path;
  path_exists : World -> Path -> bool;
  path_is_dir : World -> Path -> bool;
  (* bytes.decode(), json.loads(), str() of a non-scalar JSON value *)
  bytes_decode : bytes -> result str;
  json_loads : str -> result JSON;
  py_repr : JSON -> str
}.

(** One call of [subprocess.run], as the command runner made it. *)
Record Exec := {
  ex_step : str;
  ex_args : list str;
  ex_cwd : Path;
  ex_timeout : Z;
  ex_env : gmap str str;
  ex_outcome : result CompletedProcess
}.

Record StepResult := {
  name : str;
  ok : bool;
  exit_code : option Z;
  duration_ms : Z;
  tail : str
}.

(** The routes of the application and what a handler reads of a request. *)
Inductive Route :=
| Health                        (* GET|POST /health *)
| DeployStack (stack : str)     (* POST /deploy/{stack} *)
| DeployBody.                   (* POST /deploy *)

Record Request := {
  client : option str;          (* request.client.host, when there is a client *)
  route : Route;
  x_signature : option str;     (* the X-Signature header, decoded as latin-1 *)
  body : bytes
}.

Section Deployer.
Context {E : Env}.

(** The state of the application: the outside world, the rate limiter's
    buckets, the events logged and the external commands run so far. *)
Record AppState := {
  world : World;
  request_buckets : gmap str (list Q);
  events : list (list (str * JSON));
  executed : list Exec
}.

(** ** The monad of the module's functions: state plus exceptions *)

Definition M (A : Type) : Type := AppState -> result A * AppState.

Definition ret {A} (a : A) : M A := fun st => (Return a, st).

Definition raise {A} (e : exn) : M A := fun st => (Raise e, st).

Definition bind {A B} (m : M A) (k : A -> M B) : M B := fun st =>
  match m st with
  | (Return a, st') => k a st'
  | (Raise e, st') => (Raise e, st')
  end.

Notation "x <- m ;; k" := (bind m (fun x => k))
  (at level 100, m at next level, right associativity).
Notation "m ;;; k" := (bind m (fun _ => k))
  (at level 100, right associativity).

(** [try: m except: h]; [h] returns [None] for the exceptions the clause
    does not name. *)
Definition try_except {A} (m : M A) (h : exn -> option (M A)) : M A := fun st =>
  match m st with
  | (Return a, st') => (Return a, st')
  | (Raise e, st') =>
      match h e with
      | Some handler => handler st'
      | None => (Raise e, st')
      end
  end.

Definition lift {A} (r : result A) : M A := fun st => (r, st).

(** A call that only reads the world, and one that may change it. *)
Definition ask {A} (f : World -> A) : M A := fun st => (Return (f (world st)), st).

Definition act {A} (f : World -> A * World) : M A := fun st =>
  let '(a, w) := f (world st) in
  (Return a, {| world := w; request_buckets := request_buckets st;
                events := events st; executed := executed st |}).

Definition set_bucket (client : str) (bucket : list Q) : M unit := fun st =>
  (Return tt, {| world := world st;
                 request_buckets := <[client := bucket]> (request_buckets st);
                 events := events st; executed := executed st |}).

Definition get_bucket (client : str) : M (list Q) := fun st =>
  (Return (default [] (request_buckets st !! client)), st).

(** [subprocess.run], recording the call. *)
Definition run_subprocess (step : str) (args : list str) (cwd : Path) (timeout : Z)
    (env : gmap str str) : M CompletedProcess := fun st =>
  let '(r, w) := subprocess_run args cwd timeout env (world st) in
  (r, {| world := w; request_buckets := request_buckets st; events := events st;
         executed := executed st ++
           [{| ex_step := step; ex_args := args; ex_cwd := cwd; ex_timeout := timeout;
               ex_env := env; ex_outcome := r |}] |}).

(** ** Structured JSON logger *)

Definition log_event (event : list (str * JSON)) : M unit :=
  ts <- act datetime_now ;;
  fun st =>
    (Return tt, {| world := world st; request_buckets := request_buckets st;
                   events := events st ++ [(py "ts", JStr ts) :: event];
                   executed := executed st |}).

(** ** Rate limiter *)

Definition Qltb (a b : Q) : bool := negb (Qle_bool b a).

(** [while bucket and bucket[0] < window_start: bucket.popleft()] *)
Fixpoint evict (window_start : Q) (bucket : list Q) : list Q :=
  match bucket with
  | t :: rest => if Qltb t window_start then evict window_start rest else bucket
  | [] => []
  end.

Definition rate_limiter (request : Request) (call_next : Request -> M Response) : M Response :=
  let client_ip := match client request with Some host => host | None => py "unknown" end in
  now <- act time_time ;;
  bucket <- get_bucket client_ip ;;
  let window_start := (now - RATE_LIMIT_WINDOW_SECONDS)%Q in
  let bucket := evict window_start bucket in
  if (rate_limit_per_min settings <=? Z.of_nat (length bucket))%Z then
    set_bucket client_ip bucket ;;;
    ret (JSONResponse HTTP_429_TOO_MANY_REQUESTS
           (JObj [(py "detail", JStr (py "rate limit exceeded"))]))
  else
    set_bucket client_ip (bucket ++ [now]) ;;;
    call_next request.

(** ** Stack resolution *)

Definition validate_stack_name (name : str) : M str :=
  match match_at STACK_NAME_RE None name with
  | None => raise (HTTPException HTTP_400_BAD_REQUEST (py "invalid stack name"))
  | Some _ => ret name
  end.

Definition get_stack_path (stack : str) : M Path :=
  stack_path <- (fun st => (path_resolve (world st) (joinpath (stacks_root settings) stack), st)) ;;
  settings_root <-
    try_except (fun st => (path_resolve_strict (world st) (stacks_root settings), st))
      (fun e => match e with
                | FileNotFoundError _ =>
                    Some (raise (HTTPException HTTP_500_INTERNAL_SERVER_ERROR
                                   (py "stacks root missing")))
                | _ => None
                end) ;;
  if negb (bool_decide (settings_root ∈ parents stack_path))
     && bool_decide (stack_path <> settings_root) then
    raise (HTTPException HTTP_400_BAD_REQUEST (py "invalid stack path"))
  else
    is_there <- ask (fun w => path_exists w stack_path) ;;
    is_dir <- ask (fun w => path_is_dir w stack_path) ;;
    if negb is_there || negb is_dir then
      raise (HTTPException HTTP_404_NOT_FOUND (py "stack not found"))
    else
      let compose_file := joinpath stack_path (py "docker-compose.yml") in
      has_compose <- ask (fun w => path_exists w compose_file) ;;
      if negb has_compose then
        raise (HTTPException HTTP_400_BAD_REQUEST (py "docker-compose.yml missing"))
      else ret stack_path.

(** ** Signatures *)

Definition compute_signature (data : bytes) : str :=
  hexdigest (hmac_sha256 (deploy_secret settings) data).

(** [hmac.compare_digest] on two [str]: both must be ASCII. *)
Definition compare_digest (a b : str) : result bool :=
  if isascii a && isascii b then Return (bool_decide (a = b))
  else Raise (TypeError (py "comparing strings with non-ASCII characters is not supported")).

Definition verify_signature (signature_header : str) (data : bytes) : M unit :=
  match signature_header with
  | [] => raise (HTTPException HTTP_401_UNAUTHORIZED (py "missing signature"))
  | _ =>
      let expected := compute_signature data in
      same <- lift (compare_digest expected (strip signature_header)) ;;
      if negb same then
        raise (HTTPException HTTP_401_UNAUTHORIZED (py "invalid signature"))
      else ret tt
  end.

(** ** Command runner *)

Definition get_docker_env (stack_path : Path) : M (gmap str str) :=
  let cfg_dir := joinpath stack_path (py ".docker") in
  let cfg_file := joinpath cfg_dir (py "config.json") in
  has_cfg <- ask (fun w => path_exists w cfg_file) ;;
  if has_cfg then ret {[ py "DOCKER_CONFIG" := path_str cfg_dir ]}
  else ret ∅.

(** Floating point.  [time.time()] returns a binary64 number and the
    arithmetic on it is binary64 arithmetic.  A finite double is written as
    the rational it denotes; [fl x] is the double nearest to [x], ties to
    even, which is how every arithmetic operation rounds its exact result
    (53 bits, and no finer than [2^-1074]), for [x] within the range of the
    finite doubles. *)
Definition fl_pos (n d : positive) : Q :=
  let scaled (e : Z) : Z * Z :=
    if (e <? 0)%Z then (Zpos n * 2 ^ (- e), Zpos d)%Z else (Zpos n, Zpos d * 2 ^ e)%Z in
  let e0 := (Z.log2 (Zpos n) - Z.log2 (Zpos d) - 52)%Z in
  let e1 := if (fst (scaled e0) / snd (scaled e0) <? 2 ^ 52)%Z then (e0 - 1)%Z else e0 in
  let e := Z.max e1 (-1074) in
  let q := (fst (scaled e) / snd (scaled e))%Z in
  let r := (fst (scaled e) mod snd (scaled e))%Z in
  let m := match (2 * r ?= snd (scaled e))%Z with
           | Lt => q
           | Gt => (q + 1)%Z
           | Eq => if Z.even q then q else (q + 1)%Z
           end in
  if (e <? 0)%Z then Qmake m (Z.to_pos (2 ^ (- e))) else inject_Z (m * 2 ^ e).

Definition fl (x : Q) : Q :=
  match Qnum x with
  | Z0 => 0%Q
  | Zpos n => fl_pos n (Qden x)
  | Zneg n => (- fl_pos n (Qden x))%Q
  end.

(** [a - b] and [a * b] on floats. *)
Definition fsub (a b : Q) : Q := fl (a - b)%Q.
Definition fmul (a b : Q) : Q := fl (a * b)%Q.

(** [int(x)] of a float: truncation toward zero. *)
Definition py_int (q : Q) : Z := Z.quot (Qnum q) (Zpos (Qden q)).

Definition opt_json (o : option Z) : JSON :=
  match o with Some z => JInt z | None => JNull end.

Definition run_command_env (name : str) (args : list str) (cwd : Path) (timeout : Z)
    (env : option (gmap str str)) : M StepResult :=
  started <- act time_time ;;
  try_except
    (environ <- ask os_environ ;;
     let proc_env :=
       match env with
       | Some e => if bool_decide (e = ∅) then environ else e ∪ environ
       | None => environ
       end in
     proc <- run_subprocess name args cwd timeout proc_env ;;
     finished <- act time_time ;;
     let duration_ms := py_int (fmul (fsub finished started) 1000) in
     let output_combined := sanitize_output (stdout proc ++ stderr proc) in
     let tail := last_chars TAIL_LIMIT output_combined in
     let result := {| name := name; ok := (returncode proc =? 0)%Z;
                      exit_code := Some (returncode proc);
                      duration_ms := duration_ms; tail := tail |} in
     log_event [(py "event", JStr (py "step")); (py "stack", JStr (path_name cwd));
                (py "step", JStr name); (py "ok", JBool (ok result));
                (py "exit_code", JInt (returncode proc));
                (py "duration_ms", JInt duration_ms)] ;;;
     ret result)
    (fun e => match e with
     | TimeoutExpired exc => Some (
         finished <- act time_time ;;
         let duration_ms := py_int (fmul (fsub finished started) 1000) in
         log_event [(py "event", JStr (py "step_timeout")); (py "stack", JStr (path_name cwd));
                    (py "step", JStr name); (py "duration_ms", JInt duration_ms)] ;;;
         ret {| name := name; ok := false; exit_code := None; duration_ms := duration_ms;
                tail := py "timeout after " ++ str_of_Z timeout ++ py "s: " ++ exc |})
     | _ => None
     end).

Definition run_command (name : str) (args : list str) (cwd : Path) (timeout : Z) : M StepResult :=
  run_command_env name args cwd timeout None.

(** ** Response envelope *)

Definition step_json (s : StepResult) : JSON :=
  JObj [(py "name", JStr (name s)); (py "ok", JBool (ok s));
        (py "exit_code", opt_json (exit_code s));
        (py "duration_ms", JInt (duration_ms s)); (py "tail", JStr (tail s))].

Definition build_response (stack : str) (steps : list StepResult) (started_at : str) : M Response :=
  finished_at <- act datetime_now ;;
  let all_ok := forallb ok steps in
  let content :=
    JObj [(py "ok", JBool all_ok); (py "stack", JStr stack);
          (py "steps", JArr (map step_json steps));
          (py "started_at", JStr started_at); (py "finished_at", JStr finished_at)] in
  let code := if all_ok then HTTP_200_OK else HTTP_500_INTERNAL_SERVER_ERROR in
  ret (JSONResponse code content).

(** ** The deployment sequence *)

(** [steps[-1]["ok"]] *)
Definition last_ok (steps : list StepResult) : bool :=
  match last steps with Some s => ok s | None => false end.

(** [[line.strip() for line in tail.splitlines() if line.strip()]] *)
Definition running_services (tail : str) : list str :=
  map strip (filter (fun line => strip line <> []) (splitlines tail)).

Definition perform_deploy (stack : str) : M Response :=
  validate_stack_name stack ;;;
  stack_path <- get_stack_path stack ;;
  docker_env <- get_docker_env stack_path ;;
  started_at <- act datetime_now ;;
  log_event [(py "event", JStr (py "deploy_start")); (py "stack", JStr stack);
             (py "docker_config",
              match docker_env !! py "DOCKER_CONFIG" with Some d => JStr d | None => JNull end)] ;;;
  status_result <-
    run_command_env (py "status")
      [py "docker"; py "compose"; py "ps"; py "--status=running"; py "--services"]
      stack_path (status_timeout settings) (Some docker_env) ;;
  let services := running_services (tail status_result) in
  let status_result :=
    if ok status_result && bool_decide (services = []) then
      {| name := name status_result; ok := false; exit_code := exit_code status_result;
         duration_ms := duration_ms status_result;
         tail := tail status_result ++ 10 :: py "No running services found; aborting deploy." |}
    else status_result in
  let steps := [status_result] in
  if negb (last_ok steps) then
    log_event [(py "event", JStr (py "deploy_done")); (py "stack", JStr stack);
               (py "ok", JBool false)] ;;;
    build_response stack steps started_at
  else
    config_result <-
      run_command_env (py "config") [py "docker"; py "compose"; py "config"]
        stack_path (config_timeout settings) (Some docker_env) ;;
    let steps := steps ++ [config_result] in
    steps <-
      (if last_ok steps then
         pull_result <-
           run_command_env (py "pull") [py "docker"; py "compose"; py "pull"]
             stack_path (pull_timeout settings) (Some docker_env) ;;
         ret (steps ++ [pull_result])
       else ret steps) ;;
    steps <-
      (if last_ok steps then
         up_result <-
           run_command_env (py "up")
             [py "docker"; py "compose"; py "up"; py "-d"; py "--remove-orphans"]
             stack_path (up_timeout settings) (Some docker_env) ;;
         ret (steps ++ [up_result])
       else ret steps) ;;
    log_event [(py "event", JStr (py "deploy_done")); (py "stack", JStr stack);
               (py "ok", JBool (forallb ok steps))] ;;;
    build_response stack steps started_at.

(** ** Request handlers *)

Definition health : M Response :=
  ret (JSONResponse HTTP_200_OK (JObj [(py "status", JStr (py "ok"))])).

(** [str.encode()]: UTF-8; surrogates cannot be encoded. *)
Definition utf8_char (c : N) : option (list N) :=
  if c <? 128 then Some [c]
  else if c <? 2048 then Some [192 + c / 64; 128 + c mod 64]
  else if c <? 65536 then
    if in_range 55296 57343 c then None
    else Some [224 + c / 4096; 128 + (c / 64) mod 64; 128 + c mod 64]
  else if c <? 1114112 then
    Some [240 + c / 262144; 128 + (c / 4096) mod 64; 128 + (c / 64) mod 64; 128 + c mod 64]
  else None.

Fixpoint encode (s : str) : result bytes :=
  match s with
  | [] => Return []
  | c :: s' =>
      match utf8_char c, encode s' with
      | Some bs, Return rest => Return (map (fun n => default x00 (Byte.of_N n)) bs ++ rest)
      | None, _ => Raise (UnicodeError (py "surrogates not allowed"))
      | _, Raise e => Raise e
      end
  end.

Definition deploy_stack (stack : str) (request : Request) : M Response :=
  let body := body request in
  raw_for_signature <- (match body with [] => lift (encode stack) | _ => ret body end) ;;
  verify_signature (default [] (x_signature request)) raw_for_signature ;;;
  perform_deploy stack.

(** [str(stack)] of a parsed JSON value. *)
Definition str_of_json (v : JSON) : str :=
  match v with
  | JStr s => s
  | JInt z => str_of_Z z
  | JBool true => py "True"
  | JBool false => py "False"
  | JNull => py "None"
  | _ => py_repr v
  end.

Definition deploy_body (request : Request) : M Response :=
  let body := body request in
  verify_signature (default [] (x_signature request)) body ;;;
  payload <-
    try_except
      (text <- lift (bytes_decode body) ;;
       lift (json_loads (match text with [] => py "{}" | _ => text end)))
      (fun e => match e with
       | JSONDecodeError _ =>
           Some (raise (HTTPException HTTP_400_BAD_REQUEST (py "invalid JSON payload")))
       | _ => None
       end) ;;
  stack <-
    match payload with
    | JObj fields => ret (dict_get fields (py "stack"))
    | _ => raise (AttributeError (py "object has no attribute 'get'"))
    end ;;
  if negb (truthy stack) then
    raise (HTTPException HTTP_400_BAD_REQUEST (py "stack is required"))
  else perform_deploy (str_of_json stack).

Definition http_exception_handler (status : Z) (detail : str) : M Response :=
  ret (JSONResponse status (JObj [(py "ok", JBool false); (py "detail", JStr detail)])).

Definition unhandled_exception_handler (exc : exn) : M Response :=
  log_event [(py "event", JStr (py "error")); (py "error", JStr (exn_str exc))] ;;;
  ret (JSONResponse HTTP_500_INTERNAL_SERVER_ERROR
         (JObj [(py "ok", JBool false); (py "detail", JStr (py "internal server error"))])).

(** ** The application

    The route table, the handler for [HTTPException] around the routes, the
    rate-limiting middleware around that, and the handler for any other
    exception outermost. *)

Definition endpoint (request : Request) : M Response :=
  match route request with
  | Health => health
  | DeployStack stack => deploy_stack stack request
  | DeployBody => deploy_body request
  end.

Definition routes (request : Request) : M Response :=
  try_except (endpoint request)
    (fun e => match e with
     | HTTPException status detail => Some (http_exception_handler status detail)
     | _ => None
     end).

Definition app (request : Request) : M Response :=
  try_except (rate_limiter request routes)
    (fun e => Some (unhandled_exception_handler e)).

End Deployer.

(** ** A small concrete world

    A scripted environment on which the statements below are exercised: the
    clock and the child processes answer from lists, the file system is a
    list of directories, files and symbolic links. *)

Record DemoWorld := {
  clock : list Q;
  procs : list (result CompletedProcess);
  dirs : list Path;
  files : list Path;
  links : list (Path * Path)
}.

Definition demo_time (w : DemoWorld) : Q * DemoWorld :=
  match clock w with
  | t :: rest =>
      (t, {| clock := rest; procs := procs w; dirs := dirs w; files := files w;
             links := links w |})
  | [] => (0%Q, w)
  end.

Definition demo_run (args : list str) (cwd : Path) (timeout : Z) (env : gmap str str)
    (w : DemoWorld) : result CompletedProcess * DemoWorld :=
  match procs w with
  | r :: rest =>
      (r, {| clock := clock w; procs := rest; dirs := dirs w; files := files w;
             links := links w |})
  | [] => (Raise (OtherError (py "No such file or directory: 'docker'")), w)
  end.

Fixpoint demo_link (l : list (Path * Path)) (p : Path) : option Path :=
  match l with
  | [] => None
  | (src, dst) :: rest => if bool_decide (src = p) then Some dst else demo_link rest p
  end.

Definition demo_resolve (w : DemoWorld) (p : Path) : result Path :=
  Return (default p (demo_link (links w) p)).

Definition demo_exists (w : DemoWorld) (p : Path) : bool :=
  bool_decide (p ∈ dirs w ++ files w).

Definition demo_resolve_strict (w : DemoWorld) (p : Path) : result Path :=
  let q := default p (demo_link (links w) p) in
  if demo_exists w q then Return q
  else Raise (FileNotFoundError (py "No such file or directory")).

Definition demo_decode (bs : bytes) : result str :=
  if forallb (fun b => Byte.to_N b <? 128) bs then Return (map Byte.to_N bs)
  else Raise (UnicodeError (py "invalid start byte")).

(** The text of a JSON object whose field [stack] is the string [web]. *)
Definition demo_body_text : str :=
  py "{" ++ [34] ++ py "stack" ++ [34] ++ py ": " ++ [34] ++ py "web" ++ [34] ++ py "}".

(** A reader for the handful of JSON documents the examples send. *)
Definition demo_loads (s : str) : result JSON :=
  if bool_decide (s = py "{}") then Return (JObj [])
  else if bool_decide (s = py "[]") then Return (JArr [])
  else if bool_decide (s = py "null") then Return JNull
  else if bool_decide (s = py "42") then Return (JInt 42)
  else if bool_decide (s = demo_body_text)
       then Return (JObj [(py "stack", JStr (py "web"))])
  else Raise (JSONDecodeError (py "Expecting value")).

Definition demo_now : str := py "2024-05-01T12:00:00+00:00".

Definition demo_env (cfg : Settings) : Env := {|
  World := DemoWorld;
  settings := cfg;
  time_time := demo_time;
  datetime_now := fun w => (demo_now, w);
  os_environ := fun _ => ∅;
  subprocess_run := demo_run;
  path_resolve := demo_resolve;
  path_resolve_strict := demo_resolve_strict;
  path_exists := demo_exists;
  path_is_dir := fun w p => bool_decide (p ∈ dirs w);
  bytes_decode := demo_decode;
  json_loads := demo_loads;
  py_repr := fun _ => py "[...]"
|}.

Definition demo_settings (quota : Z) : Settings := {|
  deploy_secret := list_byte_of_string "s3cr3t";
  stacks_root := [py "/"; py "stacks"];
  rate_limit_per_min := quota;
  status_timeout := 60;
  config_timeout := 120;
  pull_timeout := 600;
  up_timeout := 600
|}.

Definition demo : Env := demo_env (demo_settings 3).

Definition demo_world (ticks : list Q) (answers : list (result CompletedProcess)) : DemoWorld := {|
  clock := ticks;
  procs := answers;
  dirs := [[py "/"; py "stacks"]; [py "/"; py "stacks"; py "web"]; [py "/"; py "etc"]];
  files := [[py "/"; py "stacks"; py "web"; py "docker-compose.yml"]];
  links := [([py "/"; py "stacks"; py "evil"], [py "/"; py "etc"])]
|}.

Definition demo_state (ticks : list Q) (answers : list (result CompletedProcess))
    (buckets : gmap str (list Q)) : @AppState demo := {|
  world := demo_world ticks answers : @World demo;
  request_buckets := buckets;
  events := [];
  executed := []
|}.

(** A child process that exits with [rc] after printing [out]. *)
Definition exits (rc : Z) (out : str) : result CompletedProcess :=
  Return {| returncode := rc; stdout := out; stderr := [] |}.

Definition demo_client : str := py "10.0.0.7".

Definition demo_request (r : Route) (signature : option str) (payload : bytes) : Request := {|
  client := Some demo_client;
  route := r;
  x_signature := signature;
  body := payload
|}.

(** An output with a keyed line in the middle. *)
Definition demo_config_output : str :=
  py "name: web" ++ [10] ++ py "  DB_PASSWORD: supersecret123" ++ [10] ++ py "done".

(** The call the runner makes for the status step of the stack [web]. *)
Definition demo_status_call (outcome : result CompletedProcess) : Exec := {|
  ex_step := py "status";
  ex_args := [py "docker"; py "compose"; py "ps"; py "--status=running"; py "--services"];
  ex_cwd := [py "/"; py "stacks"; py "web"];
  ex_timeout := 60;
  ex_env := ∅;
  ex_outcome := outcome
|}.

Definition demo_config_call (outcome : result CompletedProcess) : Exec := {|
  ex_step := py "config";
  ex_args := [py "docker"; py "compose"; py "config"];
  ex_cwd := [py "/"; py "stacks"; py "web"];
  ex_timeout := 120;
  ex_env := ∅;
  ex_outcome := outcome
|}.

(** ** Notions used in the statements *)

(** The last character of [x], or [prev] when [x] is empty: the character
    before the position reached after reading [x]. *)
Definition last_or (prev : option N) (x : str) : option N :=
  match last x with Some c => Some c | None => prev end.

(** [s] is empty or starts with a character outside the class [p]. *)
Definition stops (p : N -> bool) (s : str) : Prop :=
  match s with [] => True | c :: _ => p c = false end.

(** The matcher state after reading the first [j] characters of [x] in the
    subject [x ++ s]. *)
Definition split_state (prev : option N) (g : list (nat * str)) (x s : str) (j : nat) : mstate :=
  MState (last_or prev (take j x)) (drop j x ++ s) g.

(** A character of the class [[^\s:=]]. *)
Definition token_char (c : N) : bool := negb (isspace c || is_sep c).

Definition KEYWORDS : list str :=
  [py "secret"; py "token"; py "password"; py "passwd"; py "pwd"; py "key"].

Definition is_lower_letter (c : N) : bool := in_range 97 122 c.

(** The pattern after its first group: [\s*[:=]\s*([^\n\r]+)]. *)
Definition after_key : regex :=
  Seq (Star isspace) (Seq (Cls is_sep) (Seq (Star isspace)
  (Group 2 (Seq (Cls (fun c => negb (is_nl c))) (Star (fun c => negb (is_nl c))))))).

(** The body of the first group. *)
Definition key_group : regex :=
  Seq (Star (fun c => negb (isspace c || is_sep c)))
      (Seq keywords (LazyStar (fun c => negb (is_sep c)))).

(** The continuation that closes group 1 opened in state [st0]. *)
Definition close1 (st0 : mstate) (k : cont) : cont := fun st' =>
  let n := (length (m_rest st0) - length (m_rest st'))%nat in
  k (MState (m_prev st') (m_rest st') ((1%nat, take n (m_rest st0)) :: m_groups st')).

(** The match of a line [key sep value] followed by [post]. *)
Definition line_result (key value post : str) (sep : N) : mstate :=
  MState (last_or (Some sep) value) post [(2%nat, value); (1%nat, key)].

(** What remains to match after the leading token characters of the key. *)
Definition after_token (key tailrest : str) (pv0 : option N) : cont :=
  rmatch (Seq keywords (LazyStar (fun c => negb (is_sep c))))
    (close1 (MState pv0 (key ++ tailrest) []) (rmatch after_key Some)).

(** No match of the pattern starts at any position of [pre] when [pre] is
    followed by [rest] and preceded by [prev]. *)
Definition unmatched_before (prev : option N) (pre rest : str) : bool :=
  forallb (fun j =>
             match match_at SENSITIVE_RE (last_or prev (take j pre)) (drop j pre ++ rest) with
             | None => true
             | Some _ => false
             end)
          (seq 0 (length pre)).

(** [line] is [key], a separator, optional white space and [value], where
    [key] is a token that contains one of the six words. *)
Definition keyed_line (key value line : str) : Prop :=
  exists a m b sep ws,
    key = a ++ m ++ b /\
    Forall (fun c => token_char c = true) a /\ In (map lower_fold m) KEYWORDS /\
    Forall (fun c => token_char c = true) b /\
    is_sep sep = true /\ Forall (fun c => isspace c = true) ws /\
    Forall (fun c => is_nl c = false) value /\
    match value with [] => False | c :: _ => isspace c = false end /\
    line = key ++ sep :: ws ++ value.

(** [child] is [root] followed by at least one more part. *)
Definition strict_descendant (root child : Path) : Prop :=
  exists rest, rest <> [] /\ child = root ++ rest.

(** The environment handed to the child process (lines 160-162). *)
Definition child_env `{Env} (env : option (gmap str str)) (w : World) : gmap str str :=
  match env with
  | Some e => if bool_decide (e = ∅) then os_environ w else e ∪ os_environ w
  | None => os_environ w
  end.

(** The content of a deployment response. *)
Definition envelope (all_ok : bool) (stack : str) (steps : list StepResult)
    (started_at finished_at : str) : JSON :=
  JObj [(py "ok", JBool all_ok); (py "stack", JStr stack);
        (py "steps", JArr (map step_json steps));
        (py "started_at", JStr started_at); (py "finished_at", JStr finished_at)].

(** The content of an error response as the design document gives it. *)
Definition error_body (detail : str) : JSON :=
  JObj [(py "ok", JBool false); (py "detail", JStr detail)].

Definition STEP_NAMES : list str := [py "status"; py "config"; py "pull"; py "up"].

(** The message appended to the status step of an idle stack. *)
Definition NO_SERVICES : str := 10 :: py "No running services found; aborting deploy.".

(** The step result the runner builds from a completed process, and the one
    it builds on a timeout. *)
Definition completed_step (name : str) (proc : CompletedProcess) (d : Z) : StepResult :=
  {| name := name; ok := (returncode proc =? 0)%Z; exit_code := Some (returncode proc);
     duration_ms := d;
     tail := last_chars TAIL_LIMIT (sanitize_output (stdout proc ++ stderr proc)) |}.

Definition timeout_step (name : str) (timeout : Z) (exc : str) (d : Z) : StepResult :=
  {| name := name; ok := false; exit_code := None; duration_ms := d;
     tail := py "timeout after " ++ str_of_Z timeout ++ py "s: " ++ exc |}.

(** [mark_idle] is what [perform_deploy] does to the status result. *)
Definition mark_idle (s : StepResult) : StepResult :=
  if ok s && bool_decide (running_services (tail s) = []) then
    {| name := name s; ok := false; exit_code := exit_code s;
       duration_ms := duration_ms s; tail := tail s ++ NO_SERVICES |}
  else s.

Section Notions.
Context {E : Env}.

(** [m] runs no external command and leaves the rate limiter alone. *)
Definition quiet {A} (m : M A) : Prop :=
  forall st r st', m st = (r, st') ->
    executed st' = executed st /\ request_buckets st' = request_buckets st.

(** [m] changes nothing at all. *)
Definition pure_read {A} (m : M A) : Prop :=
  forall st r st', m st = (r, st') -> st' = st.

(** The step result [res] is what the runner makes of the call [x]. *)
Definition step_of (x : Exec) (res : result StepResult) : Prop :=
  match ex_outcome x with
  | Return proc => exists d, res = Return (completed_step (ex_step x) proc d)
  | Raise (TimeoutExpired exc) =>
      exists d, res = Return (timeout_step (ex_step x) (ex_timeout x) exc d)
  | Raise e => res = Raise e
  end.

(** Going from [st] to [st'] ran exactly the call [x]. *)
Definition ran (st st' : AppState) (x : Exec) : Prop :=
  executed st' = executed st ++ [x] /\ request_buckets st' = request_buckets st.

(** What [perform_deploy] keeps of a runner result: the status step is
    marked failed when no service runs, the others are kept as they are. *)
Definition kept (step : str) (r : StepResult) : StepResult :=
  if bool_decide (step = py "status") then mark_idle r else r.

(** The step result [s] is what the sequence keeps of the call [x]. *)
Definition produces (x : Exec) (s : StepResult) : Prop :=
  exists r, step_of x (Return r) /\ s = kept (ex_step x) r.

(** A fail-fast run of the steps named [todo]: the calls made, the step
    results kept, and the exception that ended the run, if any. *)
Inductive chain : list str -> list Exec -> list StepResult -> option exn -> Prop :=
| chain_done : chain [] [] [] None
| chain_raise n todo x e :
    ex_step x = n -> step_of x (Raise e) -> chain (n :: todo) [x] [] (Some e)
| chain_stop n todo x s :
    ex_step x = n -> produces x s -> ok s = false -> chain (n :: todo) [x] [s] None
| chain_next n todo x s xs ss oe :
    ex_step x = n -> produces x s -> ok s = true -> chain todo xs ss oe ->
    chain (n :: todo) (x :: xs) (s :: ss) oe.

(** The answer of [perform_deploy] after a run that kept [steps]. *)
Definition deploy_answer (stack : str) (steps : list StepResult) (oe : option exn)
    (res : result Response) : Prop :=
  match oe with
  | Some e => res = Raise e
  | None =>
      exists started_at finished_at,
        res = Return (JSONResponse
                (if forallb ok steps then HTTP_200_OK else HTTP_500_INTERNAL_SERVER_ERROR)
                (envelope (forallb ok steps) stack steps started_at finished_at))
  end.

(** The client key the rate limiter uses for a request. *)
Definition client_key (request : Request) : str :=
  match client request with Some host => host | None => py "unknown" end.

(** The bucket of [request]'s client after the eviction done at time [now]. *)
Definition live_bucket (st : AppState) (request : Request) (now : Q) : list Q :=
  evict (now - RATE_LIMIT_WINDOW_SECONDS)%Q
        (default [] (request_buckets st !! client_key request)).

(** The state after the rate limiter has read the clock and stored [bucket]
    for the client. *)
Definition with_bucket (st : AppState) (w : World) (request : Request) (bucket : list Q)
  : AppState :=
  {| world := w;
     request_buckets := <[client_key request := bucket]> (request_buckets st);
     events := events st; executed := executed st |}.

(** The response of the rate limiter to a request over quota. *)
Definition too_many_requests : Response :=
  JSONResponse HTTP_429_TOO_MANY_REQUESTS
    (JObj [(py "detail", JStr (py "rate limit exceeded"))]).

End Notions.

(** ** Further notions *)

Section MoreNotions.
Context {E : Env}.

(** Whatever [m] does, the commands it runs all satisfy [P]. *)
Definition runs_only {A} (P : Exec -> Prop) (m : M A) : Prop :=
  forall st r st', m st = (r, st') ->
    exists new, executed st' = executed st ++ new /\ Forall P new.

(** The steps of a deployment: name, argument vector and timeout. *)
Definition STEP_TABLE : list (str * list str * Z) :=
  [(py "status", [py "docker"; py "compose"; py "ps"; py "--status=running"; py "--services"],
    status_timeout settings);
   (py "config", [py "docker"; py "compose"; py "config"], config_timeout settings);
   (py "pull", [py "docker"; py "compose"; py "pull"], pull_timeout settings);
   (py "up", [py "docker"; py "compose"; py "up"; py "-d"; py "--remove-orphans"],
    up_timeout settings)].

(** The call [x] is one of the table, made in the directory [cwd]. *)
Definition table_call (cwd : Path) (x : Exec) : Prop :=
  In (ex_step x, ex_args x, ex_timeout x) STEP_TABLE /\ ex_cwd x = cwd.

(** The command of the call [x] completed with exit code 0. *)
Definition exited_zero (x : Exec) : Prop :=
  exists proc, ex_outcome x = Return proc /\ returncode proc = 0%Z.

(** If [x] is the status call, the tail of its output lists a service. *)
Definition lists_a_service (x : Exec) : Prop :=
  ex_step x = py "status" ->
  forall proc, ex_outcome x = Return proc ->
    running_services (last_chars TAIL_LIMIT (sanitize_output (stdout proc ++ stderr proc)))
    <> [].

(** No bucket of the rate limiter holds more than [quota] timestamps. *)
Definition buckets_within (quota : Z) (st : AppState) : Prop :=
  forall c b, request_buckets st !! c = Some b -> (Z.of_nat (length b) <= quota)%Z.

(** [m] leaves the buckets of the rate limiter as they are. *)
Definition keeps_buckets {A} (m : M A) : Prop :=
  forall st r st', m st = (r, st') -> request_buckets st' = request_buckets st.

(** Every bucket of the rate limiter is in time order. *)
Definition buckets_sorted (st : AppState) : Prop :=
  forall c b, request_buckets st !! c = Some b -> StronglySorted Qle b.

(** A successful continuation [k] has met a separator in what it was given
    to read. *)
Definition needs_sep (k : cont) : Prop :=
  forall st m, k st = Some m -> exists c, In c (m_rest st) /\ is_sep c = true.



(** The step of the call [x] passed: its command exited with code 0 and,
    for the status step, listed a service.  This is when the [ok] of the
    step is true. *)
Definition step_passed (x : Exec) : Prop := exited_zero x /\ lists_a_service x.






(** The call [x] was made by the command runner, which gave [res]: the
    runner was called with the step, arguments, directory and timeout of [x]
    in some state, recorded [x] and returned [res]. *)
Definition made_by_runner (x : Exec) (res : result StepResult) : Prop :=
  exists env sa sb,
    run_command_env (ex_step x) (ex_args x) (ex_cwd x) (ex_timeout x) env sa = (res, sb) /\
    executed sb = executed sa ++ [x].

(** A run of the steps [todo] that stops at the first failure, each step
    being what the runner returned, with the correction of the status step. *)
Inductive chain_run : list str -> list Exec -> list StepResult -> option exn -> Prop :=
| chain_run_done : chain_run [] [] [] None
| chain_run_raise n todo x e :
    ex_step x = n -> made_by_runner x (Raise e) -> chain_run (n :: todo) [x] [] (Some e)
| chain_run_stop n todo x r :
    ex_step x = n -> made_by_runner x (Return r) -> ok (kept n r) = false ->
    chain_run (n :: todo) [x] [kept n r] None
| chain_run_next n todo x r xs ss oe :
    ex_step x = n -> made_by_runner x (Return r) -> ok (kept n r) = true ->
    chain_run todo xs ss oe ->
    chain_run (n :: todo) (x :: xs) (kept n r :: ss) oe.

End MoreNotions.

(** * Properties *)

(** ** The matcher on runs of one character class *)

Lemma last_or_nil prev : last_or prev [] = prev.
Proof. reflexivity. Qed.

Lemma last_or_cons prev c x : last_or prev (c :: x) = last_or (Some c) x.
Proof.
  unfold last_or. destruct x as [|d x]; [reflexivity|].
  change (last (c :: d :: x)) with (last (d :: x)).
  destruct (last (d :: x)) eqn:E; [reflexivity|].
  apply last_None in E. discriminate.
Qed.

Lemma star_greedy_all p k prev g x s R :
  Forall (fun c => p c = true) x -> stops p s ->
  k (MState (last_or prev x) s g) = Some R ->
  star_greedy p k prev g (x ++ s) = Some R.
Proof.
  intros Hx Hs. revert prev. induction Hx as [|c x Hc Hx IH]; intros prev Hk.
  - simpl in *. destruct s as [|c s]; simpl; [exact Hk|]. simpl in Hs. rewrite Hs. exact Hk.
  - simpl. rewrite Hc. rewrite last_or_cons in Hk. rewrite (IH _ Hk). reflexivity.
Qed.

Lemma split_state_cons prev g c x s j :
  split_state prev g (c :: x) s (S j) = split_state (Some c) g x s j.
Proof. unfold split_state. simpl. rewrite last_or_cons. reflexivity. Qed.

Lemma star_greedy_some p k prev g x s m :
  Forall (fun c => p c = true) x -> stops p s ->
  star_greedy p k prev g (x ++ s) = Some m ->
  exists j, (j <= length x)%nat /\ k (split_state prev g x s j) = Some m.
Proof.
  intros Hx Hs. revert prev. induction Hx as [|c x Hc Hx IH]; intros prev H.
  - exists 0%nat. split; [simpl; lia|]. unfold split_state. simpl in *.
    destruct s as [|c s]; simpl in *; [exact H|]. rewrite Hs in H. exact H.
  - simpl in H. rewrite Hc in H.
    destruct (star_greedy p k (Some c) g (x ++ s)) as [m'|] eqn:E.
    + inversion H; subst m'. destruct (IH _ E) as [j [Hj Hk]].
      exists (S j). split; [simpl; lia|]. rewrite split_state_cons. exact Hk.
    + exists 0%nat. split; [simpl; lia|]. exact H.
Qed.

Lemma star_greedy_none p k prev g x s :
  Forall (fun c => p c = true) x -> stops p s ->
  star_greedy p k prev g (x ++ s) = None ->
  forall j, (j <= length x)%nat -> k (split_state prev g x s j) = None.
Proof.
  intros Hx Hs. revert prev. induction Hx as [|c x Hc Hx IH]; intros prev H j Hj.
  - simpl in Hj. assert (j = 0%nat) by lia. subst j. unfold split_state. simpl in *.
    destruct s as [|c s]; simpl in *; [exact H|]. rewrite Hs in H. exact H.
  - simpl in H. rewrite Hc in H.
    destruct (star_greedy p k (Some c) g (x ++ s)) as [m'|] eqn:E; [discriminate|].
    destruct j as [|j]; [exact H|].
    rewrite split_state_cons. apply (IH _ E). simpl in Hj. lia.
Qed.

Lemma star_greedy_unique p k prev g x s R :
  Forall (fun c => p c = true) x -> stops p s ->
  (forall j, (j <= length x)%nat ->
     k (split_state prev g x s j) = None \/ k (split_state prev g x s j) = Some R) ->
  (exists j, (j <= length x)%nat /\ k (split_state prev g x s j) = Some R) ->
  star_greedy p k prev g (x ++ s) = Some R.
Proof.
  intros Hx Hs Hall [j [Hj Hk]].
  destruct (star_greedy p k prev g (x ++ s)) as [m|] eqn:E.
  - destruct (star_greedy_some _ _ _ _ _ _ _ Hx Hs E) as [i [Hi Hki]].
    destruct (Hall i Hi) as [H|H]; congruence.
  - rewrite (star_greedy_none _ _ _ _ _ _ Hx Hs E j Hj) in Hk. discriminate.
Qed.

Lemma star_lazy_first p k prev g x s R :
  Forall (fun c => p c = true) x ->
  (forall j, (j < length x)%nat -> k (split_state prev g x s j) = None) ->
  k (split_state prev g x s (length x)) = Some R ->
  star_lazy p k prev g (x ++ s) = Some R.
Proof.
  intros Hx. revert prev. induction Hx as [|c x Hc Hx IH]; intros prev Hnone Hk.
  - unfold split_state, last_or in Hk. simpl in Hk. destruct s; simpl; rewrite Hk; reflexivity.
  - simpl. pose proof (Hnone 0%nat ltac:(simpl; lia)) as H0.
    unfold split_state, last_or in H0. simpl in H0. rewrite H0. rewrite Hc.
    apply IH.
    + intros j Hj. rewrite <- (split_state_cons prev). apply Hnone. simpl. lia.
    + rewrite <- (split_state_cons prev). exact Hk.
Qed.

Lemma lit_ci_app pat m prev s :
  map lower_fold m = pat ->
  lit_ci pat prev (m ++ s) = Some (last_or prev m, s).
Proof.
  intros <-. revert prev. induction m as [|c m IH]; intros prev; simpl; [reflexivity|].
  rewrite N.eqb_refl. rewrite IH. rewrite last_or_cons. reflexivity.
Qed.

Lemma lit_ci_inv pat prev s prev' s' :
  lit_ci pat prev s = Some (prev', s') ->
  exists m, s = m ++ s' /\ map lower_fold m = pat /\ prev' = last_or prev m.
Proof.
  revert prev s. induction pat as [|a pat IH]; intros prev s H; simpl in H.
  - inversion H; subst. exists []. auto.
  - destruct s as [|c s]; [discriminate|].
    destruct (lower_fold c =? a) eqn:E; [|discriminate].
    apply N.eqb_eq in E. destruct (IH _ _ H) as [m [-> [Hm ->]]].
    exists (c :: m). simpl. rewrite last_or_cons. subst. auto.
Qed.

Lemma keyword_letters kw : In kw KEYWORDS -> Forall (fun c => is_lower_letter c = true) kw.
Proof.
  unfold KEYWORDS. simpl. intros H.
  repeat (destruct H as [<-|H]; [repeat constructor|]). destruct H.
Qed.

Lemma isspace_range c :
  isspace c = true ->
  (9 <= c <= 13) \/ (28 <= c <= 32) \/ c = 133 \/ c = 160 \/ c = 5760 \/ (8192 <= c <= 8287) \/ c = 12288.
Proof.
  unfold isspace, in_range. rewrite !orb_true_iff, !andb_true_iff, !N.leb_le, !N.eqb_eq. lia.
Qed.

Lemma is_sep_range c : is_sep c = true -> c = 58 \/ c = 61.
Proof. unfold is_sep. rewrite orb_true_iff, !N.eqb_eq. tauto. Qed.

Lemma lower_fold_letter c :
  is_lower_letter (lower_fold c) = true ->
  (65 <= c <= 90) \/ (97 <= c <= 122) \/ c = 8490 \/ c = 383.
Proof.
  unfold is_lower_letter, lower_fold, in_range.
  destruct (65 <=? c) eqn:E1; destruct (c <=? 90) eqn:E2; simpl;
  destruct (c =? 8490) eqn:E3; destruct (c =? 383) eqn:E4;
  rewrite ?andb_true_iff, ?N.leb_le, ?N.eqb_eq in *;
  rewrite ?N.leb_le, ?N.leb_gt, ?N.eqb_eq, ?N.eqb_neq in *; lia.
Qed.

Lemma letter_not_space c : is_lower_letter (lower_fold c) = true -> token_char c = true.
Proof.
  intros H. apply lower_fold_letter in H. unfold token_char.
  destruct (isspace c) eqn:Es.
  - apply isspace_range in Es. lia.
  - destruct (is_sep c) eqn:Ep; [|reflexivity]. apply is_sep_range in Ep. lia.
Qed.

Lemma SENSITIVE_RE_eq : SENSITIVE_RE = Seq Bol (Seq (Star isspace) (Seq (Group 1 key_group) after_key)).
Proof. reflexivity. Qed.

Lemma token_char_not_space c : token_char c = true -> isspace c = false.
Proof. unfold token_char. destruct (isspace c); [discriminate|reflexivity]. Qed.
Lemma token_char_not_sep c : token_char c = true -> is_sep c = false.
Proof. unfold token_char. destruct (isspace c), (is_sep c); try discriminate; reflexivity. Qed.
Lemma sep_not_space c : is_sep c = true -> isspace c = false.
Proof.
  intros H. apply is_sep_range in H. destruct (isspace c) eqn:E; [|reflexivity].
  apply isspace_range in E. lia.
Qed.
Lemma nl_is_space c : is_nl c = true -> isspace c = true.
Proof.
  unfold is_nl. rewrite orb_true_iff, !N.eqb_eq. intros [->| ->]; reflexivity.
Qed.

Lemma rmatch_lit_some pat K st r :
  rmatch (Lit pat) K st = Some r ->
  exists mm s', m_rest st = mm ++ s' /\ map lower_fold mm = pat /\
    K (MState (last_or (m_prev st) mm) s' (m_groups st)) = Some r.
Proof.
  cbn [rmatch]. destruct (lit_ci pat (m_prev st) (m_rest st)) as [[p s']|] eqn:E; [|discriminate].
  intros H. apply lit_ci_inv in E. destruct E as [mm [E1 [E2 ->]]]. eauto.
Qed.

Lemma rmatch_lit_none pat K st :
  rmatch (Lit pat) K st = None ->
  forall mm s', m_rest st = mm ++ s' -> map lower_fold mm = pat ->
    K (MState (last_or (m_prev st) mm) s' (m_groups st)) = None.
Proof.
  cbn [rmatch]. intros H mm s' E1 E2. rewrite E1 in H.
  rewrite (lit_ci_app _ _ _ _ E2) in H. exact H.
Qed.

Lemma rmatch_alt_some r1 r2 K st r :
  rmatch (Alt r1 r2) K st = Some r -> rmatch r1 K st = Some r \/ rmatch r2 K st = Some r.
Proof. cbn [rmatch]. destruct (rmatch r1 K st); auto. Qed.

Lemma rmatch_alt_none r1 r2 K st :
  rmatch (Alt r1 r2) K st = None -> rmatch r1 K st = None /\ rmatch r2 K st = None.
Proof. cbn [rmatch]. destruct (rmatch r1 K st); [discriminate|auto]. Qed.

Lemma rmatch_keywords_some K st r :
  rmatch keywords K st = Some r ->
  exists mm s', In (map lower_fold mm) KEYWORDS /\ m_rest st = mm ++ s' /\
    K (MState (last_or (m_prev st) mm) s' (m_groups st)) = Some r.
Proof.
  unfold keywords. intros H.
  repeat (apply rmatch_alt_some in H; destruct H as [H|H]);
    apply rmatch_lit_some in H; destruct H as [mm [s' [E1 [E2 E3]]]];
    exists mm, s'; rewrite E2; (split; [unfold KEYWORDS; simpl; tauto | auto]).
Qed.

Lemma rmatch_keywords_none K st :
  rmatch keywords K st = None ->
  forall mm s', In (map lower_fold mm) KEYWORDS -> m_rest st = mm ++ s' ->
    K (MState (last_or (m_prev st) mm) s' (m_groups st)) = None.
Proof.
  unfold keywords. intros H mm s' Hin E.
  repeat (apply rmatch_alt_none in H; destruct H as [? H]).
  unfold KEYWORDS in Hin. simpl in Hin.
  repeat (destruct Hin as [Hin|Hin];
    [match goal with
     | H' : rmatch (Lit _) K st = None |- _ =>
         apply (rmatch_lit_none _ _ _ H' mm s' E); symmetry; exact Hin
     end|]).
  destruct Hin.
Qed.

Lemma sub_loop_skip r repl x prev post :
  sub_loop r repl (length x) prev (x ++ post) = sub_loop r repl 0 (last_or prev x) post.
Proof.
  revert prev. induction x as [|c x IH]; intros prev; [reflexivity|].
  simpl. rewrite IH. rewrite last_or_cons. reflexivity.
Qed.

Lemma unmatched_before_cons prev c pre rest :
  unmatched_before prev (c :: pre) rest = true ->
  match_at SENSITIVE_RE prev (c :: pre ++ rest) = None /\
  unmatched_before (Some c) pre rest = true.
Proof.
  unfold unmatched_before. cbn [length seq forallb]. rewrite andb_true_iff.
  intros [H0 Hrest]. split.
  - change (take 0 (c :: pre)) with (@nil N) in H0.
    change (drop 0 (c :: pre) ++ rest) with (c :: pre ++ rest) in H0.
    rewrite last_or_nil in H0.
    destruct (match_at SENSITIVE_RE prev (c :: pre ++ rest)); [discriminate | reflexivity].
  - rewrite <- seq_shift, forallb_forall in Hrest. apply forallb_forall. intros j Hj.
    specialize (Hrest (S j) (in_map S _ _ Hj)). cbn [take drop] in Hrest.
    rewrite last_or_cons in Hrest. exact Hrest.
Qed.

Lemma sanitize_unmatched prev pre rest :
  unmatched_before prev pre rest = true ->
  sanitize_from prev (pre ++ rest) = pre ++ sanitize_from (last_or prev pre) rest.
Proof.
  revert prev. induction pre as [|c pre IH]; intros prev H; [reflexivity|].
  apply unmatched_before_cons in H. destruct H as [H0 H].
  unfold sanitize_from in *. cbn [List.app sub_loop]. rewrite H0.
  rewrite (IH _ H), last_or_cons. reflexivity.
Qed.

Section KeyedLine.
Variables (lead a m b w2 w3 value post : str) (sep : N).
Hypothesis Hlead : Forall (fun c => isspace c = true) lead.
Hypothesis Ha : Forall (fun c => token_char c = true) a.
Hypothesis Hm : In (map lower_fold m) KEYWORDS.
Hypothesis Hb : Forall (fun c => token_char c = true) b.
Hypothesis Hw2 : Forall (fun c => isspace c = true) w2.
Hypothesis Hsep : is_sep sep = true.
Hypothesis Hw3 : Forall (fun c => isspace c = true) w3.
Hypothesis Hvalue : Forall (fun c => is_nl c = false) value.
Hypothesis Hv0 : match value with [] => False | c :: _ => isspace c = false end.
Hypothesis Hpost : match post with [] => True | c :: _ => is_nl c = true end.

Let key := a ++ m ++ b.
Let tailrest := w2 ++ sep :: w3 ++ value ++ post.

Lemma keyword_is_token : Forall (fun c => token_char c = true) m.
Proof.
  apply keyword_letters in Hm. rewrite Forall_map in Hm.
  eapply Forall_impl; [exact Hm|]. intros c Hc. simpl in Hc. apply letter_not_space, Hc.
Qed.

Lemma key_is_token : Forall (fun c => token_char c = true) key.
Proof. unfold key. rewrite !Forall_app. auto using keyword_is_token. Qed.

Lemma tailrest_stops_tok : stops token_char tailrest.
Proof.
  unfold tailrest. destruct w2 as [|c w]; simpl.
  - unfold token_char. rewrite Hsep. destruct (isspace sep); reflexivity.
  - inversion Hw2; subst. unfold token_char. rewrite H1. reflexivity.
Qed.

Lemma after_key_matches pv g :
  rmatch after_key Some (MState pv tailrest g) =
  Some (MState (last_or (Some sep) value) post ((2%nat, value) :: g)).
Proof.
  unfold after_key, tailrest. cbn [rmatch m_prev m_rest m_groups].
  apply star_greedy_all; [exact Hw2 | simpl; apply sep_not_space, Hsep |].
  cbn [m_prev m_rest m_groups]. rewrite Hsep.
  cbn [m_prev m_rest m_groups].
  destruct value as [|v0 vs]; [destruct Hv0|].
  apply star_greedy_all; [exact Hw3 | simpl; exact Hv0 |].
  cbn [m_prev m_rest m_groups].
  change ((v0 :: vs) ++ post) with (v0 :: (vs ++ post)).
  inversion Hvalue as [|? ? Hv0' Hvs]; subst. rewrite Hv0'. cbn [negb].
  apply star_greedy_all.
  - eapply Forall_impl; [exact Hvs|]. intros c Hc. simpl in Hc. rewrite Hc. reflexivity.
  - destruct post as [|c p]; simpl; [exact I|]. rewrite Hpost. reflexivity.
  - cbn [m_prev m_rest m_groups]. f_equal.
    rewrite last_or_cons. f_equal. f_equal. f_equal.
    replace (length (v0 :: vs ++ post) - length post)%nat with (length (v0 :: vs)).
    + change (v0 :: vs ++ post) with ((v0 :: vs) ++ post). apply take_app_length.
    + simpl. rewrite length_app. lia.
Qed.

Lemma after_key_fails_on_token pv g c s :
  token_char c = true -> rmatch after_key Some (MState pv (c :: s) g) = None.
Proof.
  intros Hc. unfold after_key. cbn [rmatch m_prev m_rest m_groups star_greedy].
  rewrite (token_char_not_space _ Hc). cbn [m_prev m_rest m_groups].
  rewrite (token_char_not_sep _ Hc). reflexivity.
Qed.

Lemma lazy_reaches_sep pv0 pv pre b' :
  key = pre ++ b' ->
  star_lazy (fun c => negb (is_sep c))
    (close1 (MState pv0 (key ++ tailrest) []) (rmatch after_key Some)) pv [] (b' ++ tailrest)
  = Some (line_result key value post sep).
Proof.
  intros Hk.
  assert (Hb' : Forall (fun c => token_char c = true) b').
  { pose proof key_is_token as H. rewrite Hk in H. apply Forall_app in H. tauto. }
  apply star_lazy_first.
  - eapply Forall_impl; [exact Hb'|]. intros c Hc. simpl in Hc.
    rewrite (token_char_not_sep _ Hc). reflexivity.
  - intros j Hj. unfold split_state, close1. cbn [m_prev m_rest m_groups].
    destruct (drop j b') as [|c r] eqn:E.
    + apply (f_equal length) in E. rewrite length_drop in E. simpl in E. lia.
    + rewrite <- app_comm_cons. apply after_key_fails_on_token.
      assert (Hin : Forall (fun c => token_char c = true) (drop j b')) by (apply Forall_drop, Hb').
      rewrite E in Hin. inversion Hin; assumption.
  - unfold split_state, close1. cbn [m_prev m_rest m_groups].
    rewrite drop_all. cbn [List.app]. rewrite after_key_matches. unfold line_result.
    do 4 f_equal. rewrite length_app.
    replace (length key + length tailrest - length tailrest)%nat with (length key) by lia.
    f_equal. apply take_app_length.
Qed.

Lemma keyword_inside_key j mm s' :
  In (map lower_fold mm) KEYWORDS ->
  drop j key ++ tailrest = mm ++ s' ->
  exists b', key = (take j key ++ mm) ++ b' /\ s' = b' ++ tailrest.
Proof.
  intros Hin E.
  assert (Hmm : Forall (fun c => token_char c = true) mm).
  { apply keyword_letters in Hin. rewrite Forall_map in Hin.
    eapply Forall_impl; [exact Hin|]. intros c Hc. simpl in Hc. apply letter_not_space, Hc. }
  apply app_eq_inv in E. destruct E as [[k [E1 E2]]|[k [E1 E2]]].
  - exists k. split; [|exact E2].
    rewrite <- (assoc_L (++)), <- E1. symmetry. apply take_drop.
  - destruct k as [|c k].
    + exists []. rewrite app_nil_r in E1. subst mm. simpl in E2. subst s'.
      split; [|reflexivity]. rewrite app_nil_r. symmetry. apply take_drop.
    + exfalso. pose proof tailrest_stops_tok as Hs. rewrite E2 in Hs. simpl in Hs.
      rewrite E1 in Hmm. apply Forall_app in Hmm. destruct Hmm as [_ Hmm].
      inversion Hmm; subst. congruence.
Qed.

Lemma after_token_cases pv0 pv j :
  after_token key tailrest pv0 (split_state pv [] key tailrest j) = None \/
  after_token key tailrest pv0 (split_state pv [] key tailrest j) = Some (line_result key value post sep).
Proof.
  destruct (after_token key tailrest pv0 (split_state pv [] key tailrest j)) as [r|] eqn:E; [right|left; reflexivity].
  unfold after_token in E. cbn [rmatch] in E. apply rmatch_keywords_some in E.
  destruct E as [mm [s' [Hin [E1 E2]]]]. unfold split_state in E1. cbn [m_rest] in E1.
  destruct (keyword_inside_key _ _ _ Hin E1) as [b' [Hk ->]].
  cbn [rmatch m_prev m_rest m_groups] in E2.
  rewrite (lazy_reaches_sep _ _ _ _ Hk) in E2. congruence.
Qed.

Lemma after_token_hit pv0 pv :
  after_token key tailrest pv0 (split_state pv [] key tailrest (length a)) = Some (line_result key value post sep).
Proof.
  destruct (after_token_cases pv0 pv (length a)) as [H|H]; [|exact H]. exfalso.
  unfold after_token in H. cbn [rmatch] in H.
  pose proof (rmatch_keywords_none _ _ H m (b ++ tailrest) Hm) as Hn.
  unfold split_state in Hn. cbn [rmatch m_prev m_rest m_groups] in Hn.
  assert (E : drop (length a) key ++ tailrest = m ++ b ++ tailrest).
  { unfold key. rewrite drop_app_length. rewrite <- (assoc_L (++)). reflexivity. }
  specialize (Hn E).
  rewrite (lazy_reaches_sep _ _ (a ++ m) b) in Hn; [discriminate|].
  unfold key. rewrite <- (assoc_L (++)). reflexivity.
Qed.

Lemma key_nonempty_stops : stops isspace (key ++ tailrest).
Proof.
  pose proof key_is_token as H. destruct key as [|c k] eqn:E.
  - unfold key in E. destruct a; [|discriminate]. destruct m; [|discriminate].
    exfalso. simpl in Hm. unfold KEYWORDS in Hm. simpl in Hm.
    repeat (destruct Hm as [Hm'|Hm]; [discriminate|]). destruct Hm.
  - simpl. inversion H; subst. apply token_char_not_space. assumption.
Qed.

Theorem match_keyed_line prev :
  at_bol prev = true ->
  match_at SENSITIVE_RE prev (lead ++ key ++ tailrest) = Some (line_result key value post sep).
Proof.
  intros Hbol. unfold match_at. rewrite SENSITIVE_RE_eq.
  cbn [rmatch m_prev m_rest m_groups]. rewrite Hbol.
  apply star_greedy_all; [exact Hlead | exact key_nonempty_stops |].
  cbn [rmatch m_prev m_rest m_groups].
  apply star_greedy_unique.
  - exact key_is_token.
  - exact tailrest_stops_tok.
  - intros j _. apply (after_token_cases (last_or prev lead) (last_or prev lead) j).
  - exists (length a). split.
    + unfold key. rewrite length_app. lia.
    + apply (after_token_hit (last_or prev lead) (last_or prev lead)).
Qed.

Lemma keyed_line_shape :
  exists c L', lead ++ key ++ tailrest = c :: L' ++ post /\
               last_or (Some c) L' = last_or (Some sep) value.
Proof.
  set (L := lead ++ key ++ w2 ++ sep :: w3 ++ value).
  assert (E : lead ++ key ++ tailrest = L ++ post).
  { unfold L, tailrest. rewrite <- !(assoc_L (++)). simpl. rewrite <- !(assoc_L (++)). reflexivity. }
  assert (Hlast : forall pv, last_or pv L = last_or (Some sep) value).
  { intros pv. unfold L, last_or. destruct value as [|v0 vs]; [destruct Hv0|].
    rewrite !last_app. change (sep :: w3 ++ v0 :: vs) with ([sep] ++ w3 ++ v0 :: vs).
    rewrite !last_app.
    destruct (last (v0 :: vs)) eqn:El; [reflexivity|]. apply last_None in El. discriminate. }
  destruct L as [|c L'] eqn:EL.
  - exfalso. apply (f_equal length) in EL. unfold L in EL. rewrite !length_app in EL.
    simpl in EL. lia.
  - exists c, L'. split; [exact E|]. rewrite <- (last_or_cons None). apply Hlast.
Qed.
Theorem sanitize_keyed_line prev :
  at_bol prev = true ->
  sanitize_from prev (lead ++ key ++ tailrest)
  = key ++ py ": ***" ++ sanitize_from (last_or (Some sep) value) post.
Proof.
  intros Hbol.
  pose proof (match_keyed_line prev Hbol) as Hmatch.
  destruct keyed_line_shape as [c [L' [E Hlast]]].
  rewrite E in Hmatch. rewrite E.
  unfold sanitize_from. cbn [sub_loop]. rewrite Hmatch.
  unfold line_result. cbn [m_groups m_rest group Nat.eqb].
  rewrite <- (assoc_L (++)). f_equal. f_equal.
  rewrite length_app.
  replace (length L' + length post - length post)%nat with (length L') by lia.
  rewrite sub_loop_skip. rewrite Hlast. reflexivity.
Qed.
End KeyedLine.

(** ** The monad *)

Section Properties.
Context {E : Env}.

Lemma bind_inv {A B} (m : M A) (k : A -> M B) st r st' :
  bind m k st = (r, st') ->
  (exists a st1, m st = (Return a, st1) /\ k a st1 = (r, st')) \/
  (exists e, m st = (Raise e, st') /\ r = Raise e).
Proof.
  unfold bind. destruct (m st) as [[a|e] st1]; intros H.
  - left. eauto.
  - right. inversion H; subst. eauto.
Qed.

Lemma quiet_ret {A} (a : A) : quiet (ret a).
Proof. intros st r st' H. inversion H; subst. auto. Qed.

Lemma quiet_raise {A} (e : exn) : quiet (@raise E A e).
Proof. intros st r st' H. inversion H; subst. auto. Qed.

Lemma quiet_lift {A} (x : result A) : quiet (lift x).
Proof. intros st r st' H. inversion H; subst. auto. Qed.

Lemma quiet_ask {A} (f : World -> A) : quiet (ask f).
Proof. intros st r st' H. inversion H; subst. auto. Qed.

Lemma quiet_act {A} (f : World -> A * World) : quiet (act f).
Proof.
  intros st r st' H. unfold act in H. destruct (f (world st)) as [a w].
  inversion H; subst. auto.
Qed.

Lemma quiet_bind {A B} (m : M A) (k : A -> M B) :
  quiet m -> (forall a, quiet (k a)) -> quiet (bind m k).
Proof.
  intros Hm Hk st r st' H. apply bind_inv in H.
  destruct H as [(a & st1 & H1 & H2) | (e & H1 & _)].
  - destruct (Hm _ _ _ H1) as [E1 E2]. destruct (Hk a _ _ _ H2) as [E3 E4].
    split; congruence.
  - exact (Hm _ _ _ H1).
Qed.

Lemma quiet_try_except {A} (m : M A) (h : exn -> option (M A)) :
  quiet m -> (forall e m', h e = Some m' -> quiet m') -> quiet (try_except m h).
Proof.
  intros Hm Hh st r st' H. unfold try_except in H.
  destruct (m st) as [[a|e] st1] eqn:E1.
  - inversion H; subst. exact (Hm _ _ _ E1).
  - destruct (Hm _ _ _ E1) as [E2 E3]. destruct (h e) as [m'|] eqn:E4.
    + destruct (Hh _ _ E4 _ _ _ H) as [E5 E6]. split; congruence.
    + inversion H; subst. auto.
Qed.

Lemma quiet_log_event event : quiet (log_event event).
Proof.
  unfold log_event. apply quiet_bind; [apply quiet_act|].
  intros ts st r st' H. inversion H; subst. auto.
Qed.

Lemma quiet_validate_stack_name stack : quiet (validate_stack_name stack).
Proof.
  unfold validate_stack_name. destruct (match_at STACK_NAME_RE None stack);
    [apply quiet_ret | apply quiet_raise].
Qed.

Lemma quiet_fun_world {A} (f : World -> result A) : quiet (fun st => (f (world st), st)).
Proof. intros st r st' H. inversion H; subst. auto. Qed.

Lemma quiet_get_stack_path stack : quiet (get_stack_path stack).
Proof.
  unfold get_stack_path.
  apply quiet_bind; [apply (quiet_fun_world (fun w => path_resolve w _))|]. intros stack_path.
  apply quiet_bind.
  { apply quiet_try_except; [apply (quiet_fun_world (fun w => path_resolve_strict w _))|].
    intros e m' H. destruct e; inversion H; subst; apply quiet_raise. }
  intros settings_root.
  destruct (negb _ && _); [apply quiet_raise|].
  apply quiet_bind; [apply quiet_ask|]. intros is_there.
  apply quiet_bind; [apply quiet_ask|]. intros is_dir.
  destruct (negb is_there || negb is_dir); [apply quiet_raise|].
  apply quiet_bind; [apply quiet_ask|]. intros has_compose.
  destruct (negb has_compose); [apply quiet_raise | apply quiet_ret].
Qed.

Lemma quiet_get_docker_env stack_path : quiet (get_docker_env stack_path).
Proof.
  unfold get_docker_env. apply quiet_bind; [apply quiet_ask|].
  intros has_cfg. destruct has_cfg; apply quiet_ret.
Qed.

Lemma quiet_build_response stack steps started_at : quiet (build_response stack steps started_at).
Proof.
  unfold build_response. apply quiet_bind; [apply quiet_act|]. intros f. apply quiet_ret.
Qed.

Lemma quiet_verify_signature hdr data : quiet (verify_signature hdr data).
Proof.
  unfold verify_signature. destruct hdr; [apply quiet_raise|].
  apply quiet_bind; [apply quiet_lift|]. intros same.
  destruct (negb same); [apply quiet_raise | apply quiet_ret].
Qed.

(** ** The command runner *)

Lemma run_command_env_completed name args cwd timeout env st t0 w1 proc w2 :
  time_time (world st) = (t0, w1) ->
  subprocess_run args cwd timeout (child_env env w1) w1 = (Return proc, w2) ->
  exists d st',
    run_command_env name args cwd timeout env st = (Return (completed_step name proc d), st').
Proof.
  intros Ht Hp.
  unfold run_command_env, log_event, run_subprocess, try_except, bind, act, ask, ret.
  rewrite Ht. cbn [world].
  change (match env with
          | Some e => if bool_decide (e = ∅) then os_environ w1 else e ∪ os_environ w1
          | None => os_environ w1
          end) with (child_env env w1).
  rewrite Hp. cbn [world].
  destruct (time_time w2) as [t1 w3]. cbn [world].
  destruct (datetime_now w3) as [ts w4].
  eexists. eexists. reflexivity.
Qed.

Lemma run_command_env_timeout name args cwd timeout env st t0 w1 exc w2 :
  time_time (world st) = (t0, w1) ->
  subprocess_run args cwd timeout (child_env env w1) w1 = (Raise (TimeoutExpired exc), w2) ->
  exists d st',
    run_command_env name args cwd timeout env st = (Return (timeout_step name timeout exc d), st').
Proof.
  intros Ht Hp.
  unfold run_command_env, log_event, run_subprocess, try_except, bind, act, ask, ret.
  rewrite Ht. cbn [world].
  change (match env with
          | Some e => if bool_decide (e = ∅) then os_environ w1 else e ∪ os_environ w1
          | None => os_environ w1
          end) with (child_env env w1).
  rewrite Hp. cbn [world].
  destruct (time_time w2) as [t1 w3]. cbn [world].
  destruct (datetime_now w3) as [ts w4].
  eexists. eexists. reflexivity.
Qed.

Lemma run_command_env_timeout_at name args cwd timeout env st t0 w1 exc w2 t1 w3 :
  time_time (world st) = (t0, w1) ->
  subprocess_run args cwd timeout (child_env env w1) w1 = (Raise (TimeoutExpired exc), w2) ->
  time_time w2 = (t1, w3) ->
  exists st',
    run_command_env name args cwd timeout env st =
      (Return (timeout_step name timeout exc (py_int (fmul (fsub t1 t0) 1000))), st') /\
    executed st' =
      executed st ++ [{| ex_step := name; ex_args := args; ex_cwd := cwd; ex_timeout := timeout;
                         ex_env := child_env env w1;
                         ex_outcome := Raise (TimeoutExpired exc) |}].
Proof.
  intros Ht Hp Ht1.
  unfold run_command_env, log_event, run_subprocess, try_except, bind, act, ask, ret.
  rewrite Ht. cbn [world].
  change (match env with
          | Some e => if bool_decide (e = ∅) then os_environ w1 else e ∪ os_environ w1
          | None => os_environ w1
          end) with (child_env env w1).
  rewrite Hp. cbn [world]. rewrite Ht1. cbn [world].
  destruct (datetime_now w3) as [ts w4].
  eexists. split; reflexivity.
Qed.

Lemma run_command_env_completed_at name args cwd timeout env st t0 w1 proc w2 t1 w3 :
  time_time (world st) = (t0, w1) ->
  subprocess_run args cwd timeout (child_env env w1) w1 = (Return proc, w2) ->
  time_time w2 = (t1, w3) ->
  exists st',
    run_command_env name args cwd timeout env st =
      (Return (completed_step name proc (py_int (fmul (fsub t1 t0) 1000))), st').
Proof.
  intros Ht Hp Ht1.
  unfold run_command_env, log_event, run_subprocess, try_except, bind, act, ask, ret.
  rewrite Ht. cbn [world].
  change (match env with
          | Some e => if bool_decide (e = ∅) then os_environ w1 else e ∪ os_environ w1
          | None => os_environ w1
          end) with (child_env env w1).
  rewrite Hp. cbn [world]. rewrite Ht1. cbn [world].
  destruct (datetime_now w3) as [ts w4].
  eexists. reflexivity.
Qed.

Lemma run_command_env_ran name args cwd timeout env st res st' :
  run_command_env name args cwd timeout env st = (res, st') ->
  exists x, ran st st' x /\ ex_step x = name /\ ex_args x = args /\ ex_cwd x = cwd /\
            ex_timeout x = timeout /\ step_of x res.
Proof.
  unfold run_command_env, log_event, run_subprocess, try_except, bind, act, ask, ret.
  destruct (time_time (world st)) as [t0 w1]. cbn [world].
  destruct (subprocess_run _ _ _ _ w1) as [[proc|e] w2] eqn:Hp; cbn [world].
  - destruct (time_time w2) as [t1 w3]. cbn [world].
    destruct (datetime_now w3) as [ts w4]. intros H. inversion H; subst; clear H.
    eexists. split; [split; reflexivity|]. cbn. repeat split.
    unfold step_of. cbn. eexists. reflexivity.
  - assert (Hcases : (exists exc, e = TimeoutExpired exc) \/
                     (forall A (a b : A), match e with TimeoutExpired _ => a | _ => b end = b)).
    { destruct e; eauto. }
    destruct Hcases as [[exc ->] | Hother].
    + cbn [world]. destruct (time_time w2) as [t1 w3]. cbn [world].
      destruct (datetime_now w3) as [ts w4]. intros H. inversion H; subst; clear H.
      eexists. split; [split; reflexivity|]. cbn. repeat split.
      unfold step_of. cbn. eexists. reflexivity.
    + destruct e; try (specialize (Hother bool true false); discriminate);
        intros H; inversion H; subst; clear H;
        (eexists; split; [split; reflexivity|]; cbn; repeat split; reflexivity).
Qed.

(** ** The deployment sequence *)

Lemma build_response_answer stack steps started_at st res st' :
  build_response stack steps started_at st = (res, st') ->
  deploy_answer stack steps None res /\
  executed st' = executed st /\ request_buckets st' = request_buckets st.
Proof.
  intros H. destruct (quiet_build_response _ _ _ _ _ _ H) as [E1 E2].
  split; [|auto]. unfold build_response, bind, act, ret in H.
  destruct (datetime_now (world st)) as [f w]. inversion H; subst.
  unfold deploy_answer. exists started_at, f. reflexivity.
Qed.

Lemma log_then_build event stack steps started_at st res st' :
  bind (log_event event) (fun _ => build_response stack steps started_at) st = (res, st') ->
  deploy_answer stack steps None res /\
  executed st' = executed st /\ request_buckets st' = request_buckets st.
Proof.
  intros H. apply bind_inv in H. destruct H as [(a & st1 & H1 & H2) | (e & H1 & _)].
  - destruct (quiet_log_event _ _ _ _ H1) as [E1 E2].
    destruct (build_response_answer _ _ _ _ _ _ H2) as (Ha & E3 & E4).
    repeat split; congruence.
  - exfalso. unfold log_event, bind, act in H1.
    destruct (datetime_now (world st)); discriminate.
Qed.

Lemma kept_other step r : step <> py "status" -> kept step r = r.
Proof. intros H. unfold kept. rewrite bool_decide_eq_false_2; [reflexivity | exact H]. Qed.

Lemma kept_status r : kept (py "status") r = mark_idle r.
Proof. reflexivity. Qed.

Lemma last_ok_snoc steps s : last_ok (steps ++ [s]) = ok s.
Proof. unfold last_ok. rewrite last_snoc. reflexivity. Qed.

Ltac frame_of Hq Hm :=
  let E1 := fresh "Eexec" in
  let E2 := fresh "Ebuck" in
  destruct (Hq _ _ _ Hm) as [E1 E2].

Lemma perform_deploy_chain stack st res st' :
  perform_deploy stack st = (res, st') ->
  (executed st' = executed st /\ request_buckets st' = request_buckets st /\
   exists e, res = Raise e)
  \/
  (exists new steps oe,
     executed st' = executed st ++ new /\ request_buckets st' = request_buckets st /\
     chain STEP_NAMES new steps oe /\ deploy_answer stack steps oe res).
Proof.
  intros H. unfold perform_deploy in H.
  apply bind_inv in H. destruct H as [(nm & sa & Hv & H) | (e & Hv & H)];
    frame_of (quiet_validate_stack_name stack) Hv; [|left; subst; eauto].
  apply bind_inv in H. destruct H as [(sp & sb & Hp & H) | (e & Hp & H)];
    frame_of (quiet_get_stack_path stack) Hp;
    [|left; subst; repeat split; eauto; congruence].
  apply bind_inv in H. destruct H as [(de & sc & Hd & H) | (e & Hd & H)];
    frame_of (quiet_get_docker_env sp) Hd;
    [|left; subst; repeat split; eauto; congruence].
  apply bind_inv in H. destruct H as [(t0 & sd & Hs & H) | (e & Hs & H)];
    frame_of (quiet_act datetime_now) Hs;
    [|left; subst; repeat split; eauto; congruence].
  apply bind_inv in H. destruct H as [(u & se & Hl & H) | (e & Hl & H)];
    frame_of (quiet_log_event
      [(py "event", JStr (py "deploy_start")); (py "stack", JStr stack);
       (py "docker_config",
        match de !! py "DOCKER_CONFIG" with Some d => JStr d | None => JNull end)]) Hl;
    [|left; subst; repeat split; eauto; congruence].
  right.
  assert (E0 : executed se = executed st) by congruence.
  assert (B0 : request_buckets se = request_buckets st) by congruence.
  clear Hv Hp Hd Hs Hl Eexec Ebuck Eexec0 Ebuck0 Eexec1 Ebuck1 Eexec2 Ebuck2 Eexec3 Ebuck3.
  (* status *)
  apply bind_inv in H. destruct H as [(r1 & s1 & H1 & H) | (e & H1 & H)];
    apply run_command_env_ran in H1;
    destruct H1 as (x1 & [R1 B1] & N1 & _ & _ & _ & S1).
  2:{ subst res. exists [x1], [], (Some e).
      split; [congruence|]. split; [congruence|]. split; [|reflexivity].
      apply chain_raise; assumption. }
  cbv zeta in H.
  change (if ok r1 && bool_decide (running_services (tail r1) = [])
      then {| name := name r1; ok := false; exit_code := exit_code r1;
              duration_ms := duration_ms r1;
              tail := tail r1 ++ 10 :: py "No running services found; aborting deploy." |}
      else r1) with (mark_idle r1) in H.
  assert (P1 : produces x1 (mark_idle r1)).
  { exists r1. split; [exact S1|]. rewrite N1. reflexivity. }
  change (last_ok [mark_idle r1]) with (ok (mark_idle r1)) in H.
  destruct (ok (mark_idle r1)) eqn:O1; cbn [negb] in H.
  2:{ apply log_then_build in H. destruct H as (Ha & E3 & E4).
      exists [x1], [mark_idle r1], None.
      split; [congruence|]. split; [congruence|]. split; [|exact Ha].
      apply chain_stop; assumption. }
  (* config *)
  apply bind_inv in H. destruct H as [(r2 & s2 & H2 & H) | (e & H2 & H)];
    apply run_command_env_ran in H2;
    destruct H2 as (x2 & [R2 B2] & N2 & _ & _ & _ & S2).
  2:{ subst res. exists [x1; x2], [mark_idle r1], (Some e).
      split; [rewrite R2, R1, E0, <- (assoc_L (++)); reflexivity|].
      split; [congruence|]. split; [|reflexivity].
      apply chain_next; try assumption. apply chain_raise; assumption. }
  assert (P2 : produces x2 r2).
  { exists r2. split; [exact S2|]. rewrite N2. reflexivity. }
  cbv zeta in H.
  change (last_ok ([mark_idle r1] ++ [r2])) with (ok r2) in H.
  assert (E2 : executed s2 = executed st ++ [x1; x2])
    by (rewrite R2, R1, E0, <- (assoc_L (++)); reflexivity).
  assert (B2' : request_buckets s2 = request_buckets st) by congruence.
  clear R1 R2 B1 B2 E0 B0.
  destruct (ok r2) eqn:O2.
  2:{ unfold bind at 1 2 in H. unfold ret at 1 in H. cbn [List.app] in H.
      change (last_ok [mark_idle r1; r2]) with (ok r2) in H. rewrite O2 in H.
      unfold ret at 1 in H.
      apply log_then_build in H. destruct H as (Ha & E3 & E4).
      exists [x1; x2], [mark_idle r1; r2], None.
      split; [congruence|]. split; [congruence|]. split; [|exact Ha].
      apply chain_next; try assumption. apply chain_stop; assumption. }
  (* pull *)
  apply bind_inv in H. destruct H as [(steps3 & s3 & H3 & H) | (e & H3 & H)].
  2:{ apply bind_inv in H3. destruct H3 as [(r3 & s3 & H3 & H3') | (e3 & H3 & H3')];
        [discriminate|].
      apply run_command_env_ran in H3.
      destruct H3 as (x3 & [R3 B3] & N3 & _ & _ & _ & S3).
      inversion H3'; subst e3. subst res. exists [x1; x2; x3], [mark_idle r1; r2], (Some e).
      split; [rewrite R3, E2, <- (assoc_L (++)); reflexivity|].
      split; [congruence|]. split; [|reflexivity].
      do 2 (apply chain_next; try assumption). apply chain_raise; assumption. }
  apply bind_inv in H3. destruct H3 as [(r3 & s3' & H3 & H3') | (e3 & H3 & H3')];
    [|discriminate].
  inversion H3'; subst steps3 s3'; clear H3'.
  apply run_command_env_ran in H3.
  destruct H3 as (x3 & [R3 B3] & N3 & _ & _ & _ & S3).
  assert (P3 : produces x3 r3).
  { exists r3. split; [exact S3|]. rewrite N3. reflexivity. }
  assert (E3 : executed s3 = executed st ++ [x1; x2; x3])
    by (rewrite R3, E2, <- (assoc_L (++)); reflexivity).
  assert (B3' : request_buckets s3 = request_buckets st) by congruence.
  clear R3 B3 E2 B2'.
  cbn [List.app] in H.
  change (last_ok [mark_idle r1; r2; r3]) with (ok r3) in H.
  destruct (ok r3) eqn:O3.
  2:{ unfold bind at 1 in H. unfold ret at 1 in H.
      apply log_then_build in H. destruct H as (Ha & E4 & B4).
      exists [x1; x2; x3], [mark_idle r1; r2; r3], None.
      split; [congruence|]. split; [congruence|]. split; [|exact Ha].
      do 2 (apply chain_next; try assumption). apply chain_stop; assumption. }
  (* up *)
  apply bind_inv in H. destruct H as [(steps4 & s4 & H4 & H) | (e & H4 & H)].
  2:{ apply bind_inv in H4. destruct H4 as [(r4 & s4 & H4 & H4') | (e4 & H4 & H4')];
        [discriminate|].
      apply run_command_env_ran in H4.
      destruct H4 as (x4 & [R4 B4] & N4 & _ & _ & _ & S4).
      inversion H4'; subst e4. subst res.
      exists [x1; x2; x3; x4], [mark_idle r1; r2; r3], (Some e).
      split; [rewrite R4, E3, <- (assoc_L (++)); reflexivity|].
      split; [congruence|]. split; [|reflexivity].
      do 3 (apply chain_next; try assumption). apply chain_raise; assumption. }
  apply bind_inv in H4. destruct H4 as [(r4 & s4' & H4 & H4') | (e4 & H4 & H4')];
    [|discriminate].
  inversion H4'; subst steps4 s4'; clear H4'.
  apply run_command_env_ran in H4.
  destruct H4 as (x4 & [R4 B4] & N4 & _ & _ & _ & S4).
  assert (P4 : produces x4 r4).
  { exists r4. split; [exact S4|]. rewrite N4. reflexivity. }
  cbn [List.app] in H.
  apply log_then_build in H. destruct H as (Ha & E5 & B5).
  exists [x1; x2; x3; x4], [mark_idle r1; r2; r3; r4], None.
  split; [rewrite E5, R4, E3, <- (assoc_L (++)); reflexivity|].
  split; [congruence|]. split; [|exact Ha].
  destruct (ok r4) eqn:O4.
  - do 4 (apply chain_next; try assumption). apply chain_done.
  - do 3 (apply chain_next; try assumption). apply chain_stop; assumption.
Qed.

(** ** Fail-fast runs *)

Lemma mark_idle_name r : name (mark_idle r) = name r.
Proof. unfold mark_idle. destruct (ok r && _); reflexivity. Qed.

Lemma mark_idle_ok_true r : ok (mark_idle r) = true -> ok r = true /\ mark_idle r = r.
Proof.
  unfold mark_idle. destruct (ok r && bool_decide (running_services (tail r) = [])) eqn:O.
  - cbn [ok]. discriminate.
  - auto.
Qed.

Lemma mark_idle_failed r : ok r = false -> mark_idle r = r.
Proof. unfold mark_idle. intros ->. reflexivity. Qed.

Lemma kept_name step r : name (kept step r) = name r.
Proof. unfold kept. destruct (bool_decide _); [apply mark_idle_name | reflexivity]. Qed.

Lemma kept_ok_true step r : ok (kept step r) = true -> ok r = true /\ kept step r = r.
Proof. unfold kept. destruct (bool_decide _); [apply mark_idle_ok_true | auto]. Qed.

Lemma kept_failed step r : ok r = false -> kept step r = r.
Proof. unfold kept. intros H. destruct (bool_decide _); [apply mark_idle_failed, H | reflexivity]. Qed.

Lemma step_of_return_name x r : step_of x (Return r) -> name r = ex_step x.
Proof.
  unfold step_of. destruct (ex_outcome x) as [proc|e].
  - intros [d H]. inversion H; subst. reflexivity.
  - destruct e; try discriminate. intros [d H]. inversion H; subst. reflexivity.
Qed.

Lemma step_of_return_ok x r :
  step_of x (Return r) -> ok r = true ->
  exists proc, ex_outcome x = Return proc /\ returncode proc = 0%Z.
Proof.
  unfold step_of. destruct (ex_outcome x) as [proc|e].
  - intros [d H] Hok. inversion H; subst. cbn in Hok. apply Z.eqb_eq in Hok. eauto.
  - destruct e; try discriminate. intros [d H] Hok. inversion H; subst. discriminate.
Qed.

Lemma step_of_timeout x exc res :
  ex_outcome x = Raise (TimeoutExpired exc) -> step_of x res ->
  exists d, res = Return (timeout_step (ex_step x) (ex_timeout x) exc d).
Proof. unfold step_of. intros ->. auto. Qed.

Lemma step_of_completed x proc res :
  ex_outcome x = Return proc -> step_of x res ->
  exists d, res = Return (completed_step (ex_step x) proc d).
Proof. unfold step_of. intros ->. auto. Qed.

Lemma produces_name x s : produces x s -> name s = ex_step x.
Proof. intros (r & Hr & ->). rewrite kept_name. apply step_of_return_name, Hr. Qed.

Lemma produces_ok x s :
  produces x s -> ok s = true ->
  exists proc, ex_outcome x = Return proc /\ returncode proc = 0%Z.
Proof.
  intros (r & Hr & ->) Hok. apply kept_ok_true in Hok. destruct Hok as [Hok _].
  eapply step_of_return_ok; eassumption.
Qed.

Lemma produces_timeout x s exc :
  ex_outcome x = Raise (TimeoutExpired exc) -> produces x s ->
  exists d, s = timeout_step (ex_step x) (ex_timeout x) exc d.
Proof.
  intros Ho (r & Hr & ->). destruct (step_of_timeout _ _ _ Ho Hr) as [d Hd].
  inversion Hd; subst. exists d. apply kept_failed. reflexivity.
Qed.

Lemma chain_names_prefix todo xs ss oe :
  chain todo xs ss oe -> map ex_step xs `prefix_of` todo.
Proof.
  induction 1 as [|n todo x e Hn _|n todo x s Hn _ _|n todo x s xs ss oe Hn _ _ _ IH]; cbn.
  - apply prefix_nil.
  - rewrite Hn. apply prefix_cons, prefix_nil.
  - rewrite Hn. apply prefix_cons, prefix_nil.
  - rewrite Hn. apply prefix_cons, IH.
Qed.

Lemma chain_step_names todo xs ss :
  chain todo xs ss None -> map name ss = map ex_step xs.
Proof.
  intros H. remember None as oe eqn:Eo.
  induction H as [|n todo x e Hn _|n todo x s Hn Hp _|n todo x s xs ss oe Hn Hp _ _ IH]; cbn.
  - reflexivity.
  - discriminate.
  - rewrite (produces_name _ _ Hp). reflexivity.
  - rewrite (produces_name _ _ Hp), (IH Eo). reflexivity.
Qed.

Lemma chain_failed_is_last todo xs ss oe i s :
  chain todo xs ss oe -> ss !! i = Some s -> ok s = false ->
  S i = length ss /\ S i = length xs /\ oe = None.
Proof.
  intros H. revert i.
  induction H as [|n todo x e Hn _|n todo x s0 Hn Hp Ho|n todo x s0 xs ss oe Hn Hp Ho _ IH];
    intros i Hi Hs.
  - discriminate.
  - discriminate.
  - destruct i as [|i]; [auto | discriminate].
  - destruct i as [|i]; cbn in Hi.
    + inversion Hi; subst. congruence.
    + destruct (IH _ Hi Hs) as (E1 & E2 & E3). cbn. auto.
Qed.

Lemma chain_followed_succeeded todo xs ss oe i x :
  chain todo xs ss oe -> xs !! i = Some x -> (S i < length xs)%nat ->
  exists proc, ex_outcome x = Return proc /\ returncode proc = 0%Z.
Proof.
  intros H. revert i.
  induction H as [|n todo x0 e Hn _|n todo x0 s0 Hn Hp Ho|n todo x0 s0 xs ss oe Hn Hp Ho _ IH];
    intros i Hi Hlt; cbn in Hlt.
  - discriminate.
  - lia.
  - lia.
  - destruct i as [|i]; cbn in Hi.
    + inversion Hi; subst. eapply produces_ok; eassumption.
    + apply (IH _ Hi). lia.
Qed.

Lemma chain_timeout_is_last todo xs ss oe i x exc :
  chain todo xs ss oe -> xs !! i = Some x -> ex_outcome x = Raise (TimeoutExpired exc) ->
  S i = length xs /\ oe = None /\ length ss = S i /\
  exists d, ss !! i = Some (timeout_step (ex_step x) (ex_timeout x) exc d).
Proof.
  intros H. revert i.
  induction H as [|n todo x0 e Hn Hs|n todo x0 s0 Hn Hp Ho|n todo x0 s0 xs ss oe Hn Hp Ho _ IH];
    intros i Hi Hx.
  - discriminate.
  - destruct i as [|i]; [|discriminate]. cbn in Hi. inversion Hi; subst.
    destruct (step_of_timeout _ _ _ Hx Hs) as [d Hd]. discriminate.
  - destruct i as [|i]; [|discriminate]. cbn in Hi. inversion Hi; subst.
    destruct (produces_timeout _ _ _ Hx Hp) as [d ->]. cbn [length].
    split; [reflexivity|]. split; [reflexivity|]. split; [reflexivity|]. exists d. reflexivity.
  - destruct i as [|i]; cbn in Hi.
    + inversion Hi; subst. destruct (produces_timeout _ _ _ Hx Hp) as [d ->]. discriminate.
    + destruct (IH _ Hi Hx) as (E1 & E2 & E3 & d & E4). cbn [length].
      split; [lia|]. split; [exact E2|]. split; [lia|]. exists d. exact E4.
Qed.

Lemma forallb_ok_failed steps i s :
  steps !! i = Some s -> ok s = false -> forallb ok steps = false.
Proof.
  revert i. induction steps as [|s0 steps IH]; intros i Hi Hs; [discriminate|].
  destruct i as [|i]; cbn in *.
  - inversion Hi; subst. rewrite Hs. reflexivity.
  - rewrite (IH _ Hi Hs). apply andb_false_r.
Qed.


(** C5.  If the first command of a run (the status command) exits with code
    0 and the tail of its output lists no running service, no other command
    is run, and the answer is a 500 response whose [ok] is false and whose
    steps are the single status step, marked failed, its tail followed by the
    explanatory message. *)
Theorem idle_stack_aborts_deploy stack st res st' x rest proc :
  perform_deploy stack st = (res, st') ->
  executed st' = executed st ++ x :: rest ->
  ex_outcome x = Return proc ->
  returncode proc = 0%Z ->
  running_services (last_chars TAIL_LIMIT (sanitize_output (stdout proc ++ stderr proc))) = [] ->
  rest = [] /\ ex_step x = py "status" /\
  exists d started_at finished_at,
    res = Return (JSONResponse HTTP_500_INTERNAL_SERVER_ERROR
            (envelope false stack
               [{| name := py "status"; ok := false; exit_code := Some 0%Z; duration_ms := d;
                   tail := last_chars TAIL_LIMIT (sanitize_output (stdout proc ++ stderr proc))
                           ++ NO_SERVICES |}]
               started_at finished_at)).
Proof.
  intros H Hex Ho Hrc Hsv. apply perform_deploy_chain in H.
  destruct H as [(E1 & _) | (new & steps & oe & E1 & _ & Hc & Ha)].
  - exfalso. rewrite E1 in Hex. rewrite <- (app_nil_r (executed st)) in Hex at 1.
    apply app_inv_head in Hex. discriminate.
  - rewrite E1 in Hex. apply app_inv_head in Hex. subst new.
    assert (Hidle : forall s, produces x s ->
              ex_step x = py "status" ->
              exists d, s = {| name := py "status"; ok := false; exit_code := Some 0%Z;
                               duration_ms := d;
                               tail := last_chars TAIL_LIMIT
                                         (sanitize_output (stdout proc ++ stderr proc))
                                       ++ NO_SERVICES |}).
    { intros s (r & Hr & ->) Hn. destruct (step_of_completed _ _ _ Ho Hr) as [d Hd].
      inversion Hd; subst r. exists d. rewrite Hn. unfold kept, mark_idle.
      rewrite bool_decide_eq_true_2 by reflexivity.
      unfold completed_step. cbn [ok tail name exit_code duration_ms].
      rewrite Hrc, Hsv. reflexivity. }
    inversion Hc as [|n todo x0 e Hn Hs|n todo x0 s Hn Hp Hok|n todo x0 s xs ss oe' Hn Hp Hok Hrest];
      subst.
    + exfalso. destruct (step_of_completed _ _ _ Ho Hs) as [d Hd]. discriminate.
    + destruct (Hidle _ Hp Hn) as [d ->]. split; [reflexivity|]. split; [exact Hn|].
      cbn in Ha. destruct Ha as (t0 & t1 & ->). exists d, t0, t1. reflexivity.
    + exfalso. destruct (Hidle _ Hp Hn) as [d ->]. discriminate.
Qed.


(** ** Stack resolution *)

Lemma parents_descendant (root p : Path) :
  root ∈ parents p -> strict_descendant root p.
Proof.
  unfold parents. intros H. apply list_elem_of_In, in_map_iff in H.
  destruct H as (k & <- & Hk). rewrite <- in_rev, in_seq in Hk.
  exists (drop k p). split.
  - intros Hd. apply (f_equal length) in Hd. rewrite length_drop in Hd. cbn in Hd.
    destruct (is_absolute p); lia.
  - symmetry. apply take_drop.
Qed.

Lemma descendant_parents (root p : Path) :
  is_absolute root = true -> strict_descendant root p -> root ∈ parents p.
Proof.
  intros Habs (rest & Hrest & ->). unfold parents.
  apply list_elem_of_In, in_map_iff. exists (length root). split.
  - apply take_app_length.
  - rewrite <- in_rev, in_seq, length_app.
    assert (0 < length rest)%nat by (destruct rest; [congruence | cbn; lia]).
    assert (0 < length root)%nat by (destruct root; [discriminate | cbn; lia]).
    destruct (is_absolute (root ++ rest)); lia.
Qed.

Lemma validate_stack_name_pure stack : pure_read (validate_stack_name stack).
Proof.
  intros st r st' H. unfold validate_stack_name in H.
  destruct (match_at STACK_NAME_RE None stack); inversion H; reflexivity.
Qed.

Lemma validate_stack_name_cases stack st :
  validate_stack_name stack st = (Return stack, st) \/
  validate_stack_name stack st =
    (Raise (HTTPException HTTP_400_BAD_REQUEST (py "invalid stack name")), st).
Proof.
  unfold validate_stack_name. destruct (match_at STACK_NAME_RE None stack); auto.
Qed.

Lemma verify_signature_pure hdr data : pure_read (verify_signature hdr data).
Proof.
  intros st r st' H. unfold verify_signature in H. destruct hdr.
  - inversion H; reflexivity.
  - unfold bind, lift in H. destruct (compare_digest _ _) as [same|e].
    + destruct (negb same); inversion H; reflexivity.
    + inversion H; reflexivity.
Qed.

Lemma get_stack_path_outside stack st sp root :
  path_resolve (world st) (joinpath (stacks_root settings) stack) = Return sp ->
  path_resolve_strict (world st) (stacks_root settings) = Return root ->
  ~ (sp = root \/ strict_descendant root sp) ->
  get_stack_path stack st =
    (Raise (HTTPException HTTP_400_BAD_REQUEST (py "invalid stack path")), st).
Proof.
  intros Hsp Hroot Hout. unfold get_stack_path, bind, try_except.
  rewrite Hsp, Hroot.
  rewrite bool_decide_eq_false_2.
  2:{ intros Hin. apply Hout. right. apply parents_descendant, Hin. }
  rewrite bool_decide_eq_true_2.
  2:{ intros Heq. apply Hout. left. exact Heq. }
  reflexivity.
Qed.

(** C1.  When the canonical path of [stacks_root / stack] is neither the
    canonical stacks root nor a strict descendant of it, [get_stack_path]
    raises the 400 error "invalid stack path"; the deployment then fails with
    status 400, whatever the request, and the state is left as it was: no
    external command is run. *)
Theorem stack_outside_root_is_rejected stack st sp root :
  path_resolve (world st) (joinpath (stacks_root settings) stack) = Return sp ->
  path_resolve_strict (world st) (stacks_root settings) = Return root ->
  ~ (sp = root \/ strict_descendant root sp) ->
  get_stack_path stack st =
    (Raise (HTTPException HTTP_400_BAD_REQUEST (py "invalid stack path")), st) /\
  (exists detail,
     perform_deploy stack st = (Raise (HTTPException HTTP_400_BAD_REQUEST detail), st)) /\
  (forall request res st',
     deploy_stack stack request st = (res, st') ->
     (exists e, res = Raise e) /\ executed st' = executed st).
Proof.
  intros Hsp Hroot Hout.
  pose proof (get_stack_path_outside _ _ _ _ Hsp Hroot Hout) as Hg.
  assert (Hd : exists detail,
     perform_deploy stack st = (Raise (HTTPException HTTP_400_BAD_REQUEST detail), st)).
  { unfold perform_deploy. unfold bind at 1.
    destruct (validate_stack_name_cases stack st) as [Hv|Hv]; rewrite Hv.
    - unfold bind at 1. rewrite Hg. eauto.
    - eauto. }
  split; [exact Hg|]. split; [exact Hd|].
  intros request res st' H. unfold deploy_stack in H.
  apply bind_inv in H. destruct H as [(raw & s1 & H1 & H) | (e & H1 & ->)].
  - assert (s1 = st).
    { destruct (body request); [|inversion H1; reflexivity].
      unfold lift in H1. inversion H1; reflexivity. }
    subst s1. apply bind_inv in H. destruct H as [(u & s2 & H2 & H) | (e & H2 & ->)].
    + apply verify_signature_pure in H2. subst s2.
      destruct Hd as [detail Hd]. rewrite Hd in H. inversion H; subst. eauto.
    + apply verify_signature_pure in H2. subst st'. eauto.
  - split; [eauto|]. destruct (body request); [|discriminate].
    unfold lift in H1. inversion H1; reflexivity.
Qed.

(** ** Rate limiter *)

Lemma rate_limiter_over_quota request next st now w1 :
  time_time (world st) = (now, w1) ->
  (rate_limit_per_min settings <= Z.of_nat (length (live_bucket st request now)))%Z ->
  rate_limiter request next st =
    (Return too_many_requests, with_bucket st w1 request (live_bucket st request now)).
Proof.
  intros Ht Hq. unfold rate_limiter, bind, act, get_bucket, set_bucket, ret.
  rewrite Ht. cbn [world request_buckets events executed].
  fold (client_key request). fold (live_bucket st request now).
  apply Z.leb_le in Hq.
  change (request_buckets st) with (request_buckets st).
  unfold live_bucket in *. rewrite Hq. reflexivity.
Qed.

Lemma rate_limiter_under_quota request next st now w1 :
  time_time (world st) = (now, w1) ->
  (Z.of_nat (length (live_bucket st request now)) < rate_limit_per_min settings)%Z ->
  rate_limiter request next st =
    next request (with_bucket st w1 request (live_bucket st request now ++ [now])).
Proof.
  intros Ht Hq. unfold rate_limiter, bind, act, get_bucket, set_bucket, ret.
  rewrite Ht. cbn [world request_buckets events executed].
  apply Z.leb_gt in Hq. unfold live_bucket, client_key in *. rewrite Hq. reflexivity.
Qed.

Lemma filter_all {A} (f : A -> bool) (l : list A) :
  Forall (fun x => f x = true) l -> List.filter f l = l.
Proof.
  induction 1 as [|x l Hx _ IH]; cbn; [reflexivity|]. rewrite Hx, IH. reflexivity.
Qed.

Lemma evict_sorted window_start bucket :
  StronglySorted Qle bucket ->
  evict window_start bucket = List.filter (fun t => Qle_bool window_start t) bucket.
Proof.
  induction 1 as [|t rest Hs IH Hall]; cbn; [reflexivity|].
  unfold Qltb. destruct (Qle_bool window_start t) eqn:Hw; cbn.
  - rewrite filter_all; [reflexivity|].
    eapply Forall_impl; [exact Hall|]. intros x Hx. cbn in Hx.
    apply Qle_bool_iff. apply Qle_bool_iff in Hw. eapply Qle_trans; eassumption.
  - exact IH.
Qed.

Lemma evict_suffix window_start bucket : evict window_start bucket `suffix_of` bucket.
Proof.
  induction bucket as [|t rest IH]; cbn; [reflexivity|].
  destruct (Qltb t window_start); [|reflexivity].
  apply suffix_cons_r, IH.
Qed.

Lemma sorted_suffix (l k : list Q) :
  l `suffix_of` k -> StronglySorted Qle k -> StronglySorted Qle l.
Proof.
  intros [pre ->]. induction pre as [|x pre IH]; cbn; [auto|].
  intros H. apply StronglySorted_inv in H. tauto.
Qed.

Lemma sorted_snoc (l : list Q) (x : Q) :
  StronglySorted Qle l -> Forall (fun t => Qle t x) l -> StronglySorted Qle (l ++ [x]).
Proof.
  induction 1 as [|t rest Hs IH Hall]; cbn; intros Hx.
  - constructor; constructor.
  - apply Forall_cons in Hx. destruct Hx as [Htx Hrest]. constructor; [apply IH, Hrest|].
    apply Forall_app. split; [exact Hall|]. constructor; [exact Htx | constructor].
Qed.

(** With a clock that does not run backwards the buckets stay in time
    order, so that eviction from the front removes exactly the timestamps
    before the window. *)
Lemma bucket_stays_sorted window_start bucket now :
  StronglySorted Qle bucket -> Forall (fun t => Qle t now) bucket ->
  StronglySorted Qle (evict window_start bucket ++ [now]).
Proof.
  intros Hs Hall. pose proof (evict_suffix window_start bucket) as Hsuf.
  apply sorted_snoc; [eapply sorted_suffix; eassumption|].
  destruct Hsuf as [pre Hpre]. rewrite Hpre in Hall. apply Forall_app in Hall. tauto.
Qed.

(** C6.  With the clock at [now], the rate limiter evicts from the front of
    the client's bucket the timestamps before [now - 60]; the request goes
    on to the next handler, its timestamp recorded at the end of the bucket,
    exactly when fewer than the quota remain, and is answered with status
    429 otherwise.  For a bucket in time order the timestamps that remain
    are exactly those within the window. *)
Theorem rate_limiter_sliding_window request next st now w1 :
  time_time (world st) = (now, w1) ->
  ((Z.of_nat (length (live_bucket st request now)) < rate_limit_per_min settings)%Z ->
     rate_limiter request next st =
       next request (with_bucket st w1 request (live_bucket st request now ++ [now]))) /\
  ((rate_limit_per_min settings <= Z.of_nat (length (live_bucket st request now)))%Z ->
     rate_limiter request next st =
       (Return (JSONResponse 429 (JObj [(py "detail", JStr (py "rate limit exceeded"))])),
        with_bucket st w1 request (live_bucket st request now))) /\
  (StronglySorted Qle (default [] (request_buckets st !! client_key request)) ->
     live_bucket st request now =
       List.filter (fun t => Qle_bool (now - 60) t)
                   (default [] (request_buckets st !! client_key request))).
Proof.
  intros Ht. split; [|split].
  - intros Hq. apply rate_limiter_under_quota; assumption.
  - intros Hq. apply (rate_limiter_over_quota request next st now w1 Ht Hq).
  - intros Hs. unfold live_bucket. apply evict_sorted, Hs.
Qed.

(** C10.  A request the rate limiter rejects records no timestamp: the
    client's bucket afterwards is the old one with only the timestamps before
    the window removed from its front, the buckets of other clients are as
    they were, and the next handler is not run. *)
Theorem rejected_request_records_nothing request next st now w1 res st' :
  time_time (world st) = (now, w1) ->
  (rate_limit_per_min settings <= Z.of_nat (length (live_bucket st request now)))%Z ->
  rate_limiter request next st = (res, st') ->
  res = Return too_many_requests /\
  request_buckets st' !! client_key request =
    Some (evict (now - 60) (default [] (request_buckets st !! client_key request))) /\
  evict (now - 60) (default [] (request_buckets st !! client_key request))
    `suffix_of` default [] (request_buckets st !! client_key request) /\
  (forall other, other <> client_key request ->
     request_buckets st' !! other = request_buckets st !! other) /\
  executed st' = executed st /\ events st' = events st.
Proof.
  intros Ht Hq H. rewrite (rate_limiter_over_quota request next st now w1 Ht Hq) in H.
  inversion H; subst; clear H. split; [reflexivity|].
  unfold with_bucket. cbn [request_buckets executed events].
  split; [apply lookup_insert_eq|]. split; [apply evict_suffix|].
  split; [|auto]. intros other Ho. apply lookup_insert_ne. congruence.
Qed.

(** ** Signatures *)

Lemma hex_digit_ascii n : n < 16 -> hex_digit n < 128.
Proof. intros H. unfold hex_digit. destruct (n <? 10); lia. Qed.

Lemma hex_digit_not_space n : n < 16 -> isspace (hex_digit n) = false.
Proof.
  intros H. destruct (isspace (hex_digit n)) eqn:Es; [|reflexivity].
  apply isspace_range in Es. unfold hex_digit in Es.
  destruct (N.ltb_spec n 10); lia.
Qed.

Lemma hexdigest_chars d :
  Forall (fun c => c < 128 /\ isspace c = false) (hexdigest d).
Proof.
  unfold hexdigest. induction d as [|b d IH]; cbn [flat_map]; [constructor|].
  pose proof (Byte.to_N_bounded b) as Hb.
  assert (H1 : Byte.to_N b / 16 < 16) by (apply N.Div0.div_lt_upper_bound; lia).
  assert (H2 : Byte.to_N b mod 16 < 16) by (apply N.mod_lt; lia).
  cbn [List.app]. repeat constructor;
    auto using hex_digit_ascii, hex_digit_not_space.
Qed.

Lemma hexdigest_isascii d : isascii (hexdigest d) = true.
Proof.
  unfold isascii. apply forallb_forall. intros c Hc.
  pose proof (hexdigest_chars d) as H. rewrite Forall_forall in H.
  apply N.ltb_lt. apply H. apply list_elem_of_In. exact Hc.
Qed.

Lemma lstrip_head s :
  match s with [] => True | c :: _ => isspace c = false end -> lstrip s = s.
Proof. destruct s as [|c s]; cbn; [reflexivity|]. intros ->. reflexivity. Qed.

Lemma strip_no_space s : Forall (fun c => isspace c = false) s -> strip s = s.
Proof.
  intros H. unfold strip, rstrip.
  rewrite (lstrip_head s) by (destruct H; auto).
  rewrite (lstrip_head (rev s)); [apply rev_involutive|].
  assert (Hr : Forall (fun c => isspace c = false) (rev s)).
  { apply Forall_forall. intros c Hc. rewrite Forall_forall in H. apply H.
    apply list_elem_of_In. apply list_elem_of_In in Hc. apply in_rev. exact Hc. }
  destruct Hr; auto.
Qed.

Lemma strip_hexdigest d : strip (hexdigest d) = hexdigest d.
Proof.
  apply strip_no_space. eapply Forall_impl; [apply hexdigest_chars|].
  intros c [_ Hc]. exact Hc.
Qed.

Lemma round_length s kw : length (Sha256.round s kw) = length s.
Proof.
  unfold Sha256.round.
  destruct s as [|a [|b [|c [|d [|e [|f [|g [|h [|i s]]]]]]]]]; reflexivity.
Qed.

Lemma rounds_length kws s : length (fold_left Sha256.round kws s) = length s.
Proof.
  revert s. induction kws as [|kw kws IH]; intros s; cbn; [reflexivity|].
  rewrite IH. apply round_length.
Qed.

Lemma compress_length h block : length (Sha256.compress h block) = length h.
Proof.
  unfold Sha256.compress. rewrite length_map, length_combine, rounds_length. lia.
Qed.

Lemma digest_length msg : length (Sha256.digest msg) = 32%nat.
Proof.
  unfold Sha256.digest.
  set (bl := Sha256.blocks _ _).
  assert (Hh : length (fold_left Sha256.compress bl Sha256.H0) = 8%nat).
  { generalize Sha256.H0 (eq_refl : length Sha256.H0 = 8%nat). clearbody bl.
    induction bl as [|b bl IH]; intros h Hh; cbn; [exact Hh|].
    apply IH. rewrite compress_length. exact Hh. }
  destruct (fold_left Sha256.compress bl Sha256.H0)
    as [|a [|b [|c [|d [|e [|f [|g [|h [|i s]]]]]]]]]; try discriminate.
  reflexivity.
Qed.

Lemma compute_signature_nonempty data : compute_signature data <> [].
Proof.
  unfold compute_signature, hmac_sha256, sha256, hexdigest.
  set (inner := map _ _ ++ _). intros H. apply (f_equal length) in H.
  pose proof (digest_length (map Byte.to_N inner)) as Hl.
  destruct (Sha256.digest (map Byte.to_N inner)) as [|x l]; [discriminate|].
  discriminate.
Qed.

Lemma verify_signature_missing data st :
  verify_signature [] data st =
    (Raise (HTTPException HTTP_401_UNAUTHORIZED (py "missing signature")), st).
Proof. reflexivity. Qed.

Lemma verify_signature_accepts hdr data st :
  hdr <> [] -> strip hdr = compute_signature data ->
  verify_signature hdr data st = (Return tt, st).
Proof.
  intros Hne Hs. unfold verify_signature. destruct hdr as [|c hdr]; [congruence|].
  unfold bind, lift, compare_digest. rewrite Hs.
  unfold compute_signature. rewrite hexdigest_isascii. cbn [andb].
  rewrite bool_decide_eq_true_2 by reflexivity. reflexivity.
Qed.

Lemma verify_signature_rejects hdr data st :
  hdr <> [] -> isascii (strip hdr) = true -> strip hdr <> compute_signature data ->
  verify_signature hdr data st =
    (Raise (HTTPException HTTP_401_UNAUTHORIZED (py "invalid signature")), st).
Proof.
  intros Hne Ha Hs. unfold verify_signature. destruct hdr as [|c hdr]; [congruence|].
  unfold bind, lift, compare_digest.
  unfold compute_signature in *. rewrite hexdigest_isascii, Ha. cbn [andb].
  rewrite bool_decide_eq_false_2 by congruence. reflexivity.
Qed.

Lemma verify_signature_type_error hdr data st :
  hdr <> [] -> isascii (strip hdr) = false ->
  verify_signature hdr data st =
    (Raise (TypeError (py "comparing strings with non-ASCII characters is not supported")), st).
Proof.
  intros Hne Ha. unfold verify_signature. destruct hdr as [|c hdr]; [congruence|].
  unfold bind, lift, compare_digest. rewrite Ha, andb_false_r. reflexivity.
Qed.

(** Signing, then verifying. *)
Lemma verify_signature_of_signature data st :
  verify_signature (compute_signature data) data st = (Return tt, st).
Proof.
  apply verify_signature_accepts; [apply compute_signature_nonempty|].
  apply strip_hexdigest.
Qed.

(** ** Error responses *)

Lemma unhandled_exception_handler_answer exc st :
  exists st',
    unhandled_exception_handler exc st =
      (Return (JSONResponse HTTP_500_INTERNAL_SERVER_ERROR
                 (error_body (py "internal server error"))), st') /\
    executed st' = executed st /\ request_buckets st' = request_buckets st.
Proof.
  unfold unhandled_exception_handler, log_event, bind, act, ret.
  destruct (datetime_now (world st)) as [ts w]. eexists. split; [reflexivity|]. auto.
Qed.

(** An [HTTPException] raised by a handler is answered with its status and
    the body [{"ok": false, "detail": ...}]. *)
Lemma routes_http_exception request st status detail st1 :
  endpoint request st = (Raise (HTTPException status detail), st1) ->
  routes request st = (Return (JSONResponse status (error_body detail)), st1).
Proof. intros H. unfold routes, try_except. rewrite H. reflexivity. Qed.

(** C9.  A POST /deploy request that passes the rate limiter and carries a
    valid signature, and whose body parses as JSON to something other than an
    object, is answered with status 500 and the body
    [{"ok": false, "detail": "internal server error"}]; no command is run. *)
Theorem non_object_payload_is_internal_error request st now w1 hdr text payload :
  route request = DeployBody ->
  time_time (world st) = (now, w1) ->
  (Z.of_nat (length (live_bucket st request now)) < rate_limit_per_min settings)%Z ->
  x_signature request = Some hdr ->
  hdr <> [] ->
  strip hdr = compute_signature (body request) ->
  bytes_decode (body request) = Return text ->
  json_loads (match text with [] => py "{}" | _ => text end) = Return payload ->
  (forall fields, payload <> JObj fields) ->
  exists st',
    app request st =
      (Return (JSONResponse 500
                 (JObj [(py "ok", JBool false);
                        (py "detail", JStr (py "internal server error"))])), st') /\
    executed st' = executed st.
Proof.
  intros Hroute Ht Hq Hx Hne Hsig Hdec Hjson Hobj.
  unfold app, try_except.
  rewrite (rate_limiter_under_quota request routes st now w1 Ht Hq).
  set (st1 := with_bucket st w1 request (live_bucket st request now ++ [now])).
  assert (Hr : routes request st1 =
                 (Raise (AttributeError (py "object has no attribute 'get'")), st1)).
  { unfold routes, try_except, endpoint. rewrite Hroute.
    unfold deploy_body. unfold bind at 1. rewrite Hx.
    change (default [] (Some hdr)) with hdr.
    rewrite (verify_signature_accepts hdr (body request) st1 Hne Hsig).
    unfold bind at 1. unfold try_except, bind at 1, lift.
    rewrite Hdec, Hjson. unfold bind at 1.
    destruct payload; try reflexivity. exfalso. eapply Hobj. reflexivity. }
  rewrite Hr.
  destruct (unhandled_exception_handler_answer
              (AttributeError (py "object has no attribute 'get'")) st1)
    as (st' & Hu & He & _).
  exists st'. split; [exact Hu|]. rewrite He. reflexivity.
Qed.

(** ** Redaction *)

(** The runner redacts the combined output and only then keeps its last
    2000 characters.  When the output starts with a line
    [key sep value] (optional white space before the key and around the
    separator), where [key] is a token without white space, [:] or [=] that
    contains one of the six words in any case, [sep] is [:] or [=], and
    [value] is not empty, starts with a character that is not white space and
    holds no line break, the redacted text is [key: ***] followed by the
    redaction of what comes after the line. *)
Theorem runner_redacts_leading_keyed_line
    name args cwd timeout env st t0 w1 proc w2
    (lead a m b ws1 ws2 value post : str) (sep : N) :
  time_time (world st) = (t0, w1) ->
  subprocess_run args cwd timeout (child_env env w1) w1 = (Return proc, w2) ->
  stdout proc ++ stderr proc =
    lead ++ (a ++ m ++ b) ++ ws1 ++ sep :: ws2 ++ value ++ post ->
  Forall (fun c => isspace c = true) lead ->
  Forall (fun c => token_char c = true) a ->
  In (map lower_fold m) KEYWORDS ->
  Forall (fun c => token_char c = true) b ->
  Forall (fun c => isspace c = true) ws1 ->
  is_sep sep = true ->
  Forall (fun c => isspace c = true) ws2 ->
  Forall (fun c => is_nl c = false) value ->
  match value with [] => False | c :: _ => isspace c = false end ->
  match post with [] => True | c :: _ => is_nl c = true end ->
  exists r st',
    run_command_env name args cwd timeout env st = (Return r, st') /\
    tail r = last_chars 2000 (sanitize_output (stdout proc ++ stderr proc)) /\
    sanitize_output (stdout proc ++ stderr proc) =
      (a ++ m ++ b) ++ py ": ***" ++ sanitize_from (last_or (Some sep) value) post.
Proof.
  intros Ht Hp Hout Hlead Ha Hm Hb Hw1 Hsep Hw2 Hvalue Hv0 Hpost.
  destruct (run_command_env_completed name args cwd timeout env st t0 w1 proc w2 Ht Hp)
    as (d & st' & Hrun).
  exists (completed_step name proc d), st'. split; [exact Hrun|]. split; [reflexivity|].
  rewrite Hout. unfold sanitize_output.
  apply sanitize_keyed_line; auto.
Qed.

(** X17.  The same in the middle of the output.  Let the output hold, at the
    start of a line that no earlier match of the pattern reaches, a keyed
    line as above.  Then the redacted text is what comes before the line,
    unchanged, then [key: ***], then the redaction of what comes after the
    line. *)
Theorem runner_redacts_keyed_line
    name args cwd timeout env st t0 w1 proc w2
    (pre lead a m b ws1 ws2 value post : str) (sep : N) :
  time_time (world st) = (t0, w1) ->
  subprocess_run args cwd timeout (child_env env w1) w1 = (Return proc, w2) ->
  stdout proc ++ stderr proc =
    pre ++ lead ++ (a ++ m ++ b) ++ ws1 ++ sep :: ws2 ++ value ++ post ->
  unmatched_before None pre
    (lead ++ (a ++ m ++ b) ++ ws1 ++ sep :: ws2 ++ value ++ post) = true ->
  at_bol (last_or None pre) = true ->
  Forall (fun c => isspace c = true) lead ->
  Forall (fun c => token_char c = true) a ->
  In (map lower_fold m) KEYWORDS ->
  Forall (fun c => token_char c = true) b ->
  Forall (fun c => isspace c = true) ws1 ->
  is_sep sep = true ->
  Forall (fun c => isspace c = true) ws2 ->
  Forall (fun c => is_nl c = false) value ->
  match value with [] => False | c :: _ => isspace c = false end ->
  match post with [] => True | c :: _ => is_nl c = true end ->
  exists r st',
    run_command_env name args cwd timeout env st = (Return r, st') /\
    tail r = last_chars 2000 (sanitize_output (stdout proc ++ stderr proc)) /\
    sanitize_output (stdout proc ++ stderr proc) =
      pre ++ (a ++ m ++ b) ++ py ": ***" ++ sanitize_from (last_or (Some sep) value) post.
Proof.
  intros Ht Hp Hout Hpre Hbol Hlead Ha Hm Hb Hw1 Hsep Hw2 Hvalue Hv0 Hpost.
  destruct (run_command_env_completed name args cwd timeout env st t0 w1 proc w2 Ht Hp)
    as (d & st' & Hrun).
  exists (completed_step name proc d), st'. split; [exact Hrun|]. split; [reflexivity|].
  rewrite Hout. unfold sanitize_output.
  rewrite (sanitize_unmatched None pre _ Hpre). f_equal.
  apply sanitize_keyed_line; auto.
Qed.

End Properties.

(** * Worked examples on the scripted world *)

(** ** Hashing: published test vectors *)

Example sha256_abc :
  hexdigest (sha256 (list_byte_of_string "abc")) =
  py "ba7816bf8f01cfea414140de5dae2223b00361a396177a9cb410ff61f20015ad".
Proof. vm_compute. reflexivity. Qed.

Example sha256_two_blocks :
  hexdigest (sha256 (list_byte_of_string
    "abcdbcdecdefdefgefghfghighijhijkijkljklmklmnlmnomnopnopq")) =
  py "248d6a61d20638b8e5c026930c3e6039a33ce45964ff2167f6ecedd419db06c1".
Proof. vm_compute. reflexivity. Qed.

Example hmac_rfc4231_case2 :
  hexdigest (hmac_sha256 (list_byte_of_string "Jefe")
                         (list_byte_of_string "what do ya want for nothing?")) =
  py "5bdcc146bf60754e6a042426089575c75a003f089d2739839dec58b964ec3843".
Proof. vm_compute. reflexivity. Qed.

(** ** Stack resolution *)

Lemma stack_outside_root_witness :
  @get_stack_path demo (py "evil") (demo_state [] [] ∅) =
    (Raise (HTTPException 400 (py "invalid stack path")), demo_state [] [] ∅) /\
  exists detail,
    @perform_deploy demo (py "evil") (demo_state [] [] ∅) =
      (Raise (HTTPException 400 detail), demo_state [] [] ∅).
Proof.
  destruct (@stack_outside_root_is_rejected demo (py "evil") (demo_state [] [] ∅)
              [py "/"; py "etc"] [py "/"; py "stacks"]) as (H1 & H2 & _).
  - vm_compute. reflexivity.
  - vm_compute. reflexivity.
  - intros [H | (rest & _ & H)]; vm_compute in H; discriminate.
  - split; [exact H1 | exact H2].
Defined.

(** ** Redaction *)

Example redaction_of_the_sample_line :
  sanitize_output (py "DB_PASSWORD: supersecret123") = py "DB_PASSWORD: ***".
Proof. vm_compute. reflexivity. Qed.

(** A line whose first token holds none of the words is left as it is. *)
Example redaction_needs_the_word_in_the_first_token :
  sanitize_output (py "export DB_PASSWORD=supersecret123") =
  py "export DB_PASSWORD=supersecret123".
Proof. vm_compute. reflexivity. Qed.

Lemma runner_redacts_leading_keyed_line_witness :
  exists r st',
    @run_command_env demo (py "config") [py "docker"; py "compose"; py "config"]
      [py "/"; py "stacks"; py "web"] 120 None
      (demo_state [0%Q; 1%Q] [exits 0 (py "DB_PASSWORD: supersecret123" ++ [10] ++ py "done")] ∅)
    = (Return r, st') /\
    tail r = py "DB_PASSWORD: ***" ++ [10] ++ py "done".
Proof.
  destruct (@runner_redacts_leading_keyed_line demo
              (py "config") [py "docker"; py "compose"; py "config"]
              [py "/"; py "stacks"; py "web"] 120%Z None
              (demo_state [0%Q; 1%Q]
                 [exits 0 (py "DB_PASSWORD: supersecret123" ++ [10] ++ py "done")] ∅)
              0%Q (demo_world [1%Q] [exits 0 (py "DB_PASSWORD: supersecret123" ++ [10] ++ py "done")])
              {| returncode := 0; stdout := py "DB_PASSWORD: supersecret123" ++ [10] ++ py "done";
                 stderr := [] |}
              (demo_world [1%Q] [])
              [] (py "DB_") (py "PASSWORD") [] [] [32] (py "supersecret123")
              ([10] ++ py "done") 58)
    as (r & st' & Hrun & Htail & Hsan).
  - vm_compute. reflexivity.
  - vm_compute. reflexivity.
  - vm_compute. reflexivity.
  - constructor.
  - vm_compute. repeat constructor.
  - vm_compute. tauto.
  - constructor.
  - constructor.
  - vm_compute. reflexivity.
  - vm_compute. repeat constructor.
  - vm_compute. repeat constructor.
  - vm_compute. reflexivity.
  - vm_compute. reflexivity.
  - exists r, st'. split; [exact Hrun|]. rewrite Htail, Hsan. vm_compute. reflexivity.
Defined.

Lemma runner_redacts_keyed_line_witness :
  exists r st',
    @run_command_env demo (py "config") [py "docker"; py "compose"; py "config"]
      [py "/"; py "stacks"; py "web"] 120 None
      (demo_state [0%Q; 1%Q] [exits 0 demo_config_output] ∅)
    = (Return r, st') /\
    tail r = py "name: web" ++ [10] ++ py "DB_PASSWORD: ***" ++ [10] ++ py "done".
Proof.
  destruct (@runner_redacts_keyed_line demo
              (py "config") [py "docker"; py "compose"; py "config"]
              [py "/"; py "stacks"; py "web"] 120%Z None
              (demo_state [0%Q; 1%Q] [exits 0 demo_config_output] ∅)
              0%Q (demo_world [1%Q] [exits 0 demo_config_output])
              {| returncode := 0; stdout := demo_config_output; stderr := [] |}
              (demo_world [1%Q] [])
              (py "name: web" ++ [10]) (py "  ") (py "DB_") (py "PASSWORD") [] [] [32]
              (py "supersecret123") ([10] ++ py "done") 58)
    as (r & st' & Hrun & Htail & Hsan).
  - vm_compute. reflexivity.
  - vm_compute. reflexivity.
  - vm_compute. reflexivity.
  - vm_compute. reflexivity.
  - vm_compute. reflexivity.
  - vm_compute. repeat constructor.
  - vm_compute. repeat constructor.
  - vm_compute. tauto.
  - constructor.
  - constructor.
  - vm_compute. reflexivity.
  - vm_compute. repeat constructor.
  - vm_compute. repeat constructor.
  - vm_compute. reflexivity.
  - vm_compute. reflexivity.
  - exists r, st'. split; [exact Hrun|]. rewrite Htail, Hsan. vm_compute. reflexivity.
Defined.

(** White space after the separator may run over a line break.  The second
    line below is a keyed line, yet the match of the first line takes it as
    the value of [TOKEN]: it is redacted with the first line, under the key of
    the first line. *)
Lemma keyed_line_after_bare_separator_loses_its_key :
  keyed_line (py "DB_PASSWORD") (py "supersecret123") (py "DB_PASSWORD: supersecret123") /\
  last_chars TAIL_LIMIT
    (sanitize_output (py "TOKEN=" ++ [10] ++ py "DB_PASSWORD: supersecret123"))
    = py "TOKEN: ***" /\
  ~ (exists pre post,
       sanitize_output (py "TOKEN=" ++ [10] ++ py "DB_PASSWORD: supersecret123")
       = pre ++ py "DB_PASSWORD" ++ py ": ***" ++ post).
Proof.
  split; [|split].
  - exists (py "DB_"), (py "PASSWORD"), [], 58, [32].
    vm_compute. repeat split; try tauto; repeat constructor.
  - vm_compute. reflexivity.
  - intros (pre & post & H).
    assert (E : sanitize_output (py "TOKEN=" ++ [10] ++ py "DB_PASSWORD: supersecret123")
                = py "TOKEN: ***") by (vm_compute; reflexivity).
    rewrite E in H. apply (f_equal length) in H. rewrite !length_app in H.
    change (length (py "TOKEN: ***")) with 10%nat in H.
    change (length (py "DB_PASSWORD")) with 11%nat in H. lia.
Qed.

(** ** The deployment sequence *)

(** Status lists one service, config fails: two steps run, two steps
    reported. *)
Definition demo_failed_config : @AppState demo :=
  demo_state [0%Q; 1%Q; 1%Q; 2%Q] [exits 0 (py "web" ++ [10]); exits 1 (py "invalid compose file")] ∅.


Example deploy_with_failed_config :
  (@perform_deploy demo (py "web") demo_failed_config).1 =
    Return (JSONResponse 500
      (envelope false (py "web")
         [{| name := py "status"; ok := true; exit_code := Some 0%Z; duration_ms := 1000;
             tail := py "web" ++ [10] |};
          {| name := py "config"; ok := false; exit_code := Some 1%Z; duration_ms := 1000;
             tail := py "invalid compose file" |}]
         demo_now demo_now)).
Proof. vm_compute. reflexivity. Qed.

(** Status, config, pull and up all exit with 0. *)
Example deploy_succeeds :
  (@perform_deploy demo (py "web")
     (demo_state [0%Q; 1%Q; 1%Q; 2%Q; 2%Q; 3%Q; 3%Q; 4%Q]
        [exits 0 (py "web" ++ [10]); exits 0 []; exits 0 []; exits 0 []] ∅)).1 =
    Return (JSONResponse 200
      (envelope true (py "web")
         (map (fun n => {| name := n; ok := true; exit_code := Some 0%Z; duration_ms := 1000;
                           tail := if bool_decide (n = py "status") then py "web" ++ [10]
                                   else [] |}) STEP_NAMES)
         demo_now demo_now)).
Proof. vm_compute. reflexivity. Qed.

(** The status command succeeds and prints nothing. *)
Definition demo_idle : @AppState demo :=
  demo_state [0%Q; 1%Q] [exits 0 []; exits 0 []] ∅.

Lemma idle_stack_aborts_deploy_witness :
  exists d started_at finished_at,
    (@perform_deploy demo (py "web") demo_idle).1 =
      Return (JSONResponse 500
                (envelope false (py "web")
                   [{| name := py "status"; ok := false; exit_code := Some 0%Z;
                       duration_ms := d; tail := NO_SERVICES |}]
                   started_at finished_at)).
Proof.
  destruct (@idle_stack_aborts_deploy demo (py "web") demo_idle
              (@perform_deploy demo (py "web") demo_idle).1
              (@perform_deploy demo (py "web") demo_idle).2
              (demo_status_call (exits 0 [])) []
              {| returncode := 0; stdout := []; stderr := [] |})
    as (_ & _ & d & t0 & t1 & H).
  - vm_compute. reflexivity.
  - vm_compute. reflexivity.
  - reflexivity.
  - reflexivity.
  - vm_compute. reflexivity.
  - exists d, t0, t1. exact H.
Defined.

(** The config command runs into its timeout. *)
Definition demo_config_timeout : @AppState demo :=
  demo_state [0%Q; 1%Q; 1%Q; 121%Q]
    [exits 0 (py "web" ++ [10]); Raise (TimeoutExpired (py "timed out after 120 seconds"))] ∅.


(** ** Rate limiter *)

Definition demo_health : Request := demo_request Health None [].

(** Three requests within the window have been recorded. *)
Definition demo_full : @AppState demo :=
  demo_state [70%Q] [] {[ demo_client := [20%Q; 30%Q; 50%Q] ]}.

(** The oldest of the three recorded requests has left the window. *)
Definition demo_room : @AppState demo :=
  demo_state [70%Q] [] {[ demo_client := [0%Q; 30%Q; 50%Q] ]}.

Lemma rate_limiter_sliding_window_witness :
  @rate_limiter demo demo_health routes demo_room =
    @routes demo demo_health
      (with_bucket demo_room (demo_world [] []) demo_health [30%Q; 50%Q; 70%Q]) /\
  @rate_limiter demo demo_health routes demo_full =
    (Return (JSONResponse 429 (JObj [(py "detail", JStr (py "rate limit exceeded"))])),
     with_bucket demo_full (demo_world [] []) demo_health [20%Q; 30%Q; 50%Q]) /\
  live_bucket demo_room demo_health 70%Q = [30%Q; 50%Q].
Proof.
  split; [|split].
  - destruct (@rate_limiter_sliding_window demo demo_health routes demo_room 70%Q
                (demo_world [] [])) as (H & _ & _).
    + vm_compute. reflexivity.
    + apply H. vm_compute. reflexivity.
  - destruct (@rate_limiter_sliding_window demo demo_health routes demo_full 70%Q
                (demo_world [] [])) as (_ & H & _).
    + vm_compute. reflexivity.
    + apply H. apply Z.leb_le. vm_compute. reflexivity.
  - destruct (@rate_limiter_sliding_window demo demo_health routes demo_room 70%Q
                (demo_world [] [])) as (_ & _ & H).
    + vm_compute. reflexivity.
    + rewrite H; [vm_compute; reflexivity|].
      replace (default [] (request_buckets demo_room !! client_key demo_health))
        with [0%Q; 30%Q; 50%Q] by (vm_compute; reflexivity).
      repeat constructor; vm_compute; discriminate.
Defined.

(** Quota 3: three requests in the same window pass, the fourth is refused,
    and a request after the window has gone by passes again. *)
Example rate_limit_scenario :
  let serve st := (@app demo demo_health st).2 in
  let code st := match (@app demo demo_health st).1 with
                 | Return r => status_code r
                 | Raise _ => 0%Z
                 end in
  let s0 := demo_state [0%Q; 1%Q; 2%Q; 3%Q; 100%Q] [] ∅ in
  let s1 := serve s0 in
  let s2 := serve s1 in
  let s3 := serve s2 in
  let s4 := serve s3 in
  [code s0; code s1; code s2; code s3; code s4] = [200; 200; 200; 429; 200]%Z /\
  request_buckets (serve s4) !! demo_client = Some [100%Q].
Proof. vm_compute. split; reflexivity. Qed.

Lemma rejected_request_records_nothing_witness :
  request_buckets (@rate_limiter demo demo_health routes demo_full).2 !! demo_client =
    Some [20%Q; 30%Q; 50%Q] /\
  executed (@rate_limiter demo demo_health routes demo_full).2 = [].
Proof.
  destruct (@rejected_request_records_nothing demo demo_health routes demo_full 70%Q
              (demo_world [] [])
              (@rate_limiter demo demo_health routes demo_full).1
              (@rate_limiter demo demo_health routes demo_full).2)
    as (_ & H1 & _ & _ & H2 & _).
  - vm_compute. reflexivity.
  - apply Z.leb_le. vm_compute. reflexivity.
  - vm_compute. reflexivity.
  - split; [exact H1 | exact H2].
Defined.

(** ** Error responses *)

(** C8.  The body of the 429 response of the rate limiter has no ["ok"]
    field: it is not of the shape [{"ok": false, "detail": ...}] that the
    [HTTPException] handler and the handler for other exceptions give to
    their responses. *)
Lemma rate_limited_response_lacks_ok_field :
  (@app demo demo_health demo_full).1 =
    Return (JSONResponse 429 (JObj [(py "detail", JStr (py "rate limit exceeded"))])) /\
  ~ (exists detail,
       (@app demo demo_health demo_full).1 = Return (JSONResponse 429 (error_body detail))).
Proof.
  split; [vm_compute; reflexivity|].
  intros (detail & H). vm_compute in H. discriminate.
Qed.

(** A POST /deploy whose signed body is the JSON array [[]]. *)
Definition demo_array_body : bytes := list_byte_of_string "[]".

Definition demo_array_request : Request :=
  demo_request DeployBody
    (Some (py "8bc8e4c8306d78a58772d88924a0df91fae0bf496c48b087e5069f2cb16941b6"))
    demo_array_body.

Lemma non_object_payload_is_internal_error_witness :
  exists st',
    @app demo demo_array_request (demo_state [5%Q] [] ∅) =
      (Return (JSONResponse 500
                 (JObj [(py "ok", JBool false);
                        (py "detail", JStr (py "internal server error"))])), st') /\
    executed st' = [].
Proof.
  apply (@non_object_payload_is_internal_error demo demo_array_request
           (demo_state [5%Q] [] ∅) 5%Q (demo_world [] [])
           (py "8bc8e4c8306d78a58772d88924a0df91fae0bf496c48b087e5069f2cb16941b6")
           (py "[]") (JArr [])).
  - reflexivity.
  - vm_compute. reflexivity.
  - vm_compute. reflexivity.
  - reflexivity.
  - discriminate.
  - vm_compute. reflexivity.
  - vm_compute. reflexivity.
  - vm_compute. reflexivity.
  - discriminate.
Defined.

(** ** Signatures *)

Example signature_of_the_stack_name :
  @compute_signature demo (list_byte_of_string "web") =
  py "b3aa2943f27894fbf5ed770142f292f10e85f60c8dce05e150fdbeaaf97f225a".
Proof. vm_compute. reflexivity. Qed.

(** The signature of a body does not verify a body with one byte changed. *)
Example signature_of_another_body :
  @verify_signature demo
    (py "b3aa2943f27894fbf5ed770142f292f10e85f60c8dce05e150fdbeaaf97f225a")
    (list_byte_of_string "wec") (demo_state [] [] ∅) =
  (Raise (HTTPException 401 (py "invalid signature")), demo_state [] [] ∅).
Proof. vm_compute. reflexivity. Qed.

(** C3.  A signature header with a character outside ASCII (here U+00E9)
    differs from the HMAC of the body, yet [hmac.compare_digest] raises on
    it: the request is answered with status 500, not 401. *)
Lemma non_ascii_signature_is_internal_error :
  @verify_signature demo [233] demo_array_body (demo_state [5%Q] [] ∅) =
    (Raise (TypeError (py "comparing strings with non-ASCII characters is not supported")),
     demo_state [5%Q] [] ∅) /\
  (@app demo (demo_request DeployBody (Some [233]) demo_array_body)
     (demo_state [5%Q] [] ∅)).1 =
    Return (JSONResponse 500 (error_body (py "internal server error"))).
Proof. split; vm_compute; reflexivity. Qed.

(** * Further properties of the module *)

Section Further.
Context {E : Env}.

(** ** Stack names *)

Lemma span_class (p : N -> bool) (s : str) :
  exists run rest, s = run ++ rest /\ Forall (fun c => p c = true) run /\ stops p rest.
Proof.
  induction s as [|c s IH].
  - exists [], []. repeat split. constructor.
  - destruct (p c) eqn:Hc.
    + destruct IH as (run & rest & -> & Hrun & Hrest).
      exists (c :: run), rest. repeat split; [constructor; assumption | exact Hrest].
    + exists [], (c :: s). repeat split; [constructor | exact Hc].
Qed.

Lemma stack_name_char_not_lf c : stack_name_char c = true -> c <> 10.
Proof. intros H ->. discriminate. Qed.

Lemma stack_name_re_matches name :
  (exists m, match_at STACK_NAME_RE None name = Some m) <->
  exists run, run <> [] /\ Forall (fun c => stack_name_char c = true) run /\
              (name = run \/ name = run ++ [10]).
Proof.
  unfold match_at, STACK_NAME_RE.
  cbn [rmatch m_prev m_rest m_groups at_bos]. split.
  - intros [m0 H]. destruct name as [|c s]; [discriminate|].
    destruct (stack_name_char c) eqn:Hc; [|discriminate].
    destruct (span_class stack_name_char s) as (run & rest & -> & Hrun & Hrest).
    apply star_greedy_some in H; [|exact Hrun|exact Hrest].
    destruct H as (j & Hj & Hk). unfold split_state in Hk. cbn [rmatch m_rest] in Hk.
    destruct (at_eos (drop j run ++ rest)) eqn:He; [|discriminate].
    assert (Hjr : drop j run = []).
    { destruct (drop j run) as [|d r] eqn:Hd; [reflexivity|]. exfalso.
      assert (Hin : Forall (fun c => stack_name_char c = true) (drop j run))
        by (apply Forall_drop, Hrun).
      rewrite Hd in Hin. inversion Hin as [|? ? Hd1 Hr1]; subst.
      cbn in He. destruct (r ++ rest) as [|d' r'] eqn:Hrr.
      - apply N.eqb_eq in He. subst d. discriminate.
      - discriminate. }
    rewrite Hjr in He. cbn [List.app] in He.
    exists (c :: run). split; [discriminate|]. split; [constructor; assumption|].
    destruct rest as [|d [|d' rest]]; cbn in He.
    + left. rewrite app_nil_r. reflexivity.
    + right. apply N.eqb_eq in He. subst d. reflexivity.
    + discriminate.
  - intros (run & Hne & Hrun & Hname).
    destruct run as [|c run]; [congruence|]. inversion Hrun as [|? ? Hc Hrun']; subst.
    assert (Hgo : forall tl, at_eos tl = true -> stops stack_name_char tl ->
              exists m,
                (if stack_name_char c
                 then star_greedy stack_name_char
                        (fun st0 => if at_eos (m_rest st0) then Some st0 else None)
                        (Some c) [] (run ++ tl)
                 else None) = Some m).
    { intros tl He Hs. rewrite Hc. eexists.
      apply star_greedy_all; [exact Hrun' | exact Hs |].
      cbn [m_rest]. rewrite He. reflexivity. }
    destruct Hname as [-> | ->].
    + specialize (Hgo [] eq_refl I). rewrite app_nil_r in Hgo. exact Hgo.
    + apply (Hgo [10] eq_refl eq_refl).
Qed.

Lemma stack_name_rejected name :
  name = [] \/ (exists c, In c name /\ stack_name_char c = false /\ c <> 10) ->
  match_at STACK_NAME_RE None name = None.
Proof.
  intros H. destruct (match_at STACK_NAME_RE None name) as [m|] eqn:Hm; [|reflexivity].
  exfalso. assert (Hex : exists m, match_at STACK_NAME_RE None name = Some m) by eauto.
  apply stack_name_re_matches in Hex. destruct Hex as (run & Hne & Hrun & Hname).
  destruct H as [-> | (c & Hin & Hc & Hlf)].
  - destruct Hname as [Hn | Hn]; destruct run; try congruence; discriminate.
  - rewrite Forall_forall in Hrun.
    assert (Hcase : In c run \/ c = 10).
    { destruct Hname as [-> | ->]; [auto|]. apply in_app_or in Hin.
      destruct Hin as [Hin | [Hin | []]]; auto. }
    destruct Hcase as [Hin' | ->]; [|congruence].
    apply list_elem_of_In, Hrun in Hin'. congruence.
Qed.

(** X1.  [validate_stack_name] accepts exactly the names made of one or more
    characters of [A-Za-z0-9_-], optionally followed by a single final line
    feed (which [$] lets through); it returns the name as it is and leaves
    the state alone.  Every other name raises the 400 error
    "invalid stack name". *)
Theorem validate_stack_name_accepts_exactly name st :
  (validate_stack_name name st = (Return name, st) <->
   exists run, run <> [] /\ Forall (fun c => stack_name_char c = true) run /\
               (name = run \/ name = run ++ [10])) /\
  (validate_stack_name name st = (Return name, st) \/
   validate_stack_name name st =
     (Raise (HTTPException 400 (py "invalid stack name")), st)).
Proof.
  split; [|apply validate_stack_name_cases].
  rewrite <- stack_name_re_matches. unfold validate_stack_name.
  destruct (match_at STACK_NAME_RE None name) as [m|]; split.
  - eauto.
  - reflexivity.
  - discriminate.
  - intros [m H]. discriminate.
Qed.

(** X2.  A name that is empty, or holds a character outside [A-Za-z0-9_-]
    other than a line feed (a slash or a dot, say), never reaches the file
    system: [perform_deploy] raises the 400 error "invalid stack name" and
    the state is as before, whatever the stacks root holds. *)
Theorem invalid_name_stops_deploy name st :
  name = [] \/ (exists c, In c name /\ stack_name_char c = false /\ c <> 10) ->
  perform_deploy name st =
    (Raise (HTTPException 400 (py "invalid stack name")), st).
Proof.
  intros H. apply stack_name_rejected in H.
  unfold perform_deploy, bind, validate_stack_name. rewrite H. reflexivity.
Qed.

(** ** Stack resolution: what a returned path guarantees *)

(** X3.  A path returned by [get_stack_path] is the canonical path of
    [stacks_root / stack]; it is the canonical stacks root or a strict
    descendant of it, it exists, is a directory and holds a file
    [docker-compose.yml]; the state is as before. *)
Theorem get_stack_path_returns_contained_stack stack st p st' :
  get_stack_path stack st = (Return p, st') ->
  st' = st /\
  path_resolve (world st) (joinpath (stacks_root settings) stack) = Return p /\
  (exists root,
     path_resolve_strict (world st) (stacks_root settings) = Return root /\
     (p = root \/ strict_descendant root p)) /\
  path_exists (world st) p = true /\
  path_is_dir (world st) p = true /\
  path_exists (world st) (joinpath p (py "docker-compose.yml")) = true.
Proof.
  unfold get_stack_path, bind, try_except, ask, raise, ret.
  destruct (path_resolve (world st) (joinpath (stacks_root settings) stack)) as [sp|e];
    [|discriminate].
  destruct (path_resolve_strict (world st) (stacks_root settings)) as [root|e].
  2:{ destruct e; discriminate. }
  destruct (bool_decide (root ∈ parents sp)) eqn:Hin; cbn [negb andb].
  - destruct (path_exists (world st) sp) eqn:Hex; cbn [negb orb]; [|discriminate].
    destruct (path_is_dir (world st) sp) eqn:Hd; cbn [negb]; [|discriminate].
    destruct (path_exists (world st) (joinpath sp (py "docker-compose.yml"))) eqn:Hc;
      cbn [negb]; [|discriminate].
    intros H. inversion H; subst. repeat split; auto.
    exists root. split; [reflexivity|]. right.
    apply parents_descendant. apply bool_decide_eq_true_1 in Hin. exact Hin.
  - destruct (bool_decide (sp <> root)) eqn:Hne; [discriminate|].
    apply bool_decide_eq_false_1 in Hne.
    assert (Heq : sp = root) by (destruct (decide (sp = root)); [assumption | contradiction]).
    destruct (path_exists (world st) sp) eqn:Hex; cbn [negb orb]; [|discriminate].
    destruct (path_is_dir (world st) sp) eqn:Hd; cbn [negb]; [|discriminate].
    destruct (path_exists (world st) (joinpath sp (py "docker-compose.yml"))) eqn:Hc;
      cbn [negb]; [|discriminate].
    intros H. inversion H; subst. repeat split; auto.
    exists p. split; [reflexivity|]. left. reflexivity.
Qed.

(** X4.  The errors of [get_stack_path], in the order the code checks them:
    a missing stacks root gives 500 whatever the stack is; a contained path
    that does not exist or is no directory gives 404; a contained directory
    without [docker-compose.yml] gives 400. *)
Theorem get_stack_path_errors stack st sp :
  path_resolve (world st) (joinpath (stacks_root settings) stack) = Return sp ->
  (forall msg,
     path_resolve_strict (world st) (stacks_root settings) = Raise (FileNotFoundError msg) ->
     get_stack_path stack st =
       (Raise (HTTPException 500 (py "stacks root missing")), st)) /\
  (forall root,
     path_resolve_strict (world st) (stacks_root settings) = Return root ->
     is_absolute root = true ->
     sp = root \/ strict_descendant root sp ->
     (path_exists (world st) sp = false \/ path_is_dir (world st) sp = false ->
      get_stack_path stack st =
        (Raise (HTTPException 404 (py "stack not found")), st)) /\
     (path_exists (world st) sp = true -> path_is_dir (world st) sp = true ->
      path_exists (world st) (joinpath sp (py "docker-compose.yml")) = false ->
      get_stack_path stack st =
        (Raise (HTTPException 400 (py "docker-compose.yml missing")), st))).
Proof.
  intros Hsp. split.
  - intros msg Hroot. unfold get_stack_path, bind, try_except. rewrite Hsp, Hroot.
    reflexivity.
  - intros root Hroot Habs Hin.
    assert (Hguard : negb (bool_decide (root ∈ parents sp)) && bool_decide (sp <> root)
                     = false).
    { destruct Hin as [-> | Hd].
      - rewrite (bool_decide_eq_false_2 (root <> root)) by congruence.
        apply andb_false_r.
      - rewrite bool_decide_eq_true_2 by (apply descendant_parents; assumption).
        reflexivity. }
    split.
    + intros Hno. unfold get_stack_path, bind, try_except, ask. rewrite Hsp, Hroot.
      cbn [world]. rewrite Hguard.
      destruct Hno as [-> | ->]; [reflexivity|].
      destruct (path_exists (world st) sp); reflexivity.
    + intros Hex Hd Hc. unfold get_stack_path, bind, try_except, ask. rewrite Hsp, Hroot.
      cbn [world]. rewrite Hguard, Hex, Hd. cbn [negb orb world]. rewrite Hc. reflexivity.
Qed.

(** ** The commands of a run *)

Lemma runs_only_quiet {A} (P : Exec -> Prop) (m : M A) : quiet m -> runs_only P m.
Proof.
  intros Hq st r st' H. destruct (Hq _ _ _ H) as [He _].
  exists []. rewrite app_nil_r. split; [exact He | constructor].
Qed.

Lemma runs_only_bind {A B} (P : Exec -> Prop) (m : M A) (k : A -> M B) :
  runs_only P m -> (forall a, runs_only P (k a)) -> runs_only P (bind m k).
Proof.
  intros Hm Hk st r st' H. apply bind_inv in H.
  destruct H as [(a & st1 & H1 & H2) | (e & H1 & _)].
  - destruct (Hm _ _ _ H1) as (n1 & E1 & F1). destruct (Hk a _ _ _ H2) as (n2 & E2 & F2).
    exists (n1 ++ n2). split.
    + rewrite E2, E1, <- (assoc_L (++)). reflexivity.
    + apply Forall_app. auto.
  - exact (Hm _ _ _ H1).
Qed.

Lemma runs_only_if {A} (P : Exec -> Prop) (c : bool) (m1 m2 : M A) :
  runs_only P m1 -> runs_only P m2 -> runs_only P (if c then m1 else m2).
Proof. destruct c; auto. Qed.

Lemma runs_only_runner (P : Exec -> Prop) name args cwd timeout env :
  (forall x, ex_step x = name -> ex_args x = args -> ex_cwd x = cwd ->
             ex_timeout x = timeout -> P x) ->
  runs_only P (run_command_env name args cwd timeout env).
Proof.
  intros HP st r st' H. apply run_command_env_ran in H.
  destruct H as (x & [He _] & H1 & H2 & H3 & H4 & _).
  exists [x]. split; [exact He|]. constructor; [auto | constructor].
Qed.

Lemma get_stack_path_inv stack st p st' :
  get_stack_path stack st = (Return p, st') ->
  st' = st /\
  path_resolve (world st) (joinpath (stacks_root settings) stack) = Return p.
Proof.
  unfold get_stack_path, bind, try_except, ask, raise, ret.
  destruct (path_resolve (world st) (joinpath (stacks_root settings) stack)) as [sp|e];
    [|discriminate].
  destruct (path_resolve_strict (world st) (stacks_root settings)) as [root|e].
  2:{ destruct e; discriminate. }
  destruct (negb _ && _); [discriminate|].
  destruct (negb _ || negb _); [discriminate|].
  destruct (negb _); [discriminate|].
  intros H. inversion H; subst. auto.
Qed.

(** X5.  Every external command of a deployment run is one of the four of
    the table (step name, argument vector and the timeout configured for that
    step) and is started in the canonical directory of the stack. *)
Theorem perform_deploy_runs_table_commands stack st res st' new :
  perform_deploy stack st = (res, st') ->
  executed st' = executed st ++ new ->
  Forall (fun x =>
            In (ex_step x, ex_args x, ex_timeout x) STEP_TABLE /\
            path_resolve (world st) (joinpath (stacks_root settings) stack)
              = Return (ex_cwd x)) new.
Proof.
  intros H Hnew. unfold perform_deploy in H.
  apply bind_inv in H. destruct H as [(nm & sa & Hv & H) | (e & Hv & H)].
  2:{ destruct (quiet_validate_stack_name _ _ _ _ Hv) as [He _]. rewrite He in Hnew.
      rewrite <- (app_nil_r (executed st)) in Hnew at 1. apply app_inv_head in Hnew.
      subst new. constructor. }
  apply validate_stack_name_pure in Hv. subst sa.
  apply bind_inv in H. destruct H as [(sp & sb & Hp & H) | (e & Hp & H)].
  2:{ destruct (quiet_get_stack_path _ _ _ _ Hp) as [He _]. rewrite He in Hnew.
      rewrite <- (app_nil_r (executed st)) in Hnew at 1. apply app_inv_head in Hnew.
      subst new. constructor. }
  apply get_stack_path_inv in Hp. destruct Hp as [-> Hsp].
  assert (Hrest : exists new', executed st' = executed st ++ new' /\
                               Forall (table_call sp) new').
  { revert H. match goal with |- ?m st = _ -> _ => generalize st res st'; change (runs_only (table_call sp) m) end.
    apply runs_only_bind; [apply runs_only_quiet, quiet_get_docker_env|]. intros docker_env.
    apply runs_only_bind; [apply runs_only_quiet, quiet_act|]. intros started_at.
    apply runs_only_bind; [apply runs_only_quiet, quiet_log_event|]. intros _.
    apply runs_only_bind.
    { apply runs_only_runner. intros x H1 H2 H3 H4. split; [|exact H3].
      rewrite H1, H2, H4. unfold STEP_TABLE. cbn. auto. }
    intros status_result. cbv zeta.
    apply runs_only_if.
    { apply runs_only_bind; [apply runs_only_quiet, quiet_log_event|]. intros _.
      apply runs_only_quiet, quiet_build_response. }
    apply runs_only_bind.
    { apply runs_only_runner. intros x H1 H2 H3 H4. split; [|exact H3].
      rewrite H1, H2, H4. unfold STEP_TABLE. cbn. auto. }
    intros config_result.
    apply runs_only_bind.
    { apply runs_only_if; [|apply runs_only_quiet, quiet_ret].
      apply runs_only_bind; [|intros r; apply runs_only_quiet, quiet_ret].
      apply runs_only_runner. intros x H1 H2 H3 H4. split; [|exact H3].
      rewrite H1, H2, H4. unfold STEP_TABLE. cbn. auto. }
    intros steps3.
    apply runs_only_bind.
    { apply runs_only_if; [|apply runs_only_quiet, quiet_ret].
      apply runs_only_bind; [|intros r; apply runs_only_quiet, quiet_ret].
      apply runs_only_runner. intros x H1 H2 H3 H4. split; [|exact H3].
      rewrite H1, H2, H4. unfold STEP_TABLE. cbn. auto 6. }
    intros steps4.
    apply runs_only_bind; [apply runs_only_quiet, quiet_log_event|]. intros _.
    apply runs_only_quiet, quiet_build_response. }
  destruct Hrest as (new' & He & Hall). rewrite He in Hnew. apply app_inv_head in Hnew.
  subst new'. eapply Forall_impl; [exact Hall|].
  intros x [Ht Hc]. split; [exact Ht|]. rewrite Hc. exact Hsp.
Qed.

(** ** When a deployment succeeds *)

Lemma produces_ok_iff x s :
  produces x s -> (ok s = true <-> exited_zero x /\ lists_a_service x).
Proof.
  intros (r & Hr & ->). split.
  - intros Hok. pose proof (kept_ok_true _ _ Hok) as [Hokr Hkept].
    destruct (step_of_return_ok _ _ Hr Hokr) as (proc & Ho & Hrc).
    split; [exists proc; auto|].
    intros Hstep proc' Ho'. rewrite Ho in Ho'. inversion Ho'; subst proc'.
    destruct (step_of_completed _ _ _ Ho Hr) as [d Hd]. inversion Hd; subst r.
    unfold kept in Hok. rewrite Hstep in Hok, Hokr.
    rewrite bool_decide_eq_true_2 in Hok by reflexivity.
    unfold mark_idle in Hok. rewrite Hokr in Hok. cbn [andb] in Hok.
    destruct (bool_decide (running_services (tail (completed_step (py "status") proc d)) = []))
      eqn:Hs; [discriminate|].
    apply bool_decide_eq_false_1 in Hs. exact Hs.
  - intros [(proc & Ho & Hrc) Hsv].
    destruct (step_of_completed _ _ _ Ho Hr) as [d Hd]. inversion Hd; subst r.
    assert (Hokr : ok (completed_step (ex_step x) proc d) = true)
      by (cbn; rewrite Hrc; reflexivity).
    unfold kept. destruct (bool_decide (ex_step x = py "status")) eqn:Hst; [|exact Hokr].
    apply bool_decide_eq_true_1 in Hst. unfold mark_idle. rewrite Hokr. cbn [andb].
    rewrite bool_decide_eq_false_2; [exact Hokr|].
    apply (Hsv Hst proc Ho).
Qed.

Lemma chain_all_ok todo xs ss :
  chain todo xs ss None ->
  (forallb ok ss = true <->
   map ex_step xs = todo /\ Forall exited_zero xs /\ Forall lists_a_service xs).
Proof.
  intros H. remember None as oe eqn:Eo.
  induction H as [|n todo x e Hn _|n todo x s Hn Hp Hok|n todo x s xs ss oe Hn Hp Hok _ IH].
  - cbn. split; [auto | reflexivity].
  - discriminate.
  - cbn. rewrite Hok. cbn. split; [discriminate|].
    intros (_ & Hz & Hs). exfalso.
    assert (ok s = true).
    { apply (produces_ok_iff _ _ Hp). inversion Hz; inversion Hs; auto. }
    congruence.
  - cbn. rewrite Hok. cbn [andb]. rewrite (IH Eo). rewrite Hn.
    apply (produces_ok_iff _ _ Hp) in Hok. destruct Hok as [Hz Hs]. split.
    + intros (E1 & F1 & F2). rewrite E1. auto.
    + intros (E1 & F1 & F2). inversion E1. inversion F1. inversion F2. auto.
Qed.

(** X6.  A deployment answers 200 exactly when all four commands were run,
    each exited with code 0, and the tail of the status output listed a
    service; it answers 500 otherwise. *)
Theorem deploy_is_200_exactly_when_all_steps_pass stack st resp st' new :
  perform_deploy stack st = (Return resp, st') ->
  executed st' = executed st ++ new ->
  (status_code resp = 200%Z <->
   map ex_step new = STEP_NAMES /\ Forall exited_zero new /\ Forall lists_a_service new) /\
  (status_code resp = 200%Z \/ status_code resp = 500%Z).
Proof.
  intros H Hnew. apply perform_deploy_chain in H.
  destruct H as [(_ & _ & e & He) | (new' & steps & oe & E1 & _ & Hc & Ha)];
    [discriminate|].
  rewrite E1 in Hnew. apply app_inv_head in Hnew. subst new'.
  destruct oe as [e|]; cbn in Ha; [discriminate|].
  destruct Ha as (t0 & t1 & Ha). inversion Ha; subst resp. cbn [status_code].
  rewrite <- (chain_all_ok _ _ _ Hc).
  destruct (forallb ok steps).
  - split; [split; intros; reflexivity | left; reflexivity].
  - split; [split; intros; discriminate | right; reflexivity].
Qed.

(** ** Request handlers *)

Lemma lstrip_space_prefix ws s :
  Forall (fun c => isspace c = true) ws -> lstrip (ws ++ s) = lstrip s.
Proof. induction 1 as [|c ws Hc _ IH]; cbn; [reflexivity|]. rewrite Hc. exact IH. Qed.

Lemma strip_surrounded ws1 s ws2 :
  Forall (fun c => isspace c = true) ws1 ->
  Forall (fun c => isspace c = true) ws2 ->
  s <> [] -> Forall (fun c => isspace c = false) s ->
  strip (ws1 ++ s ++ ws2) = s.
Proof.
  intros H1 H2 Hne Hs. unfold strip, rstrip.
  rewrite (lstrip_space_prefix ws1 _ H1).
  rewrite (lstrip_head (s ++ ws2)).
  2:{ destruct s; [congruence|]. inversion Hs; assumption. }
  rewrite rev_app_distr. rewrite lstrip_space_prefix.
  2:{ apply Forall_forall. intros c Hc. rewrite Forall_forall in H2. apply H2.
      apply list_elem_of_In. apply list_elem_of_In in Hc. apply in_rev. exact Hc. }
  rewrite (lstrip_head (rev s)); [apply rev_involutive|].
  assert (Hr : Forall (fun c => isspace c = false) (rev s)).
  { apply Forall_forall. intros c Hc. rewrite Forall_forall in Hs. apply Hs.
    apply list_elem_of_In. apply list_elem_of_In in Hc. apply in_rev. exact Hc. }
  destruct Hr; auto.
Qed.

(** X7.  White space around the signature in the header is ignored: the
    hexadecimal HMAC of the data, preceded and followed by any white space,
    verifies. *)
Theorem verify_signature_ignores_surrounding_space ws1 ws2 data st :
  Forall (fun c => isspace c = true) ws1 ->
  Forall (fun c => isspace c = true) ws2 ->
  verify_signature (ws1 ++ compute_signature data ++ ws2) data st = (Return tt, st).
Proof.
  intros H1 H2. apply verify_signature_accepts.
  - intros H. apply app_eq_nil in H. destruct H as [_ H].
    apply app_eq_nil in H. destruct H as [H _].
    exact (compute_signature_nonempty data H).
  - apply strip_surrounded; [exact H1 | exact H2 | apply compute_signature_nonempty |].
    unfold compute_signature. eapply Forall_impl; [apply hexdigest_chars|].
    intros c [_ Hc]. exact Hc.
Qed.

(** X8.  For a header that is not empty and is ASCII once stripped,
    verification is exact: it succeeds when the stripped header equals the
    hexadecimal HMAC of the data and raises the 401 error
    "invalid signature" when it does not; the state is as before. *)
Theorem verify_signature_is_exact_on_ascii hdr data st :
  hdr <> [] ->
  isascii (strip hdr) = true ->
  (strip hdr = compute_signature data ->
   verify_signature hdr data st = (Return tt, st)) /\
  (strip hdr <> compute_signature data ->
   verify_signature hdr data st =
     (Raise (HTTPException 401 (py "invalid signature")), st)).
Proof.
  intros Hne Ha. split.
  - intros Hs. apply verify_signature_accepts; assumption.
  - intros Hs. apply verify_signature_rejects; assumption.
Qed.

(** X9.  A deployment request without signature header, or with an empty
    one, is answered with status 401 and the body
    [{"ok": false, "detail": "missing signature"}] before its body is looked
    at, and the state is as before: for POST /deploy always, for
    POST /deploy/{stack} when there is a body or the stack name can be
    encoded. *)
Theorem unsigned_request_is_401 request st :
  x_signature request = None \/ x_signature request = Some [] ->
  (route request = DeployBody ->
   routes request st =
     (Return (JSONResponse 401 (error_body (py "missing signature"))), st)) /\
  (forall stack,
     route request = DeployStack stack ->
     body request <> [] \/ (exists bs, encode stack = Return bs) ->
     routes request st =
       (Return (JSONResponse 401 (error_body (py "missing signature"))), st)).
Proof.
  intros Hx.
  assert (Hhdr : default [] (x_signature request) = []) by (destruct Hx as [-> | ->]; reflexivity).
  split.
  - intros Hr. apply routes_http_exception. unfold endpoint. rewrite Hr.
    unfold deploy_body, bind. rewrite Hhdr. reflexivity.
  - intros stack Hr Hb. apply routes_http_exception. unfold endpoint. rewrite Hr.
    unfold deploy_stack. unfold bind at 1.
    destruct (body request) as [|b0 bs0] eqn:Hbody.
    + destruct Hb as [Hb | (bs & Hb)]; [congruence|]. unfold lift. rewrite Hb.
      unfold bind. rewrite Hhdr. reflexivity.
    + unfold ret, bind. rewrite Hhdr. reflexivity.
Qed.

(** X10.  A POST /deploy request with a valid signature is answered with
    status 400 when its body is not JSON ("invalid JSON payload") and when it
    is an object whose field [stack] is missing or false in the Python sense,
    null, an empty string, 0 ("stack is required"); an empty body counts as
    the empty object.  No command is run. *)
Theorem deploy_body_bad_payload_is_400 request st hdr text :
  route request = DeployBody ->
  x_signature request = Some hdr ->
  hdr <> [] ->
  strip hdr = compute_signature (body request) ->
  bytes_decode (body request) = Return text ->
  (forall msg,
     json_loads (match text with [] => py "{}" | _ => text end) = Raise (JSONDecodeError msg) ->
     routes request st =
       (Return (JSONResponse 400 (error_body (py "invalid JSON payload"))), st)) /\
  (forall fields,
     json_loads (match text with [] => py "{}" | _ => text end) = Return (JObj fields) ->
     truthy (dict_get fields (py "stack")) = false ->
     routes request st =
       (Return (JSONResponse 400 (error_body (py "stack is required"))), st)).
Proof.
  intros Hr Hx Hne Hsig Hdec. split.
  - intros msg Hj. apply routes_http_exception. unfold endpoint. rewrite Hr.
    unfold deploy_body. unfold bind at 1. rewrite Hx.
    change (default [] (Some hdr)) with hdr.
    rewrite (verify_signature_accepts hdr (body request) st Hne Hsig).
    unfold bind at 1. unfold try_except, bind at 1, lift. rewrite Hdec, Hj. reflexivity.
  - intros fields Hj Hf. apply routes_http_exception. unfold endpoint. rewrite Hr.
    unfold deploy_body. unfold bind at 1. rewrite Hx.
    change (default [] (Some hdr)) with hdr.
    rewrite (verify_signature_accepts hdr (body request) st Hne Hsig).
    unfold bind at 1. unfold try_except, bind at 1, lift. rewrite Hdec, Hj.
    unfold bind at 1, ret. rewrite Hf. reflexivity.
Qed.

(** X11.  The two entry points start the same deployment.  POST /deploy with
    a valid signature and an object whose field [stack] is true in the Python
    sense deploys [str(stack)], the string itself when it is a string;
    POST /deploy/{stack} deploys [stack] when the header is the signature of
    the body or, the body being empty, of the UTF-8 bytes of the stack
    name. *)
Theorem entry_points_start_the_same_deployment request st hdr :
  x_signature request = Some hdr ->
  hdr <> [] ->
  (forall text fields,
     route request = DeployBody ->
     strip hdr = compute_signature (body request) ->
     bytes_decode (body request) = Return text ->
     json_loads (match text with [] => py "{}" | _ => text end) = Return (JObj fields) ->
     truthy (dict_get fields (py "stack")) = true ->
     endpoint request st = perform_deploy (str_of_json (dict_get fields (py "stack"))) st) /\
  (forall stack,
     route request = DeployStack stack ->
     body request <> [] ->
     strip hdr = compute_signature (body request) ->
     endpoint request st = perform_deploy stack st) /\
  (forall stack bs,
     route request = DeployStack stack ->
     body request = [] ->
     encode stack = Return bs ->
     strip hdr = compute_signature bs ->
     endpoint request st = perform_deploy stack st).
Proof.
  intros Hx Hne. split; [|split].
  - intros text fields Hr Hsig Hdec Hj Ht. unfold endpoint. rewrite Hr.
    unfold deploy_body. unfold bind at 1. rewrite Hx.
    change (default [] (Some hdr)) with hdr.
    rewrite (verify_signature_accepts hdr (body request) st Hne Hsig).
    unfold bind at 1. unfold try_except, bind at 1, lift. rewrite Hdec, Hj.
    unfold bind at 1, ret. rewrite Ht. reflexivity.
  - intros stack Hr Hb Hsig. unfold endpoint. rewrite Hr.
    unfold deploy_stack. unfold bind at 1.
    destruct (body request) as [|b0 bs0] eqn:Hbody; [congruence|].
    unfold ret. unfold bind at 1. rewrite Hx. change (default [] (Some hdr)) with hdr.
    rewrite (verify_signature_accepts hdr _ st Hne Hsig). reflexivity.
  - intros stack bs Hr Hb Henc Hsig. unfold endpoint. rewrite Hr.
    unfold deploy_stack. unfold bind at 1. rewrite Hb. unfold lift. rewrite Henc.
    unfold bind at 1. rewrite Hx. change (default [] (Some hdr)) with hdr.
    rewrite (verify_signature_accepts hdr _ st Hne Hsig). reflexivity.
Qed.

(** ** Invariants of the rate limiter's buckets *)

Lemma keeps_buckets_quiet {A} (m : M A) : quiet m -> keeps_buckets m.
Proof. intros Hq st r st' H. exact (proj2 (Hq _ _ _ H)). Qed.

Lemma keeps_buckets_bind {A B} (m : M A) (k : A -> M B) :
  keeps_buckets m -> (forall a, keeps_buckets (k a)) -> keeps_buckets (bind m k).
Proof.
  intros Hm Hk st r st' H. apply bind_inv in H.
  destruct H as [(a & st1 & H1 & H2) | (e & H1 & _)].
  - rewrite (Hk a _ _ _ H2). exact (Hm _ _ _ H1).
  - exact (Hm _ _ _ H1).
Qed.

Lemma keeps_buckets_try_except {A} (m : M A) (h : exn -> option (M A)) :
  keeps_buckets m -> (forall e m', h e = Some m' -> keeps_buckets m') ->
  keeps_buckets (try_except m h).
Proof.
  intros Hm Hh st r st' H. unfold try_except in H.
  destruct (m st) as [[a|e] st1] eqn:E1.
  - inversion H; subst. exact (Hm _ _ _ E1).
  - destruct (h e) as [m'|] eqn:E4.
    + rewrite (Hh _ _ E4 _ _ _ H). exact (Hm _ _ _ E1).
    + inversion H; subst. exact (Hm _ _ _ E1).
Qed.

Lemma keeps_buckets_perform_deploy stack : keeps_buckets (perform_deploy stack).
Proof.
  intros st r st' H. apply perform_deploy_chain in H.
  destruct H as [(_ & Hb & _) | (new & steps & oe & _ & Hb & _)]; exact Hb.
Qed.

Lemma keeps_buckets_routes request : keeps_buckets (routes request).
Proof.
  unfold routes. apply keeps_buckets_try_except.
  - unfold endpoint. destruct (route request) as [|stack|].
    + apply keeps_buckets_quiet, quiet_ret.
    + unfold deploy_stack. apply keeps_buckets_bind.
      * destruct (body request); apply keeps_buckets_quiet;
          [apply quiet_lift | apply quiet_ret].
      * intros raw. apply keeps_buckets_bind;
          [apply keeps_buckets_quiet, quiet_verify_signature|].
        intros _. apply keeps_buckets_perform_deploy.
    + unfold deploy_body. apply keeps_buckets_bind;
        [apply keeps_buckets_quiet, quiet_verify_signature|]. intros _.
      apply keeps_buckets_bind.
      * apply keeps_buckets_try_except.
        -- apply keeps_buckets_bind; [apply keeps_buckets_quiet, quiet_lift|].
           intros text. apply keeps_buckets_quiet, quiet_lift.
        -- intros e m' He. destruct e; inversion He; subst.
           apply keeps_buckets_quiet, quiet_raise.
      * intros payload. apply keeps_buckets_bind.
        -- destruct payload; apply keeps_buckets_quiet;
             first [apply quiet_ret | apply quiet_raise].
        -- intros stack. destruct (negb (truthy stack));
             [apply keeps_buckets_quiet, quiet_raise | apply keeps_buckets_perform_deploy].
  - intros e m' He. destruct e; inversion He; subst.
    apply keeps_buckets_quiet. unfold http_exception_handler. apply quiet_ret.
Qed.

(** What a request does to the buckets: the bucket of its client becomes
    the live part of the old one, with the time of the request at its end
    when the request was let through. *)
Lemma app_buckets request st now w1 res st' :
  time_time (world st) = (now, w1) ->
  app request st = (res, st') ->
  request_buckets st' =
    <[client_key request := live_bucket st request now]> (request_buckets st) \/
  ((Z.of_nat (length (live_bucket st request now)) < rate_limit_per_min settings)%Z /\
   request_buckets st' =
     <[client_key request := live_bucket st request now ++ [now]]> (request_buckets st)).
Proof.
  intros Ht H. unfold app, try_except in H.
  destruct (Z_lt_le_dec (Z.of_nat (length (live_bucket st request now)))
                        (rate_limit_per_min settings)) as [Hq | Hq].
  - right. split; [exact Hq|].
    rewrite (rate_limiter_under_quota request routes st now w1 Ht Hq) in H.
    destruct (routes request _) as [[r|e] st1] eqn:Hr.
    + inversion H; subst. rewrite (keeps_buckets_routes _ _ _ _ Hr). reflexivity.
    + destruct (unhandled_exception_handler_answer e st1) as (st2 & Hu & _ & Hb).
      rewrite Hu in H. inversion H; subst. rewrite Hb.
      rewrite (keeps_buckets_routes _ _ _ _ Hr). reflexivity.
  - left. rewrite (rate_limiter_over_quota request routes st now w1 Ht Hq) in H.
    inversion H; subst. reflexivity.
Qed.

(** X12.  With a quota that is not negative, no request makes a bucket
    longer than the quota: if every bucket holds at most [quota] timestamps
    before a request, so it does after it, whatever the request and the
    answer.  *)
Theorem buckets_never_exceed_quota request st res st' :
  (0 <= rate_limit_per_min settings)%Z ->
  buckets_within (rate_limit_per_min settings) st ->
  app request st = (res, st') ->
  buckets_within (rate_limit_per_min settings) st'.
Proof.
  intros Hq Hin H. destruct (time_time (world st)) as [now w1] eqn:Ht.
  assert (Hlive : (Z.of_nat (length (live_bucket st request now))
                   <= rate_limit_per_min settings)%Z).
  { unfold live_bucket.
    pose proof (evict_suffix (now - RATE_LIMIT_WINDOW_SECONDS)
                  (default [] (request_buckets st !! client_key request))) as Hs.
    apply suffix_length in Hs.
    destruct (request_buckets st !! client_key request) as [b|] eqn:Hb.
    - specialize (Hin _ _ Hb). change (default [] (Some b)) with b in *. lia.
    - change (default [] None) with (@nil Q) in *. cbn in *. lia. }
  intros c b Hc.
  destruct (app_buckets request st now w1 res st' Ht H) as [Hb | [Hlt Hb]];
    rewrite Hb in Hc; destruct (decide (client_key request = c)) as [Heq | Hne];
    try subst c.
  - rewrite lookup_insert_eq in Hc. inversion Hc; subst. exact Hlive.
  - rewrite lookup_insert_ne in Hc by exact Hne. exact (Hin _ _ Hc).
  - rewrite lookup_insert_eq in Hc. inversion Hc; subst. rewrite length_app. cbn. lia.
  - rewrite lookup_insert_ne in Hc by exact Hne. exact (Hin _ _ Hc).
Qed.

(** X13.  With a clock that has not run backwards the buckets stay in time
    order: if every bucket is sorted before a request and no timestamp of the
    client's bucket is later than the time of the request, every bucket is
    sorted after it. *)
Theorem buckets_stay_in_time_order request st now w1 res st' :
  time_time (world st) = (now, w1) ->
  buckets_sorted st ->
  Forall (fun t => Qle t now) (default [] (request_buckets st !! client_key request)) ->
  app request st = (res, st') ->
  buckets_sorted st'.
Proof.
  intros Ht Hs Hle H.
  assert (Hold : StronglySorted Qle (default [] (request_buckets st !! client_key request))).
  { destruct (request_buckets st !! client_key request) as [b|] eqn:Hb.
    - exact (Hs _ _ Hb).
    - constructor. }
  intros c b Hc.
  destruct (app_buckets request st now w1 res st' Ht H) as [Hb | [Hlt Hb]];
    rewrite Hb in Hc; destruct (decide (client_key request = c)) as [Heq | Hne];
    try subst c.
  - rewrite lookup_insert_eq in Hc. inversion Hc; subst.
    eapply sorted_suffix; [apply evict_suffix | exact Hold].
  - rewrite lookup_insert_ne in Hc by exact Hne. exact (Hs _ _ Hc).
  - rewrite lookup_insert_eq in Hc. inversion Hc; subst.
    apply bucket_stays_sorted; assumption.
  - rewrite lookup_insert_ne in Hc by exact Hne. exact (Hs _ _ Hc).
Qed.

(** ** Results of the command runner *)

(** X14.  A step result returned by the runner carries the name of the
    step; its [ok] is true exactly when its exit code is 0; when there is no
    exit code (a timeout) [ok] is false; when there is one, it is the return
    code of the command just executed, the tail has at most 2000 characters
    and is the end of the redacted output of that command. *)
Theorem runner_result_invariants step args cwd timeout env st r st' :
  run_command_env step args cwd timeout env st = (Return r, st') ->
  name r = step /\
  (ok r = true <-> exit_code r = Some 0%Z) /\
  (exit_code r = None -> ok r = false) /\
  (forall code, exit_code r = Some code ->
   (length (tail r) <= 2000)%nat /\
   exists x proc, last (executed st') = Some x /\ ex_args x = args /\
                  ex_outcome x = Return proc /\ returncode proc = code /\
                  tail r `suffix_of` sanitize_output (stdout proc ++ stderr proc)).
Proof.
  intros H. apply run_command_env_ran in H.
  destruct H as (x & [Hex _] & Hn & Ha & _ & _ & Hs).
  unfold step_of in Hs. destruct (ex_outcome x) as [proc | e] eqn:Ho.
  - destruct Hs as [d Hr]. inversion Hr; subst r; clear Hr.
    cbn [name ok exit_code tail completed_step].
    split; [exact Hn|]. split.
    { rewrite Z.eqb_eq. split; [intros ->; reflexivity | intros H; inversion H; reflexivity]. }
    split; [discriminate|]. intros code Hc. inversion Hc; subst code. split.
    + unfold last_chars. rewrite length_drop. unfold TAIL_LIMIT. lia.
    + exists x, proc. rewrite Hex, last_snoc. repeat split; try assumption.
      unfold last_chars. apply suffix_drop.
  - destruct e; try discriminate. destruct Hs as [d Hr]. inversion Hr; subst r; clear Hr.
    cbn [name ok exit_code tail timeout_step].
    split; [exact Hn|]. split; [split; discriminate|].
    split; [reflexivity | discriminate].
Qed.

(** ** Lines and services *)

Lemma lstrip_nil_iff s : lstrip s = [] <-> Forall (fun c => isspace c = true) s.
Proof.
  induction s as [|c s IH]; cbn.
  - split; [constructor | reflexivity].
  - destruct (isspace c) eqn:Hc.
    + rewrite IH. split; [intros H; constructor; assumption | intros H; inversion H; assumption].
    + split; [discriminate | intros H; inversion H; congruence].
Qed.

Lemma Forall_rev_iff {A} (P : A -> Prop) (l : list A) : Forall P (rev l) <-> Forall P l.
Proof.
  rewrite !Forall_forall. split; intros H x Hx; apply H;
    apply list_elem_of_In; apply list_elem_of_In in Hx;
    [apply in_rev in Hx | apply in_rev]; exact Hx.
Qed.

Lemma lstrip_head_not_space s c r : lstrip s = c :: r -> isspace c = false.
Proof.
  induction s as [|d s IH]; [discriminate|]. cbn.
  destruct (isspace d) eqn:Hd; [exact IH|]. intros H. inversion H; subst. exact Hd.
Qed.

Lemma strip_nil_iff s : strip s = [] <-> Forall (fun c => isspace c = true) s.
Proof.
  unfold strip, rstrip. split.
  - intros H. apply (f_equal (@rev N)) in H. rewrite rev_involutive in H.
    change (rev []) with (@nil N) in H.
    apply lstrip_nil_iff, Forall_rev_iff in H.
    apply lstrip_nil_iff. destruct (lstrip s) as [|c r] eqn:Hs; [reflexivity|].
    exfalso. apply lstrip_head_not_space in Hs.
    rewrite ?rev_involutive in H. apply Forall_cons in H. destruct H as [Hc _]. congruence.
  - intros H. apply lstrip_nil_iff in H. rewrite H. reflexivity.
Qed.

Lemma is_linebreak_space c : is_linebreak c = true -> isspace c = true.
Proof.
  unfold is_linebreak, isspace, in_range.
  rewrite !orb_true_iff, !andb_true_iff, !N.leb_le, !N.eqb_eq. lia.
Qed.

Lemma splitlines_from_blank after_cr cur s :
  Forall (fun l => strip l = []) (splitlines_from after_cr cur s) <->
  Forall (fun c => isspace c = true) cur /\ Forall (fun c => isspace c = true) s.
Proof.
  revert after_cr cur. induction s as [|c s IH]; intros after_cr cur.
  - cbn. destruct cur as [|d cur].
    + split; [intros _; split; constructor | intros _; constructor].
    + split.
      * intros H. inversion H; subst. split; [apply strip_nil_iff; assumption | constructor].
      * intros [H _]. constructor; [apply strip_nil_iff; assumption | constructor].
  - cbn [splitlines_from]. destruct ((c =? 10) && after_cr) eqn:Hlf.
    + rewrite IH. apply andb_true_iff in Hlf. destruct Hlf as [Hc _].
      apply N.eqb_eq in Hc. subst c.
      split; intros [H1 H2]; (split; [exact H1|]);
        [constructor; [reflexivity | exact H2] | inversion H2; assumption].
    + destruct (is_linebreak c) eqn:Hb.
      * apply is_linebreak_space in Hb. rewrite Forall_cons, IH, strip_nil_iff.
        split.
        -- intros (H1 & _ & H2). split; [exact H1 | constructor; assumption].
        -- intros (H1 & H2). inversion H2; subst. split; [exact H1|].
           split; [constructor | assumption].
      * rewrite IH, Forall_app. split.
        -- intros ((H1 & H2) & H3). inversion H2; subst.
           split; [exact H1 | constructor; assumption].
        -- intros (H1 & H2). inversion H2; subst.
           split; [split; [exact H1 | constructor; [assumption | constructor]] | assumption].
Qed.

Lemma filter_nil_blank (ls : list str) :
  filter (fun line => strip line <> []) ls = [] <-> Forall (fun l => strip l = []) ls.
Proof.
  induction ls as [|l ls IH].
  - split; [constructor | reflexivity].
  - rewrite filter_cons. destruct (decide (strip l <> [])) as [Hn | Hn].
    + split; [discriminate | intros H; inversion H; contradiction].
    + rewrite IH. split.
      * intros H. constructor; [|exact H].
        destruct (decide (strip l = [])); [assumption | contradiction].
      * intros H. inversion H; assumption.
Qed.

(** X15.  The tail of the status step lists no running service exactly when
    every character of it is white space (line breaks included): that is when
    a status command that exited with 0 stops the deployment. *)
Theorem no_service_exactly_when_blank (t : str) :
  running_services t = [] <-> Forall (fun c => isspace c = true) t.
Proof.
  unfold running_services, splitlines. split.
  - intros H. apply map_eq_nil in H. apply filter_nil_blank, splitlines_from_blank in H.
    tauto.
  - intros H. assert (Hf : filter (fun line => strip line <> []) (splitlines_from false [] t) = []).
    { apply filter_nil_blank, splitlines_from_blank. split; [constructor | exact H]. }
    rewrite Hf. reflexivity.
Qed.

(** ** Output without a separator *)

Lemma star_greedy_needs_sep p k :
  needs_sep k ->
  forall s prev g m, star_greedy p k prev g s = Some m ->
  exists c, In c s /\ is_sep c = true.
Proof.
  intros Hk. induction s as [|c s IH]; intros prev g m; cbn [star_greedy].
  - intros H. apply Hk in H. exact H.
  - destruct (p c).
    + destruct (star_greedy p k (Some c) g s) as [m'|] eqn:Hs.
      * intros _. destruct (IH _ _ _ Hs) as (d & Hd & Hsep).
        exists d. split; [right; exact Hd | exact Hsep].
      * intros H. apply Hk in H. exact H.
    + intros H. apply Hk in H. exact H.
Qed.

Lemma star_lazy_needs_sep p k :
  needs_sep k ->
  forall s prev g m, star_lazy p k prev g s = Some m ->
  exists c, In c s /\ is_sep c = true.
Proof.
  intros Hk. induction s as [|c s IH]; intros prev g m; cbn [star_lazy].
  - destruct (k (MState prev [] g)) as [m'|] eqn:Hm; [|discriminate].
    intros _. apply Hk in Hm. exact Hm.
  - destruct (k (MState prev (c :: s) g)) as [m'|] eqn:Hm.
    + intros _. apply Hk in Hm. exact Hm.
    + destruct (p c); [|discriminate]. intros H.
      destruct (IH _ _ _ H) as (d & Hd & Hsep).
      exists d. split; [right; exact Hd | exact Hsep].
Qed.

Lemma lit_ci_rest pat :
  forall prev s prev' s', lit_ci pat prev s = Some (prev', s') ->
  forall c, In c s' -> In c s.
Proof.
  induction pat as [|a pat IH]; intros prev s prev' s'; cbn [lit_ci].
  - intros H. inversion H; subst. auto.
  - destruct s as [|d s]; [discriminate|].
    destruct (lower_fold d =? a); [|discriminate].
    intros H c Hc. right. exact (IH _ _ _ _ H c Hc).
Qed.

Lemma rmatch_needs_sep r : forall k, needs_sep k -> needs_sep (rmatch r k).
Proof.
  induction r as [| | |p|p|p|pat|r1 IH1 r2 IH2|r1 IH1 r2 IH2|i r IH]; intros k Hk st m;
    cbn [rmatch].
  - destruct (at_bos (m_prev st)); [apply Hk | discriminate].
  - destruct (at_bol (m_prev st)); [apply Hk | discriminate].
  - destruct (at_eos (m_rest st)); [apply Hk | discriminate].
  - destruct (m_rest st) as [|c s]; [discriminate|].
    destruct (p c); [|discriminate]. intros H. apply Hk in H. cbn [m_rest] in H.
    destruct H as (d & Hd & Hsep). exists d. split; [right; exact Hd | exact Hsep].
  - apply star_greedy_needs_sep. exact Hk.
  - apply star_lazy_needs_sep. exact Hk.
  - destruct (lit_ci pat (m_prev st) (m_rest st)) as [[prev' s']|] eqn:Hl; [|discriminate].
    intros H. apply Hk in H. cbn [m_rest] in H. destruct H as (d & Hd & Hsep).
    exists d. split; [exact (lit_ci_rest _ _ _ _ _ Hl d Hd) | exact Hsep].
  - destruct (rmatch r1 k st) as [m'|] eqn:H1.
    + intros _. exact (IH1 k Hk st m' H1).
    + apply IH2. exact Hk.
  - apply IH1. apply IH2. exact Hk.
  - apply IH. intros st1 m1 H. apply Hk in H. exact H.
Qed.

Lemma seq_needs_sep r1 r2 k :
  needs_sep (rmatch r2 k) -> needs_sep (rmatch (Seq r1 r2) k).
Proof. intros H. exact (rmatch_needs_sep r1 _ H). Qed.

Lemma sep_class_needs_sep r k : needs_sep (rmatch (Seq (Cls is_sep) r) k).
Proof.
  intros st m. cbn [rmatch]. destruct (m_rest st) as [|c s']; [discriminate|].
  destruct (is_sep c) eqn:Hc; [|discriminate].
  intros _. exists c. split; [left; reflexivity | exact Hc].
Qed.

Lemma sensitive_match_has_sep prev s m :
  match_at SENSITIVE_RE prev s = Some m -> exists c, In c s /\ is_sep c = true.
Proof.
  assert (H : needs_sep (rmatch SENSITIVE_RE Some)).
  { unfold SENSITIVE_RE. do 4 apply seq_needs_sep. apply sep_class_needs_sep. }
  unfold match_at. intros Hm. exact (H _ _ Hm).
Qed.

(** X16.  Output that contains neither [:] nor [=] is passed through the
    redaction unchanged, whatever key words it holds. *)
Theorem output_without_separator_is_unchanged (text : str) :
  Forall (fun c => is_sep c = false) text -> sanitize_output text = text.
Proof.
  unfold sanitize_output, sanitize_from. generalize (@None N).
  induction text as [|c s IH]; intros prev Hall; [reflexivity|].
  cbn [sub_loop].
  destruct (match_at SENSITIVE_RE prev (c :: s)) as [m|] eqn:Hm.
  - exfalso. apply sensitive_match_has_sep in Hm. destruct Hm as (d & Hd & Hsep).
    rewrite Forall_forall in Hall. apply list_elem_of_In in Hd.
    specialize (Hall d Hd). cbn in Hall. congruence.
  - f_equal. apply IH. inversion Hall; assumption.
Qed.

(** ** The environment of the commands *)




Lemma get_docker_env_inv p st r st' :
  get_docker_env p st = (r, st') ->
  st' = st /\
  r = Return (if path_exists (world st) (joinpath (joinpath p (py ".docker")) (py "config.json"))
              then {[ py "DOCKER_CONFIG" := path_str (joinpath p (py ".docker")) ]} else ∅).
Proof.
  unfold get_docker_env, bind, ask, ret.
  destruct (path_exists (world st) _); intros H; inversion H; auto.
Qed.


(** ** Clients and quotas *)

(** X19.  A request touches the bucket of its own client only: the bucket of
    every other client is after the request what it was before. *)
Theorem request_leaves_other_buckets_alone request st res st' c :
  app request st = (res, st') ->
  c <> client_key request ->
  request_buckets st' !! c = request_buckets st !! c.
Proof.
  intros H Hc. destruct (time_time (world st)) as [now w1] eqn:Ht.
  destruct (app_buckets request st now w1 res st' Ht H) as [Hb | [_ Hb]];
    rewrite Hb; apply lookup_insert_ne; congruence.
Qed.

(** X20.  With a quota of zero or less, every request is refused, the health
    check included: the answer is the 429 response, no endpoint is entered, no
    command is run and nothing is logged. *)
Theorem quota_of_zero_refuses_everything request st :
  (rate_limit_per_min settings <= 0)%Z ->
  exists st',
    app request st = (Return too_many_requests, st') /\
    executed st' = executed st /\ events st' = events st.
Proof.
  intros Hq. destruct (time_time (world st)) as [now w1] eqn:Ht.
  exists (with_bucket st w1 request (live_bucket st request now)).
  unfold app, try_except.
  rewrite (rate_limiter_over_quota request routes st now w1 Ht) by lia.
  auto.
Qed.

(** ** Answers *)






(** ** Order and progress of the steps *)

Lemma step_of_raise x e : step_of x (Raise e) -> ex_outcome x = Raise e.
Proof.
  unfold step_of. destruct (ex_outcome x) as [proc | e'].
  - intros [d H]. discriminate.
  - destruct e'; try (intros H; inversion H; reflexivity).
    intros [d H]. discriminate.
Qed.

Lemma chain_started n todo xs ss oe : chain (n :: todo) xs ss oe -> xs <> [].
Proof. intros H. inversion H; discriminate. Qed.

Lemma chain_gate todo xs ss oe :
  chain todo xs ss oe ->
  forall i x, xs !! i = Some x ->
    ((S i < length xs)%nat <-> step_passed x /\ (S i < length todo)%nat).
Proof.
  induction 1 as [|n todo x e Hn Hs|n todo x s Hn Hp Hok|n todo x s xs ss oe Hn Hp Hok Hc IH];
    intros i y Hi.
  - discriminate.
  - destruct i; [|discriminate]. inversion Hi; subst y. cbn. split; [lia|].
    intros [[(proc & Ho & _) _] _]. apply step_of_raise in Hs. congruence.
  - destruct i; [|discriminate]. inversion Hi; subst y. cbn. split; [lia|].
    intros [[Hz Hl] _]. assert (ok s = true) by (apply (produces_ok_iff _ _ Hp); auto).
    congruence.
  - destruct i as [|j].
    + inversion Hi; subst y. cbn [length].
      assert (Hpass : step_passed x) by (apply (produces_ok_iff _ _ Hp); exact Hok).
      split.
      * intros Hlt. split; [exact Hpass|].
        destruct todo; [inversion Hc; subst; cbn in Hlt; lia | cbn; lia].
      * intros [_ Hlt]. destruct todo as [|n' todo']; [cbn in Hlt; lia|].
        pose proof (chain_started _ _ _ _ _ Hc) as Hne.
        destruct xs; [congruence | cbn; lia].
    + cbn in Hi. specialize (IH j y Hi). cbn [length]. rewrite <- !Nat.succ_lt_mono.
      exact IH.
Qed.

Lemma chain_returned todo xs ss :
  chain todo xs ss None ->
  forall i x s, xs !! i = Some x -> ss !! i = Some s -> (ok s = true <-> step_passed x).
Proof.
  intros H. remember None as oe eqn:Eo.
  induction H as [|n todo x e Hn Hs|n todo x s Hn Hp Hok|n todo x s xs ss oe Hn Hp Hok Hc IH];
    intros i y t Hi Ht.
  - discriminate.
  - discriminate.
  - destruct i; [|discriminate]. inversion Hi; inversion Ht; subst.
    apply (produces_ok_iff _ _ Hp).
  - destruct i as [|j].
    + inversion Hi; inversion Ht; subst. apply (produces_ok_iff _ _ Hp).
    + exact (IH Eo j y t Hi Ht).
Qed.

Lemma chain_raised todo xs ss e :
  chain todo xs ss (Some e) -> exists x, last xs = Some x /\ ex_outcome x = Raise e.
Proof.
  intros H. remember (Some e) as oe eqn:Eo.
  induction H as [|n todo x e' Hn Hs|n todo x s Hn Hp Hok|n todo x s xs ss oe Hn Hp Hok Hc IH].
  - discriminate.
  - inversion Eo; subst e'. exists x. split; [reflexivity | apply step_of_raise, Hs].
  - discriminate.
  - destruct (IH Eo) as (y & Hl & Ho). exists y. split; [|exact Ho].
    destruct xs; [discriminate | exact Hl].
Qed.

Lemma act_returns {A} (f : World -> A * World) st e st' : act f st <> (Raise e, st').
Proof. unfold act. destruct (f (world st)). discriminate. Qed.

Lemma log_event_returns event st e st' : log_event event st <> (Raise e, st').
Proof. unfold log_event, bind, act. destruct (datetime_now (world st)). discriminate. Qed.

Lemma runs_only_any {A} (m : M A) :
  runs_only (fun _ => True) m ->
  forall st r st', m st = (r, st') -> exists more, executed st' = executed st ++ more.
Proof. intros Hm st r st' H. destruct (Hm _ _ _ H) as (more & He & _). eauto. Qed.

Lemma perform_deploy_started stack st res st' p :
  perform_deploy stack st = (res, st') ->
  validate_stack_name stack st = (Return stack, st) ->
  get_stack_path stack st = (Return p, st) ->
  exists x more, executed st' = executed st ++ x :: more.
Proof.
  intros H Hv Hp. unfold perform_deploy in H.
  apply bind_inv in H. destruct H as [(nm & sa & Hv' & H) | (e & Hv' & _)];
    rewrite Hv in Hv'; [|discriminate].
  inversion Hv'; subst nm sa; clear Hv'.
  apply bind_inv in H. destruct H as [(sp & sb & Hp' & H) | (e & Hp' & _)];
    rewrite Hp in Hp'; [|discriminate].
  inversion Hp'; subst sp sb; clear Hp'.
  apply bind_inv in H. destruct H as [(de & sc & Hd & H) | (e & Hd & _)].
  2:{ apply get_docker_env_inv in Hd. destruct Hd as [_ Hd]. discriminate. }
  destruct (quiet_get_docker_env _ _ _ _ Hd) as [Ec _].
  apply bind_inv in H. destruct H as [(t0 & sd & Hs & H) | (e & Hs & _)];
    [|exfalso; exact (act_returns _ _ _ _ Hs)].
  destruct (quiet_act _ _ _ _ Hs) as [Ed _].
  apply bind_inv in H. destruct H as [(u & se & Hl & H) | (e & Hl & _)];
    [|exfalso; exact (log_event_returns _ _ _ _ Hl)].
  destruct (quiet_log_event _ _ _ _ Hl) as [Ee _].
  assert (E0 : executed se = executed st) by congruence.
  apply bind_inv in H. destruct H as [(r1 & s1 & H1 & H) | (e & H1 & _)];
    apply run_command_env_ran in H1; destruct H1 as (x1 & [R1 _] & _).
  2:{ exists x1, []. congruence. }
  assert (Hmore : exists more, executed st' = executed s1 ++ more).
  { revert H. apply runs_only_any. cbv zeta.
    apply runs_only_if.
    { apply runs_only_bind; [apply runs_only_quiet, quiet_log_event|]. intros _.
      apply runs_only_quiet, quiet_build_response. }
    apply runs_only_bind; [apply runs_only_runner; auto|].
    intros config_result.
    apply runs_only_bind.
    { apply runs_only_if; [|apply runs_only_quiet, quiet_ret].
      apply runs_only_bind; [apply runs_only_runner; auto
                            | intros r; apply runs_only_quiet, quiet_ret]. }
    intros steps3.
    apply runs_only_bind.
    { apply runs_only_if; [|apply runs_only_quiet, quiet_ret].
      apply runs_only_bind; [apply runs_only_runner; auto
                            | intros r; apply runs_only_quiet, quiet_ret]. }
    intros steps4.
    apply runs_only_bind; [apply runs_only_quiet, quiet_log_event|]. intros _.
    apply runs_only_quiet, quiet_build_response. }
  destruct Hmore as (more & Hm). exists x1, more.
  rewrite Hm, R1, E0, <- (assoc_L (++)). reflexivity.
Qed.

(** C4.  In every deployment run the external commands are a prefix of
    status, config, pull, up, in that order.  The first of them is run as
    soon as the name is valid and the stack is found.  The step of a command
    (one of the first three) is followed by the next one exactly when it
    passed, that is when its [ok] is true: its command exited with code 0
    and, for status, listed a service; so nothing is run after a step whose
    [ok] is false, and all four are run when the first three pass.  The run
    ends either with a response that lists exactly the steps attempted, in
    order, each with [ok] true exactly when it passed, or with the exception
    that the last command raised (or, no command having been run, that the
    checks before the first step raised). *)
Theorem perform_deploy_steps_in_order stack st res st' :
  perform_deploy stack st = (res, st') ->
  exists new,
    executed st' = executed st ++ new /\
    map ex_step new `prefix_of` STEP_NAMES /\
    (forall p, validate_stack_name stack st = (Return stack, st) ->
               get_stack_path stack st = (Return p, st) -> new <> []) /\
    (forall i x, new !! i = Some x ->
       ((S i < length new)%nat <-> step_passed x /\ (S i < length STEP_NAMES)%nat)) /\
    ((exists steps started_at finished_at,
        res = Return (JSONResponse
                (if forallb ok steps then HTTP_200_OK else HTTP_500_INTERNAL_SERVER_ERROR)
                (envelope (forallb ok steps) stack steps started_at finished_at)) /\
        map name steps = map ex_step new /\
        (forall i x s, new !! i = Some x -> steps !! i = Some s ->
           (ok s = true <-> step_passed x)))
     \/
     (exists e, res = Raise e /\ forall x, last new = Some x -> ex_outcome x = Raise e)).
Proof.
  intros H. pose proof H as Hrun. apply perform_deploy_chain in H.
  destruct H as [(E1 & _ & e & ->) | (new & steps & oe & E1 & _ & Hc & Ha)].
  - exists []. rewrite app_nil_r. split; [exact E1|]. split; [apply prefix_nil|].
    split.
    { intros p Hv Hp. exfalso.
      destruct (perform_deploy_started _ _ _ _ _ Hrun Hv Hp) as (x & more & Hx).
      rewrite E1 in Hx. rewrite <- (app_nil_r (executed st)) in Hx at 1.
      apply app_inv_head in Hx. discriminate. }
    split; [intros i x Hi; discriminate|].
    right. exists e. split; [reflexivity | intros x Hx; discriminate].
  - exists new. split; [exact E1|]. split; [eapply chain_names_prefix; eassumption|].
    split; [intros p _ _; exact (chain_started _ _ _ _ _ Hc)|].
    split; [exact (chain_gate _ _ _ _ Hc)|].
    destruct oe as [e|]; cbn in Ha.
    + right. exists e. split; [exact Ha|]. intros x Hx.
      destruct (chain_raised _ _ _ _ Hc) as (y & Hy & Ho). congruence.
    + left. destruct Ha as (t0 & t1 & Ha). exists steps, t0, t1.
      split; [exact Ha|]. split; [apply (chain_step_names _ _ _ Hc)|].
      exact (chain_returned _ _ _ Hc).
Qed.

(** ** Redaction line by line *)

























(** ** The steps of a run are what the runner returned *)

Lemma run_command_env_cases name args cwd timeout env st t0 w1 out w2 t1 w3 :
  time_time (world st) = (t0, w1) ->
  subprocess_run args cwd timeout (child_env env w1) w1 = (out, w2) ->
  time_time w2 = (t1, w3) ->
  exists st',
    run_command_env name args cwd timeout env st =
      (match out with
       | Return proc =>
           Return (completed_step name proc (py_int (fmul (fsub t1 t0) 1000)))
       | Raise (TimeoutExpired exc) =>
           Return (timeout_step name timeout exc (py_int (fmul (fsub t1 t0) 1000)))
       | Raise e => Raise e
       end, st') /\
    executed st' =
      executed st ++ [{| ex_step := name; ex_args := args; ex_cwd := cwd; ex_timeout := timeout;
                         ex_env := child_env env w1; ex_outcome := out |}].
Proof.
  intros Ht Hp Ht1.
  unfold run_command_env, log_event, run_subprocess, try_except, bind, act, ask, ret.
  rewrite Ht. cbn [world].
  change (match env with
          | Some e => if bool_decide (e = ∅) then os_environ w1 else e ∪ os_environ w1
          | None => os_environ w1
          end) with (child_env env w1).
  rewrite Hp. cbn [world].
  destruct out as [proc | e].
  - rewrite Ht1. cbn [world]. destruct (datetime_now w3) as [ts w4].
    eexists. split; reflexivity.
  - destruct e; try (eexists; split; reflexivity).
    cbn [world]. rewrite Ht1. cbn [world]. destruct (datetime_now w3) as [ts w4].
    eexists. split; reflexivity.
Qed.

Lemma made_by_runner_timeout x r exc :
  made_by_runner x (Return r) ->
  ex_outcome x = Raise (TimeoutExpired exc) ->
  exists sa started w1 w2 finished w3,
    time_time (world sa) = (started, w1) /\
    subprocess_run (ex_args x) (ex_cwd x) (ex_timeout x) (ex_env x) w1
      = (Raise (TimeoutExpired exc), w2) /\
    time_time w2 = (finished, w3) /\
    r = timeout_step (ex_step x) (ex_timeout x) exc (py_int (fmul (fsub finished started) 1000)).
Proof.
  intros (env & sa & sb & Hrun & Hex) Ho.
  destruct (time_time (world sa)) as [started w1] eqn:Ht.
  destruct (subprocess_run (ex_args x) (ex_cwd x) (ex_timeout x) (child_env env w1) w1)
    as [out w2] eqn:Hp.
  destruct (time_time w2) as [finished w3] eqn:Ht1.
  destruct (run_command_env_cases (ex_step x) (ex_args x) (ex_cwd x) (ex_timeout x) env sa
              started w1 out w2 finished w3 Ht Hp Ht1) as (st' & Hrun' & Hex').
  rewrite Hrun in Hrun'. inversion Hrun' as [[Hres Hst]]. subst st'.
  rewrite Hex in Hex'. apply app_inv_head in Hex'. inversion Hex' as [Hx].
  pose proof (f_equal ex_env Hx) as Henv. pose proof (f_equal ex_outcome Hx) as Hout.
  cbn [ex_env ex_outcome] in Henv, Hout.
  rewrite Ho in Hout. subst out.
  exists sa, started, w1, w2, finished, w3.
  split; [exact Ht|]. split; [exact Hp|]. split; [exact Ht1|].
  inversion Hres. reflexivity.
Qed.

Lemma chain_run_timeout todo xs ss oe i x exc :
  chain_run todo xs ss oe -> xs !! i = Some x -> ex_outcome x = Raise (TimeoutExpired exc) ->
  exists r, made_by_runner x (Return r) /\ ss !! i = Some r.
Proof.
  intros H. revert i.
  induction H as [|n todo x0 e Hn Hm|n todo x0 r0 Hn Hm Ho|n todo x0 r0 xs ss oe Hn Hm Ho _ IH];
    intros i Hi Hx.
  - discriminate.
  - destruct i as [|i]; [|discriminate]. cbn in Hi. inversion Hi; subst x0.
    exfalso. destruct Hm as (env & sa & sb & Hrun & Hex).
    destruct (time_time (world sa)) as [started w1] eqn:Ht.
    destruct (subprocess_run (ex_args x) (ex_cwd x) (ex_timeout x) (child_env env w1) w1)
      as [out w2] eqn:Hp.
    destruct (time_time w2) as [finished w3] eqn:Ht1.
    destruct (run_command_env_cases (ex_step x) (ex_args x) (ex_cwd x) (ex_timeout x) env sa
                started w1 out w2 finished w3 Ht Hp Ht1) as (st' & Hrun' & Hex').
    rewrite Hrun in Hrun'. inversion Hrun' as [[Hres Hst]]. subst st'.
    rewrite Hex in Hex'. apply app_inv_head in Hex'. inversion Hex' as [Hx0].
    pose proof (f_equal ex_outcome Hx0) as Hout. cbn [ex_outcome] in Hout.
    rewrite Hx in Hout. subst out. discriminate.
  - destruct i as [|i]; [|discriminate]. cbn in Hi. inversion Hi; subst x0.
    exists r0. split; [exact Hm|].
    destruct (made_by_runner_timeout _ _ _ Hm Hx) as (sa0 & started & w1 & w2 & finished & w3 & _ & _ & _ & Hr).
    rewrite kept_failed; [reflexivity | rewrite Hr; reflexivity].
  - destruct i as [|i]; cbn in Hi.
    + inversion Hi; subst x0. exfalso.
      destruct (made_by_runner_timeout _ _ _ Hm Hx) as (sa0 & started & w1 & w2 & finished & w3 & _ & _ & _ & Hr).
      rewrite kept_failed in Ho; [|rewrite Hr; reflexivity].
      rewrite Hr in Ho. discriminate.
    + exact (IH _ Hi Hx).
Qed.

Lemma made_by_runner_intro name args cwd timeout env sa res sb x :
  run_command_env name args cwd timeout env sa = (res, sb) ->
  executed sb = executed sa ++ [x] ->
  ex_step x = name -> ex_args x = args -> ex_cwd x = cwd -> ex_timeout x = timeout ->
  made_by_runner x res.
Proof.
  intros Hrun Hex <- <- <- <-. exists env, sa, sb. split; assumption.
Qed.

Ltac keep_frame Hq Hm :=
  let E1 := fresh "Eexec" in
  let E2 := fresh "Ebuck" in
  destruct (Hq _ _ _ Hm) as [E1 E2].

Lemma perform_deploy_chain_run stack st res st' :
  perform_deploy stack st = (res, st') ->
  (executed st' = executed st /\ request_buckets st' = request_buckets st /\
   exists e, res = Raise e)
  \/
  (exists new steps oe,
     executed st' = executed st ++ new /\ request_buckets st' = request_buckets st /\
     chain_run STEP_NAMES new steps oe /\ deploy_answer stack steps oe res).
Proof.
  intros H. unfold perform_deploy in H.
  apply bind_inv in H. destruct H as [(nm & sa & Hv & H) | (e & Hv & H)];
    keep_frame (quiet_validate_stack_name stack) Hv; [|left; subst; eauto].
  apply bind_inv in H. destruct H as [(sp & sb & Hp & H) | (e & Hp & H)];
    keep_frame (quiet_get_stack_path stack) Hp;
    [|left; subst; repeat split; eauto; congruence].
  apply bind_inv in H. destruct H as [(de & sc & Hd & H) | (e & Hd & H)];
    keep_frame (quiet_get_docker_env sp) Hd;
    [|left; subst; repeat split; eauto; congruence].
  apply bind_inv in H. destruct H as [(t0 & sd & Hs & H) | (e & Hs & H)];
    keep_frame (quiet_act datetime_now) Hs;
    [|left; subst; repeat split; eauto; congruence].
  apply bind_inv in H. destruct H as [(u & se & Hl & H) | (e & Hl & H)];
    keep_frame (quiet_log_event
      [(py "event", JStr (py "deploy_start")); (py "stack", JStr stack);
       (py "docker_config",
        match de !! py "DOCKER_CONFIG" with Some d => JStr d | None => JNull end)]) Hl;
    [|left; subst; repeat split; eauto; congruence].
  right.
  assert (E0 : executed se = executed st) by congruence.
  assert (B0 : request_buckets se = request_buckets st) by congruence.
  clear Hv Hp Hd Hs Hl Eexec Ebuck Eexec0 Ebuck0 Eexec1 Ebuck1 Eexec2 Ebuck2 Eexec3 Ebuck3.
  (* status *)
  apply bind_inv in H. destruct H as [(r1 & s1 & H1 & H) | (e & H1 & H)];
    pose proof H1 as K1; apply run_command_env_ran in H1;
    destruct H1 as (x1 & [R1 B1] & N1 & A1 & C1 & T1 & S1).
  2:{ subst res. exists [x1], [], (Some e).
      split; [congruence|]. split; [congruence|]. split; [|reflexivity].
      apply chain_run_raise; [exact N1 | exact (made_by_runner_intro _ _ _ _ _ _ _ _ _ K1 R1 N1 A1 C1 T1)]. }
  assert (M1 : made_by_runner x1 (Return r1)) by exact (made_by_runner_intro _ _ _ _ _ _ _ _ _ K1 R1 N1 A1 C1 T1).
  cbv zeta in H.
  change (if ok r1 && bool_decide (running_services (tail r1) = [])
      then {| name := name r1; ok := false; exit_code := exit_code r1;
              duration_ms := duration_ms r1;
              tail := tail r1 ++ 10 :: py "No running services found; aborting deploy." |}
      else r1) with (mark_idle r1) in H.
  change (last_ok [mark_idle r1]) with (ok (mark_idle r1)) in H.
  destruct (ok (mark_idle r1)) eqn:O1; cbn [negb] in H.
  2:{ apply log_then_build in H. destruct H as (Ha & E3 & E4).
      exists [x1], [mark_idle r1], None.
      split; [congruence|]. split; [congruence|]. split; [|exact Ha].
      exact (chain_run_stop (py "status") _ x1 r1 N1 M1 O1). }
  (* config *)
  apply bind_inv in H. destruct H as [(r2 & s2 & H2 & H) | (e & H2 & H)];
    pose proof H2 as K2; apply run_command_env_ran in H2;
    destruct H2 as (x2 & [R2 B2] & N2 & A2 & C2 & T2 & S2).
  2:{ subst res. exists [x1; x2], [mark_idle r1], (Some e).
      split; [rewrite R2, R1, E0, <- (assoc_L (++)); reflexivity|].
      split; [congruence|]. split; [|reflexivity].
      apply (chain_run_next (py "status") _ x1 r1 _ _ _ N1 M1 O1).
      apply chain_run_raise; [exact N2 | exact (made_by_runner_intro _ _ _ _ _ _ _ _ _ K2 R2 N2 A2 C2 T2)]. }
  assert (M2 : made_by_runner x2 (Return r2)) by exact (made_by_runner_intro _ _ _ _ _ _ _ _ _ K2 R2 N2 A2 C2 T2).
  cbv zeta in H.
  change (last_ok ([mark_idle r1] ++ [r2])) with (ok r2) in H.
  assert (E2 : executed s2 = executed st ++ [x1; x2])
    by (rewrite R2, R1, E0, <- (assoc_L (++)); reflexivity).
  assert (B2' : request_buckets s2 = request_buckets st) by congruence.
  clear R1 R2 B1 B2 E0 B0.
  destruct (ok r2) eqn:O2.
  2:{ unfold bind at 1 2 in H. unfold ret at 1 in H. cbn [List.app] in H.
      change (last_ok [mark_idle r1; r2]) with (ok r2) in H. rewrite O2 in H.
      unfold ret at 1 in H.
      apply log_then_build in H. destruct H as (Ha & E3 & E4).
      exists [x1; x2], [mark_idle r1; r2], None.
      split; [congruence|]. split; [congruence|]. split; [|exact Ha].
      apply (chain_run_next (py "status") _ x1 r1 _ _ _ N1 M1 O1).
      exact (chain_run_stop (py "config") _ x2 r2 N2 M2 O2). }
  (* pull *)
  apply bind_inv in H. destruct H as [(steps3 & s3 & H3 & H) | (e & H3 & H)].
  2:{ apply bind_inv in H3. destruct H3 as [(r3 & s3 & H3 & H3') | (e3 & H3 & H3')];
        [discriminate|].
      pose proof H3 as K3. apply run_command_env_ran in H3.
      destruct H3 as (x3 & [R3 B3] & N3 & A3 & C3 & T3 & S3).
      inversion H3'; subst e3. subst res. exists [x1; x2; x3], [mark_idle r1; r2], (Some e).
      split; [rewrite R3, E2, <- (assoc_L (++)); reflexivity|].
      split; [congruence|]. split; [|reflexivity].
      apply (chain_run_next (py "status") _ x1 r1 _ _ _ N1 M1 O1).
      apply (chain_run_next (py "config") _ x2 r2 _ _ _ N2 M2 O2).
      apply chain_run_raise; [exact N3 | exact (made_by_runner_intro _ _ _ _ _ _ _ _ _ K3 R3 N3 A3 C3 T3)]. }
  apply bind_inv in H3. destruct H3 as [(r3 & s3' & H3 & H3') | (e3 & H3 & H3')];
    [|discriminate].
  inversion H3'; subst steps3 s3'; clear H3'.
  pose proof H3 as K3. apply run_command_env_ran in H3.
  destruct H3 as (x3 & [R3 B3] & N3 & A3 & C3 & T3 & S3).
  assert (M3 : made_by_runner x3 (Return r3)) by exact (made_by_runner_intro _ _ _ _ _ _ _ _ _ K3 R3 N3 A3 C3 T3).
  assert (E3 : executed s3 = executed st ++ [x1; x2; x3])
    by (rewrite R3, E2, <- (assoc_L (++)); reflexivity).
  assert (B3' : request_buckets s3 = request_buckets st) by congruence.
  clear R3 B3 E2 B2'.
  cbn [List.app] in H.
  change (last_ok [mark_idle r1; r2; r3]) with (ok r3) in H.
  destruct (ok r3) eqn:O3.
  2:{ unfold bind at 1 in H. unfold ret at 1 in H.
      apply log_then_build in H. destruct H as (Ha & E4 & B4).
      exists [x1; x2; x3], [mark_idle r1; r2; r3], None.
      split; [congruence|]. split; [congruence|]. split; [|exact Ha].
      apply (chain_run_next (py "status") _ x1 r1 _ _ _ N1 M1 O1).
      apply (chain_run_next (py "config") _ x2 r2 _ _ _ N2 M2 O2).
      exact (chain_run_stop (py "pull") _ x3 r3 N3 M3 O3). }
  (* up *)
  apply bind_inv in H. destruct H as [(steps4 & s4 & H4 & H) | (e & H4 & H)].
  2:{ apply bind_inv in H4. destruct H4 as [(r4 & s4 & H4 & H4') | (e4 & H4 & H4')];
        [discriminate|].
      pose proof H4 as K4. apply run_command_env_ran in H4.
      destruct H4 as (x4 & [R4 B4] & N4 & A4 & C4 & T4 & S4).
      inversion H4'; subst e4. subst res.
      exists [x1; x2; x3; x4], [mark_idle r1; r2; r3], (Some e).
      split; [rewrite R4, E3, <- (assoc_L (++)); reflexivity|].
      split; [congruence|]. split; [|reflexivity].
      apply (chain_run_next (py "status") _ x1 r1 _ _ _ N1 M1 O1).
      apply (chain_run_next (py "config") _ x2 r2 _ _ _ N2 M2 O2).
      apply (chain_run_next (py "pull") _ x3 r3 _ _ _ N3 M3 O3).
      apply chain_run_raise; [exact N4 | exact (made_by_runner_intro _ _ _ _ _ _ _ _ _ K4 R4 N4 A4 C4 T4)]. }
  apply bind_inv in H4. destruct H4 as [(r4 & s4' & H4 & H4') | (e4 & H4 & H4')];
    [|discriminate].
  inversion H4'; subst steps4 s4'; clear H4'.
  pose proof H4 as K4. apply run_command_env_ran in H4.
  destruct H4 as (x4 & [R4 B4] & N4 & A4 & C4 & T4 & S4).
  assert (M4 : made_by_runner x4 (Return r4)) by exact (made_by_runner_intro _ _ _ _ _ _ _ _ _ K4 R4 N4 A4 C4 T4).
  cbn [List.app] in H.
  apply log_then_build in H. destruct H as (Ha & E5 & B5).
  exists [x1; x2; x3; x4], [mark_idle r1; r2; r3; r4], None.
  split; [rewrite E5, R4, E3, <- (assoc_L (++)); reflexivity|].
  split; [congruence|]. split; [|exact Ha].
  destruct (ok r4) eqn:O4.
  - apply (chain_run_next (py "status") _ x1 r1 _ _ _ N1 M1 O1).
    apply (chain_run_next (py "config") _ x2 r2 _ _ _ N2 M2 O2).
    apply (chain_run_next (py "pull") _ x3 r3 _ _ _ N3 M3 O3).
    apply (chain_run_next (py "up") _ x4 r4 _ _ _ N4 M4 O4). apply chain_run_done.
  - apply (chain_run_next (py "status") _ x1 r1 _ _ _ N1 M1 O1).
    apply (chain_run_next (py "config") _ x2 r2 _ _ _ N2 M2 O2).
    apply (chain_run_next (py "pull") _ x3 r3 _ _ _ N3 M3 O3).
    exact (chain_run_stop (py "up") _ x4 r4 N4 M4 O4).
Qed.

Lemma made_by_runner_step_of x res : made_by_runner x res -> step_of x res.
Proof.
  intros (env & sa & sb & Hrun & Hex). apply run_command_env_ran in Hrun.
  destruct Hrun as (y & [Hy _] & _ & _ & _ & _ & Hs).
  rewrite Hex in Hy. apply app_inv_head in Hy. inversion Hy; subst y. exact Hs.
Qed.

Lemma chain_run_chain todo xs ss oe : chain_run todo xs ss oe -> chain todo xs ss oe.
Proof.
  induction 1 as [|n todo x e Hn Hm|n todo x r Hn Hm Ho|n todo x r xs ss oe Hn Hm Ho _ IH].
  - apply chain_done.
  - apply chain_raise; [exact Hn | apply made_by_runner_step_of, Hm].
  - apply chain_stop; [exact Hn | | exact Ho].
    exists r. split; [apply made_by_runner_step_of, Hm | rewrite Hn; reflexivity].
  - apply chain_next; [exact Hn | | exact Ho | exact IH].
    exists r. split; [apply made_by_runner_step_of, Hm | rewrite Hn; reflexivity].
Qed.

(** C7.  When the external command of a step exceeds its timeout, the
    runner returns a step result with [ok] false, no exit code, a tail that
    says so, and as [duration_ms] the time from the reading of the clock
    before the command to the reading after the timeout, in whole
    milliseconds, [int((finished - started) * 1000)]; the exception does not
    leave the runner.  In a deployment run the step that timed out is the
    last command run, and the answer is the 500 response whose last step is
    that result of the runner, with the duration measured around that
    command. *)
Theorem timeout_fails_step_and_stops_run :
  (forall name args cwd timeout env st started w1 exc w2 finished w3,
     time_time (world st) = (started, w1) ->
     subprocess_run args cwd timeout (child_env env w1) w1 = (Raise (TimeoutExpired exc), w2) ->
     time_time w2 = (finished, w3) ->
     exists st',
       run_command_env name args cwd timeout env st =
       (Return {| name := name; ok := false; exit_code := None;
                  duration_ms := py_int (fmul (fsub finished started) 1000);
                  tail := py "timeout after " ++ str_of_Z timeout ++ py "s: " ++ exc |}, st')) /\
  (forall stack st res st' new i x exc,
     perform_deploy stack st = (res, st') ->
     executed st' = executed st ++ new ->
     new !! i = Some x ->
     ex_outcome x = Raise (TimeoutExpired exc) ->
     S i = length new /\
     exists steps started_at finished_at sa started w1 w2 finished w3,
       res = Return (JSONResponse HTTP_500_INTERNAL_SERVER_ERROR
               (envelope false stack steps started_at finished_at)) /\
       length steps = S i /\
       time_time (world sa) = (started, w1) /\
       subprocess_run (ex_args x) (ex_cwd x) (ex_timeout x) (ex_env x) w1
         = (Raise (TimeoutExpired exc), w2) /\
       time_time w2 = (finished, w3) /\
       steps !! i = Some {| name := ex_step x; ok := false; exit_code := None;
                            duration_ms := py_int (fmul (fsub finished started) 1000);
                            tail := py "timeout after " ++ str_of_Z (ex_timeout x)
                                    ++ py "s: " ++ exc |}).
Proof.
  split.
  - intros name args cwd timeout env st started w1 exc w2 finished w3 Ht Hp Ht1.
    destruct (run_command_env_timeout_at name args cwd timeout env st started w1 exc w2
                finished w3 Ht Hp Ht1) as (st' & Hrun & _).
    exists st'. exact Hrun.
  - intros stack st res st' new i x exc H Hex Hi Ho. apply perform_deploy_chain_run in H.
    destruct H as [(E1 & _) | (new' & steps & oe & E1 & _ & Hc & Ha)].
    + exfalso. rewrite E1 in Hex. rewrite <- (app_nil_r (executed st)) in Hex at 1.
      apply app_inv_head in Hex. subst new. discriminate.
    + rewrite E1 in Hex. apply app_inv_head in Hex. subst new'.
      destruct (chain_timeout_is_last _ _ _ _ _ _ _ (chain_run_chain _ _ _ _ Hc) Hi Ho)
        as (A & -> & B & d & C).
      destruct (chain_run_timeout _ _ _ _ _ _ _ Hc Hi Ho) as (r & Hm & Hr).
      destruct (made_by_runner_timeout _ _ _ Hm Ho)
        as (sa & started & w1 & w2 & finished & w3 & Ht & Hp & Ht1 & ->).
      split; [exact A|]. cbn in Ha. destruct Ha as (t0 & t1 & ->).
      assert (F : forallb ok steps = false)
        by (eapply forallb_ok_failed; [exact C | reflexivity]).
      rewrite F. exists steps, t0, t1, sa, started, w1, w2, finished, w3.
      repeat split; assumption.
Qed.

End Further.

(** * Further worked examples *)

(** ** Stack names and paths *)

Lemma invalid_name_stops_deploy_witness :
  @perform_deploy demo (py "../etc") (demo_state [] [] ∅) =
    (Raise (HTTPException 400 (py "invalid stack name")), demo_state [] [] ∅).
Proof.
  apply (@invalid_name_stops_deploy demo (py "../etc") (demo_state [] [] ∅)).
  right. exists 46. split; [left; reflexivity|]. split; [reflexivity | discriminate].
Defined.

Lemma get_stack_path_returns_contained_stack_witness :
  @path_is_dir demo (demo_world [] []) [py "/"; py "stacks"; py "web"] = true /\
  @path_exists demo (demo_world [] [])
    (joinpath [py "/"; py "stacks"; py "web"] (py "docker-compose.yml")) = true.
Proof.
  destruct (@get_stack_path_returns_contained_stack demo (py "web") (demo_state [] [] ∅)
              [py "/"; py "stacks"; py "web"] (demo_state [] [] ∅))
    as (_ & _ & _ & _ & Hdir & Hfile).
  - vm_compute. reflexivity.
  - split; [exact Hdir | exact Hfile].
Defined.

Lemma get_stack_path_errors_witness :
  @get_stack_path demo (py "ghost") (demo_state [] [] ∅) =
    (Raise (HTTPException 404 (py "stack not found")), demo_state [] [] ∅).
Proof.
  destruct (@get_stack_path_errors demo (py "ghost") (demo_state [] [] ∅)
              [py "/"; py "stacks"; py "ghost"]) as [_ H].
  - vm_compute. reflexivity.
  - destruct (H [py "/"; py "stacks"]) as [H404 _].
    + vm_compute. reflexivity.
    + vm_compute. reflexivity.
    + right. exists [py "ghost"]. split; [discriminate | reflexivity].
    + apply H404. left. vm_compute. reflexivity.
Defined.

(** ** Deployment runs *)

Lemma perform_deploy_runs_table_commands_witness :
  Forall (fun x =>
            In (ex_step x, ex_args x, ex_timeout x) (@STEP_TABLE demo) /\
            ex_cwd x = [py "/"; py "stacks"; py "web"])
    [demo_status_call (exits 0 (py "web" ++ [10]));
     demo_config_call (exits 1 (py "invalid compose file"))].
Proof.
  pose proof (@perform_deploy_runs_table_commands demo (py "web") demo_failed_config
                (@perform_deploy demo (py "web") demo_failed_config).1
                (@perform_deploy demo (py "web") demo_failed_config).2
                [demo_status_call (exits 0 (py "web" ++ [10]));
                 demo_config_call (exits 1 (py "invalid compose file"))]) as H.
  assert (Hrun : @perform_deploy demo (py "web") demo_failed_config =
                 ((@perform_deploy demo (py "web") demo_failed_config).1,
                  (@perform_deploy demo (py "web") demo_failed_config).2))
    by (vm_compute; reflexivity).
  assert (Hex : executed (@perform_deploy demo (py "web") demo_failed_config).2 =
                executed demo_failed_config ++
                [demo_status_call (exits 0 (py "web" ++ [10]));
                 demo_config_call (exits 1 (py "invalid compose file"))])
    by (vm_compute; reflexivity).
  specialize (H Hrun Hex).
  eapply Forall_impl; [exact H|].
  intros x [Hin Hcwd]. split; [exact Hin|].
  assert (Hp : @path_resolve demo (world demo_failed_config)
                 (joinpath (stacks_root (@settings demo)) (py "web"))
               = Return [py "/"; py "stacks"; py "web"]) by (vm_compute; reflexivity).
  rewrite Hp in Hcwd. inversion Hcwd. reflexivity.
Defined.

(** Status, config, pull and up all exit with 0. *)
Definition demo_all_pass : @AppState demo :=
  demo_state [0%Q; 1%Q; 1%Q; 2%Q; 2%Q; 3%Q; 3%Q; 4%Q]
    [exits 0 (py "web" ++ [10]); exits 0 []; exits 0 []; exits 0 []] ∅.

Lemma deploy_is_200_exactly_when_all_steps_pass_witness :
  map ex_step (executed (@perform_deploy demo (py "web") demo_all_pass).2) = STEP_NAMES /\
  Forall exited_zero (executed (@perform_deploy demo (py "web") demo_all_pass).2).
Proof.
  destruct (@deploy_is_200_exactly_when_all_steps_pass demo (py "web") demo_all_pass
              (JSONResponse 200
                 (envelope true (py "web")
                    (map (fun n => {| name := n; ok := true; exit_code := Some 0%Z;
                                      duration_ms := 1000;
                                      tail := if bool_decide (n = py "status")
                                              then py "web" ++ [10] else [] |}) STEP_NAMES)
                    demo_now demo_now))
              (@perform_deploy demo (py "web") demo_all_pass).2
              (executed (@perform_deploy demo (py "web") demo_all_pass).2))
    as [[H _] _].
  - vm_compute. reflexivity.
  - vm_compute. reflexivity.
  - assert (Hcode : status_code
                      (JSONResponse 200
                         (envelope true (py "web")
                            (map (fun n => {| name := n; ok := true; exit_code := Some 0%Z;
                                              duration_ms := 1000;
                                              tail := if bool_decide (n = py "status")
                                                      then py "web" ++ [10] else [] |})
                               STEP_NAMES)
                            demo_now demo_now)) = 200%Z) by reflexivity.
    destruct (H Hcode) as (H1 & H2 & _). split; [exact H1 | exact H2].
Defined.

(** ** Signatures and entry points *)

Definition demo_web_bytes : bytes := list_byte_of_string "web".

Lemma verify_signature_ignores_surrounding_space_witness :
  @verify_signature demo ([32] ++ @compute_signature demo demo_web_bytes ++ [13; 10])
    demo_web_bytes (demo_state [] [] ∅) = (Return tt, demo_state [] [] ∅).
Proof.
  apply (@verify_signature_ignores_surrounding_space demo [32] [13; 10] demo_web_bytes
           (demo_state [] [] ∅)); repeat constructor.
Defined.

Lemma verify_signature_is_exact_on_ascii_witness :
  @verify_signature demo (py "deadbeef") demo_web_bytes (demo_state [] [] ∅) =
    (Raise (HTTPException 401 (py "invalid signature")), demo_state [] [] ∅).
Proof.
  destruct (@verify_signature_is_exact_on_ascii demo (py "deadbeef") demo_web_bytes
              (demo_state [] [] ∅)) as [_ H].
  - discriminate.
  - vm_compute. reflexivity.
  - apply H. vm_compute. discriminate.
Defined.

Lemma unsigned_request_is_401_witness :
  @routes demo (demo_request DeployBody None demo_array_body) (demo_state [] [] ∅) =
    (Return (JSONResponse 401 (error_body (py "missing signature"))), demo_state [] [] ∅).
Proof.
  destruct (@unsigned_request_is_401 demo (demo_request DeployBody None demo_array_body)
              (demo_state [] [] ∅)) as [H _].
  - left. reflexivity.
  - apply H. reflexivity.
Defined.

(** A POST /deploy whose signed body is the empty JSON object. *)
Definition demo_empty_object : bytes := list_byte_of_string "{}".

Definition demo_empty_object_request : Request :=
  demo_request DeployBody (Some (@compute_signature demo demo_empty_object)) demo_empty_object.

Lemma deploy_body_bad_payload_is_400_witness :
  @routes demo demo_empty_object_request (demo_state [] [] ∅) =
    (Return (JSONResponse 400 (error_body (py "stack is required"))), demo_state [] [] ∅).
Proof.
  destruct (@deploy_body_bad_payload_is_400 demo demo_empty_object_request
              (demo_state [] [] ∅) (@compute_signature demo demo_empty_object) (py "{}"))
    as [_ H].
  - reflexivity.
  - reflexivity.
  - vm_compute. discriminate.
  - vm_compute. reflexivity.
  - vm_compute. reflexivity.
  - apply (H []).
    + vm_compute. reflexivity.
    + vm_compute. reflexivity.
Defined.

Lemma entry_points_start_the_same_deployment_witness :
  @endpoint demo
    (demo_request (DeployStack (py "web")) (Some (@compute_signature demo demo_web_bytes)) [])
    demo_all_pass
  = @perform_deploy demo (py "web") demo_all_pass.
Proof.
  destruct (@entry_points_start_the_same_deployment demo
              (demo_request (DeployStack (py "web"))
                 (Some (@compute_signature demo demo_web_bytes)) [])
              demo_all_pass (@compute_signature demo demo_web_bytes))
    as (_ & _ & H).
  - reflexivity.
  - vm_compute. discriminate.
  - apply (H (py "web") demo_web_bytes).
    + reflexivity.
    + reflexivity.
    + vm_compute. reflexivity.
    + vm_compute. reflexivity.
Defined.

(** ** Buckets *)

(** The client is at its quota of three ([demo_full]): the request is
    refused and the bucket stays at three timestamps.  The oldest of the three
    has left the window ([demo_room]): it is dropped, the request is recorded
    and the bucket is again at three. *)
Lemma buckets_never_exceed_quota_witness :
  (@buckets_within demo 3 (@app demo demo_health demo_full).2 /\
   request_buckets (@app demo demo_health demo_full).2 !! demo_client
     = Some [20%Q; 30%Q; 50%Q]) /\
  (@buckets_within demo 3 (@app demo demo_health demo_room).2 /\
   request_buckets (@app demo demo_health demo_room).2 !! demo_client
     = Some [30%Q; 50%Q; 70%Q]).
Proof.
  split; (split; [|vm_compute; reflexivity]).
  - apply (@buckets_never_exceed_quota demo demo_health demo_full
             (@app demo demo_health demo_full).1 (@app demo demo_health demo_full).2).
    + vm_compute. discriminate.
    + intros c b H.
      change (request_buckets demo_full)
        with ({[ demo_client := [20%Q; 30%Q; 50%Q] ]} : gmap str (list Q)) in H.
      apply lookup_singleton_Some in H. destruct H as [_ <-]. vm_compute. discriminate.
    + vm_compute. reflexivity.
  - apply (@buckets_never_exceed_quota demo demo_health demo_room
             (@app demo demo_health demo_room).1 (@app demo demo_health demo_room).2).
    + vm_compute. discriminate.
    + intros c b H.
      change (request_buckets demo_room)
        with ({[ demo_client := [0%Q; 30%Q; 50%Q] ]} : gmap str (list Q)) in H.
      apply lookup_singleton_Some in H. destruct H as [_ <-]. vm_compute. discriminate.
    + vm_compute. reflexivity.
Defined.

(** A bucket of three timestamps in time order, none later than the time of
    the request: the oldest is dropped, the new one is put at the end, and the
    bucket is in time order again. *)
Lemma buckets_stay_in_time_order_witness :
  @buckets_sorted demo (@app demo demo_health demo_room).2 /\
  request_buckets (@app demo demo_health demo_room).2 !! demo_client
    = Some [30%Q; 50%Q; 70%Q].
Proof.
  split; [|vm_compute; reflexivity].
  apply (@buckets_stay_in_time_order demo demo_health demo_room 70%Q (demo_world [] [])
           (@app demo demo_health demo_room).1 (@app demo demo_health demo_room).2).
  - vm_compute. reflexivity.
  - intros c b H.
    change (request_buckets demo_room)
      with ({[ demo_client := [0%Q; 30%Q; 50%Q] ]} : gmap str (list Q)) in H.
    apply lookup_singleton_Some in H. destruct H as [_ <-].
    repeat constructor; vm_compute; discriminate.
  - replace (default [] (request_buckets demo_room !! client_key demo_health))
      with [0%Q; 30%Q; 50%Q] by (vm_compute; reflexivity).
    repeat constructor; vm_compute; discriminate.
  - vm_compute. reflexivity.
Defined.

(** ** Runner and redaction *)

Lemma runner_result_invariants_witness :
  exists r st',
    @run_command_env demo (py "config") [py "docker"; py "compose"; py "config"]
      [py "/"; py "stacks"; py "web"] 120 None
      (demo_state [0%Q; 1%Q] [exits 0 demo_config_output] ∅) = (Return r, st') /\
    name r = py "config" /\ ok r = true /\ (length (tail r) <= 2000)%nat.
Proof.
  destruct (@runner_result_invariants demo (py "config") [py "docker"; py "compose"; py "config"]
              [py "/"; py "stacks"; py "web"] 120%Z None
              (demo_state [0%Q; 1%Q] [exits 0 demo_config_output] ∅)
              (completed_step (py "config")
                 {| returncode := 0; stdout := demo_config_output; stderr := [] |} 1000)
              (@run_command_env demo (py "config") [py "docker"; py "compose"; py "config"]
                 [py "/"; py "stacks"; py "web"] 120 None
                 (demo_state [0%Q; 1%Q] [exits 0 demo_config_output] ∅)).2)
    as (Hn & Hok & _ & Hlen).
  - vm_compute. reflexivity.
  - eexists. eexists. split; [vm_compute; reflexivity|].
    split; [exact Hn|]. split; [apply Hok; reflexivity|].
    destruct (Hlen 0%Z eq_refl) as [Hl _]. exact Hl.
Defined.

Lemma output_without_separator_is_unchanged_witness :
  sanitize_output (py "password rotated") = py "password rotated".
Proof.
  apply (output_without_separator_is_unchanged (py "password rotated")).
  vm_compute. repeat constructor.
Defined.

(** ** Environment, clients and quotas *)



Definition demo_other_client : str := py "10.0.0.9".

Lemma request_leaves_other_buckets_alone_witness :
  request_buckets
    (@app demo demo_health (demo_state [70%Q] [] {[ demo_other_client := [69%Q] ]})).2
    !! demo_other_client = Some [69%Q].
Proof.
  rewrite (@request_leaves_other_buckets_alone demo demo_health
             (demo_state [70%Q] [] {[ demo_other_client := [69%Q] ]})
             (@app demo demo_health (demo_state [70%Q] [] {[ demo_other_client := [69%Q] ]})).1
             (@app demo demo_health (demo_state [70%Q] [] {[ demo_other_client := [69%Q] ]})).2
             demo_other_client).
  - apply lookup_singleton_eq.
  - vm_compute. reflexivity.
  - intros H. vm_compute in H. discriminate H.
Defined.

(** The service configured with a quota of zero. *)
Definition demo_closed : Env := demo_env (demo_settings 0).

Definition demo_closed_state : @AppState demo_closed := {|
  world := demo_world [5%Q] [] : @World demo_closed;
  request_buckets := ∅;
  events := [];
  executed := []
|}.

Lemma quota_of_zero_refuses_everything_witness :
  (@app demo_closed demo_health demo_closed_state).1 = Return too_many_requests.
Proof.
  destruct (@quota_of_zero_refuses_everything demo_closed demo_health demo_closed_state)
    as (st' & H & _).
  - vm_compute. discriminate.
  - rewrite H. reflexivity.
Defined.

(** ** The deployment sequence, start to end *)

Lemma perform_deploy_steps_in_order_witness :
  (exists new,
     executed (@perform_deploy demo (py "web") demo_failed_config).2 =
       executed demo_failed_config ++ new /\
     map ex_step new = [py "status"; py "config"]) /\
  (exists new,
     executed (@perform_deploy demo (py "web") demo_all_pass).2 =
       executed demo_all_pass ++ new /\
     map ex_step new = [py "status"; py "config"; py "pull"; py "up"]).
Proof.
  split.
  - destruct (@perform_deploy_steps_in_order demo (py "web") demo_failed_config
                (@perform_deploy demo (py "web") demo_failed_config).1
                (@perform_deploy demo (py "web") demo_failed_config).2)
      as (new & Hex & _).
    + vm_compute. reflexivity.
    + exists new. split; [exact Hex|].
      change (executed demo_failed_config ++ new) with new in Hex.
      rewrite <- Hex. vm_compute. reflexivity.
  - destruct (@perform_deploy_steps_in_order demo (py "web") demo_all_pass
                (@perform_deploy demo (py "web") demo_all_pass).1
                (@perform_deploy demo (py "web") demo_all_pass).2)
      as (new & Hex & _).
    + vm_compute. reflexivity.
    + exists new. split; [exact Hex|].
      change (executed demo_all_pass ++ new) with new in Hex.
      rewrite <- Hex. vm_compute. reflexivity.
Defined.

(** ** Redaction line by line *)





(** ** Timeouts *)

Lemma timeout_fails_step_and_stops_run_witness :
  (exists st',
     @run_command_env demo (py "pull") [py "docker"; py "compose"; py "pull"]
       [py "/"; py "stacks"; py "web"] 600 None
       (demo_state [100%Q; 700.25%Q] [Raise (TimeoutExpired (py "timed out after 600 seconds"))] ∅)
     = (Return {| name := py "pull"; ok := false; exit_code := None; duration_ms := 600250;
                  tail := py "timeout after 600s: timed out after 600 seconds" |}, st')) /\
  (@perform_deploy demo (py "web") demo_config_timeout).1 =
    Return (JSONResponse 500
      (envelope false (py "web")
         [{| name := py "status"; ok := true; exit_code := Some 0%Z; duration_ms := 1000;
             tail := py "web" ++ [10] |};
          {| name := py "config"; ok := false; exit_code := None; duration_ms := 120000;
             tail := py "timeout after 120s: timed out after 120 seconds" |}]
         demo_now demo_now)).
Proof.
  destruct (@timeout_fails_step_and_stops_run demo) as [Hrunner Hrun]. split.
  - destruct (Hrunner (py "pull") [py "docker"; py "compose"; py "pull"]
                [py "/"; py "stacks"; py "web"] 600%Z None
                (demo_state [100%Q; 700.25%Q]
                   [Raise (TimeoutExpired (py "timed out after 600 seconds"))] ∅)
                100%Q
                (demo_world [700.25%Q] [Raise (TimeoutExpired (py "timed out after 600 seconds"))])
                (py "timed out after 600 seconds") (demo_world [700.25%Q] [])
                700.25%Q (demo_world [] [])) as (st' & H).
    + vm_compute. reflexivity.
    + vm_compute. reflexivity.
    + vm_compute. reflexivity.
    + exists st'. rewrite H. vm_compute. reflexivity.
  - destruct (Hrun (py "web") demo_config_timeout
                (@perform_deploy demo (py "web") demo_config_timeout).1
                (@perform_deploy demo (py "web") demo_config_timeout).2
                [demo_status_call (exits 0 (py "web" ++ [10]));
                 demo_config_call (Raise (TimeoutExpired (py "timed out after 120 seconds")))]
                1%nat
                (demo_config_call (Raise (TimeoutExpired (py "timed out after 120 seconds"))))
                (py "timed out after 120 seconds"))
      as (_ & steps & t0 & t1 & sa & started & w1 & w2 & finished & w3 & H1 & _).
    + vm_compute. reflexivity.
    + vm_compute. reflexivity.
    + reflexivity.
    + reflexivity.
    + vm_compute. reflexivity.
Defined.
